(** * Curaçao interactive map viewer: a shallow embedding of [src/App.tsx]

    The component is modelled function by function.  JavaScript strings
    are sequences of UTF-16 code units, numbers that stay integral are
    integers, the browser and Leaflet objects the component mutates
    (the map, its layers, the tracked markers) live in an explicit world
    record, and code that can throw runs in a small state-and-exception
    monad.  Built-ins whose behaviour is fixed by ECMAScript or by the
    platform and not by this repository ([toLowerCase], [toUpperCase],
    [localeCompare], [encodeURIComponent], the network) are the fields of
    a [Platform] class, so every statement holds whatever they do.

    Two conventions.  The dataset is typed as the component's interfaces
    declare it: a property is a string or a number, or is absent; bodies
    that come back from the encyclopedia are untyped JSON values.  And
    each handler or effect runs from start to end on its own: what other
    events could do while an [await] is pending is not represented. *)

From Stdlib Require Import ZArith NArith List String Ascii Lia QArith Sorted.
From stdpp Require Import base tactics option list gmap relations.

Set Warnings "-register-all,-clear-no-such-hyp".
Local Open Scope Z_scope.

(** ** JavaScript strings *)

(** A string is its sequence of UTF-16 code units; [charCodeAt] reads
    one of them. *)
Definition jsstring : Type := list N.

(** An ASCII literal as a JavaScript string. *)
Definition js (s : string) : jsstring :=
  List.map N_of_ascii (list_ascii_of_string s).

(** [s.charCodeAt(i)]; [None] stands for the [NaN] of an index out of
    range. *)
Definition charCodeAt (s : jsstring) (i : nat) : option Z :=
  Z.of_N <$> s !! i.

(** ** Color Assigner: [getAreaColor] *)

Module Color.

Definition colors : list jsstring :=
  List.map js
    [ "#FF6B6B"; "#4ECDC4"; "#45B7D1"; "#96CEB4"; "#FECA57";
      "#FF9FF3"; "#54A0FF"; "#5F27CD"; "#00D2D3"; "#FF9F43";
      "#C44569"; "#F8B500"; "#6C5CE7"; "#A55EEA"; "#26DE81";
      "#FD79A8"; "#E17055"; "#00B894"; "#0984E3"; "#6C5CE7";
      "#F39C12"; "#E74C3C"; "#9B59B6"; "#3498DB"; "#1ABC9C";
      "#E67E22"; "#95A5A6"; "#34495E"; "#2ECC71"; "#F1C40F" ]%string.

(** ECMAScript [ToInt32]: reduction modulo 2^32 into the signed range. *)
Definition ToInt32 (z : Z) : Z := (z + 2 ^ 31) mod 2 ^ 32 - 2 ^ 31.

(** [z << k]: both operands go through the 32-bit conversions, the
    shift count is taken modulo 32 and the result is again an int32. *)
Definition shl (z k : Z) : Z := ToInt32 (Z.shiftl (ToInt32 z) (k mod 32)).

(** The loop body, [hash = areaName.charCodeAt(i) + ((hash << 5) - hash)].
    The subtraction and the addition are ordinary number arithmetic: only
    the shift wraps to 32 bits. *)
Definition hashStep (hash : Z) (code : Z) : Z := code + (shl hash 5 - hash).

(** [for (let i = 0; i < areaName.length; i++) ...], with [n] the number
    of iterations still to run. *)
Fixpoint hashLoop (areaName : jsstring) (n i : nat) (hash : Z) : Z :=
  match n with
  | O => hash
  | S n' =>
      match charCodeAt areaName i with
      | Some code => hashLoop areaName n' (S i) (hashStep hash code)
      | None => hash
      end
  end.

Definition hashOf (areaName : jsstring) : Z :=
  hashLoop areaName (length areaName) 0 0.

(** [colors[Math.abs(hash) % colors.length]]; an index outside the array
    would read [undefined], here [None]. *)
Definition getAreaColor (areaName : jsstring) : option jsstring :=
  let colorIndex := Z.abs (hashOf areaName) mod Z.of_nat (length colors) in
  colors !! Z.to_nat colorIndex.

End Color.

(** ** Numbers and JSON values *)

(** A JavaScript number: a finite value, [NaN] or an infinity.  Finite
    values are exact rationals kept in lowest terms, so double rounding
    and the sign of zero are not represented; statements about sums are
    phrased with [numAdd] and [numDiv] themselves and do not rely on
    exactness. *)
Inductive number : Type :=
| Fin (q : Q)
| NaN
| PosInf
| NegInf.

Definition numZ (z : Z) : number := Fin (inject_Z z).

Definition numAdd (a b : number) : number :=
  match a, b with
  | Fin x, Fin y => Fin (Qred (x + y))
  | NaN, _ | _, NaN => NaN
  | PosInf, NegInf | NegInf, PosInf => NaN
  | PosInf, _ | _, PosInf => PosInf
  | NegInf, _ | _, NegInf => NegInf
  end.

Definition Qneg (q : Q) : bool := (Qnum q <? 0)%Z.

Definition numDiv (a b : number) : number :=
  match a, b with
  | NaN, _ | _, NaN => NaN
  | Fin x, Fin y =>
      if Qeq_bool y 0 then
        if Qeq_bool x 0 then NaN else if Qneg x then NegInf else PosInf
      else Fin (Qred (x / y))
  | Fin _, (PosInf | NegInf) => Fin 0
  | (PosInf | NegInf), (PosInf | NegInf) => NaN
  | PosInf, Fin y => if Qneg y then NegInf else PosInf
  | NegInf, Fin y => if Qneg y then PosInf else NegInf
  end.


(** A value as [response.json()] can produce it, with [undefined] added
    for absent properties. *)
Inductive value : Type :=
| VUndefined
| VNull
| VBool (b : bool)
| VNum (n : number)
| VStr (s : jsstring)
| VArr (elems : list value)
| VObj (props : list (jsstring * value)).

(** ECMAScript [ToBoolean]. *)
Definition truthy (v : value) : bool :=
  match v with
  | VUndefined | VNull => false
  | VBool b => b
  | VNum (Fin q) => negb (Qeq_bool q 0)
  | VNum NaN => false
  | VNum _ => true
  | VStr s => negb (bool_decide (s = []))
  | VArr _ | VObj _ => true
  end.

(** [a || b]. *)
Definition or_else (a b : value) : value := if truthy a then a else b.

(** What a [throw] carries. *)
Inductive exn : Type :=
| TypeError
| URIError
| NetworkError
| SyntaxError
| InvalidLatLng.

(** First own property of that name in an object literal. *)
Fixpoint assoc (k : jsstring) (props : list (jsstring * value)) : option value :=
  match props with
  | [] => None
  | (k', v) :: rest => if bool_decide (k = k') then Some v else assoc k rest
  end.

(** [v.k] for the property names this program reads ([query], [search],
    [length], [title], [extract], [thumbnail], [source], [content_urls],
    [desktop], [page]): none of them is inherited from a prototype, so
    only own properties count, and arrays and strings own [length].
    Reading a property of [null] or [undefined] throws. *)
Definition getProp (v : value) (k : jsstring) : exn + value :=
  match v with
  | VUndefined | VNull => inl TypeError
  | VObj props => inr (default VUndefined (assoc k props))
  | VArr elems =>
      inr (if bool_decide (k = js "length")
           then VNum (numZ (Z.of_nat (length elems))) else VUndefined)
  | VStr s =>
      inr (if bool_decide (k = js "length")
           then VNum (numZ (Z.of_nat (length s))) else VUndefined)
  | VBool _ | VNum _ => inr VUndefined
  end.

(** [v[0]]. *)
Definition getFirst (v : value) : exn + value :=
  match v with
  | VUndefined | VNull => inl TypeError
  | VObj props => inr (default VUndefined (assoc (js "0") props))
  | VArr elems => inr (default VUndefined (head elems))
  | VStr s => inr (match s with [] => VUndefined | c :: _ => VStr [c] end)
  | VBool _ | VNum _ => inr VUndefined
  end.

(** [v?.k]. *)
Definition getOpt (v : value) (k : jsstring) : value :=
  match getProp v k with
  | inl _ => VUndefined
  | inr x => x
  end.

(** ** Data model *)

(** A GeoJSON position, [[longitude, latitude]]. *)
Definition Position : Type := (number * number)%type.

Inductive Geometry : Type :=
| Point (coordinates : Position)
| MultiPoint (coordinates : list Position)
| LineString (coordinates : list Position)
| MultiLineString (coordinates : list (list Position))
| Polygon (coordinates : list (list Position))
| MultiPolygon (coordinates : list (list (list Position)))
| GeometryCollection (geometries : list Geometry).

(** [geometry.type === 'Polygon' || geometry.type === 'MultiPolygon'] *)
Definition isPolygonType (g : Geometry) : bool :=
  match g with Polygon _ | MultiPolygon _ => true | _ => false end.

(** [geometry.type === 'Point'] *)
Definition isPointType (g : Geometry) : bool :=
  match g with Point _ => true | _ => false end.

(** The properties the program reads; [None] is an absent (or [null])
    property.  Areas carry [NAME], [pop], [HH], [meanPinc]; churches carry
    [name], [area], [photo], [description]. *)
Record Properties : Type := {
  NAME : option jsstring;
  pop : option number;
  HH : option number;
  meanPinc : option number;
  p_name : option jsstring;
  p_area : option jsstring;
  p_photo : option jsstring;
  p_description : option jsstring
}.

(** A GeoJSON feature; [properties] may be [null]. *)
Record Feature : Type := {
  geometry : Geometry;
  properties : option Properties
}.

(** [interface AreaInfo] *)
Record AreaInfo : Type := {
  name : jsstring;
  population : number;
  households : number;
  meanIncome : number
}.

(** [interface ChurchFeature], flattened. *)
Record ChurchFeature : Type := {
  church_name : jsstring;
  church_area : jsstring;
  church_photo : jsstring;
  church_description : jsstring;
  church_coordinates : Position
}.

(** [s || d] on an optional string: absent and empty both fall back. *)
Definition strOr (o : option jsstring) (d : jsstring) : jsstring :=
  match o with
  | Some (c :: s) => c :: s
  | _ => d
  end.

(** [n || d] on an optional number: absent, zero and [NaN] fall back. *)
Definition numOr (o : option number) (d : number) : number :=
  match o with
  | Some n => if truthy (VNum n) then n else d
  | None => d
  end.

(** What [fetchAreaInfo] resolves to. *)
Record AreaInfoSummary : Type := {
  title : value;
  extract : value;
  thumbnail : value;
  pageUrl : value
}.

(** The values interpolated into the popup markup. *)
Record PopupContent : Type := {
  popup_imageUrl : value;
  popup_areaName : jsstring;
  popup_title : value;
  popup_churchCount : option nat;
  popup_extract : value
}.

(** Path options the program sets; [None] leaves Leaflet's own default
    in place. *)
Record PathStyle : Type := {
  fillColor : option (option jsstring);
  weight : option Z;
  opacity : option Z;
  color : option jsstring;
  dashArray : option jsstring;
  fillOpacity : option Q
}.

Definition noStyle : PathStyle :=
  {| fillColor := None; weight := None; opacity := None;
     color := None; dashArray := None; fillOpacity := None |}.

(** The text label of an area: a marker with an identity of its own. *)
Record Label : Type := {
  label_id : positive;
  label_center : number * number;
  label_text : jsstring
}.

(** A polygon layer of the GeoJSON group, with the properties the
    program hangs on it. *)
Record PathLayer : Type := {
  feature : Feature;
  options : PathStyle;
  _label : option Label;
  _popup : option PopupContent
}.

(** A church marker. *)
Record Marker : Type := {
  marker_id : positive;
  marker_church : ChurchFeature
}.

Inductive View : Type :=
| InitialView
| FitBounds (g : Geometry)
| SetView (lat lng : number) (zoom : Z).

(** The Leaflet map: which label and church markers are on it, where it
    looks, and which polygon has the popup the program opened. *)
Record LMap : Type := {
  onMap : gset positive;
  view : View;
  openPopup : option positive
}.

(** Everything the component keeps between events: React state, refs,
    the polygon layers and church markers created so far (by stamp), the
    last stamp handed out, and the log of requests sent. *)
Record World : Type := {
  selectedArea : option jsstring;
  curacaoGeoJSON : option (list Feature);
  churchesData : list ChurchFeature;
  searchTerm : jsstring;
  areas : list AreaInfo;
  filteredAreas : list AreaInfo;
  mapInstanceRef : option LMap;
  geoJsonLayerRef : option (list positive);
  churchMarkersRef : list Marker;
  paths : gmap positive PathLayer;
  markers : gmap positive Marker;
  lastId : positive;
  requests : list jsstring
}.

Definition initialWorld : World :=
  {| selectedArea := None; curacaoGeoJSON := None; churchesData := [];
     searchTerm := []; areas := []; filteredAreas := [];
     mapInstanceRef := None; geoJsonLayerRef := None;
     churchMarkersRef := []; paths := ∅; markers := ∅; lastId := 1%positive;
     requests := [] |}.

(** ** The platform *)

(** What a request comes back with: [fetch] rejects, [response.json()]
    rejects, or a parsed body. *)
Inductive outcome : Type :=
| NetworkFailure
| ParseFailure
| Json (body : value).

(** Built-ins of the engine and the browser.  The network may answer a
    request depending on everything requested before it. *)
Class Platform : Type := {
  toLowerCase : jsstring -> jsstring;
  toUpperCase : jsstring -> jsstring;
  localeCompare : jsstring -> jsstring -> Z;
  (** applies [ToString] to its argument first; throws [URIError] on a
      lone surrogate *)
  encodeURIComponent : value -> exn + jsstring;
  (** [ToNumber] on strings, arrays and objects *)
  toNumberOf : value -> number;
  (** Leaflet's [layer.getBounds().getCenter()], as [(lat, lng)] *)
  getBoundsCenter : Geometry -> number * number;
  net : list jsstring -> jsstring -> outcome
}.

(** ** Computations that read and write the world and may throw *)

Definition M (A : Type) : Type := World -> (exn + A) * World.

Definition ret {A} (a : A) : M A := fun w => (inr a, w).

Definition bind {A B} (m : M A) (k : A -> M B) : M B :=
  fun w =>
    match m w with
    | (inl e, w') => (inl e, w')
    | (inr a, w') => k a w'
    end.

Definition throw {A} (e : exn) : M A := fun w => (inl e, w).

(** [try { body } catch (error) { handler }] *)
Definition tryCatch {A} (body : M A) (handler : exn -> M A) : M A :=
  fun w =>
    match body w with
    | (inl e, w') => handler e w'
    | (inr a, w') => (inr a, w')
    end.

Definition lift {A} (r : exn + A) : M A := fun w => (r, w).

Definition get : M World := fun w => (inr w, w).

Definition modify (f : World -> World) : M unit := fun w => (inr tt, f w).

Notation "x <- m ;; k" := (bind m (fun x => k))
  (at level 100, m at next level, right associativity).
Notation "m ;;; k" := (bind m (fun _ => k))
  (at level 100, right associativity).

(** [for (const x of xs) body(x)] and [xs.forEach(body)]. *)
Fixpoint forEach {A} (xs : list A) (body : A -> M unit) : M unit :=
  match xs with
  | [] => ret tt
  | x :: rest => body x ;;; forEach rest body
  end.

(** Field updates of the world. *)
Definition set_selectedArea (v : option jsstring) (w : World) : World :=
  {| selectedArea := v; curacaoGeoJSON := curacaoGeoJSON w;
     churchesData := churchesData w; searchTerm := searchTerm w;
     areas := areas w; filteredAreas := filteredAreas w;
     mapInstanceRef := mapInstanceRef w;
     geoJsonLayerRef := geoJsonLayerRef w;
     churchMarkersRef := churchMarkersRef w; paths := paths w;
     markers := markers w; lastId := lastId w; requests := requests w |}.

Definition set_curacaoGeoJSON (v : option (list Feature)) (w : World) : World :=
  {| selectedArea := selectedArea w; curacaoGeoJSON := v;
     churchesData := churchesData w; searchTerm := searchTerm w;
     areas := areas w; filteredAreas := filteredAreas w;
     mapInstanceRef := mapInstanceRef w;
     geoJsonLayerRef := geoJsonLayerRef w;
     churchMarkersRef := churchMarkersRef w; paths := paths w;
     markers := markers w; lastId := lastId w; requests := requests w |}.

Definition set_churchesData (v : list ChurchFeature) (w : World) : World :=
  {| selectedArea := selectedArea w; curacaoGeoJSON := curacaoGeoJSON w;
     churchesData := v; searchTerm := searchTerm w; areas := areas w;
     filteredAreas := filteredAreas w; mapInstanceRef := mapInstanceRef w;
     geoJsonLayerRef := geoJsonLayerRef w;
     churchMarkersRef := churchMarkersRef w; paths := paths w;
     markers := markers w; lastId := lastId w; requests := requests w |}.

Definition set_searchTerm (v : jsstring) (w : World) : World :=
  {| selectedArea := selectedArea w; curacaoGeoJSON := curacaoGeoJSON w;
     churchesData := churchesData w; searchTerm := v; areas := areas w;
     filteredAreas := filteredAreas w; mapInstanceRef := mapInstanceRef w;
     geoJsonLayerRef := geoJsonLayerRef w;
     churchMarkersRef := churchMarkersRef w; paths := paths w;
     markers := markers w; lastId := lastId w; requests := requests w |}.

Definition set_areas (v : list AreaInfo) (w : World) : World :=
  {| selectedArea := selectedArea w; curacaoGeoJSON := curacaoGeoJSON w;
     churchesData := churchesData w; searchTerm := searchTerm w;
     areas := v; filteredAreas := filteredAreas w;
     mapInstanceRef := mapInstanceRef w;
     geoJsonLayerRef := geoJsonLayerRef w;
     churchMarkersRef := churchMarkersRef w; paths := paths w;
     markers := markers w; lastId := lastId w; requests := requests w |}.

Definition set_filteredAreas (v : list AreaInfo) (w : World) : World :=
  {| selectedArea := selectedArea w; curacaoGeoJSON := curacaoGeoJSON w;
     churchesData := churchesData w; searchTerm := searchTerm w;
     areas := areas w; filteredAreas := v;
     mapInstanceRef := mapInstanceRef w;
     geoJsonLayerRef := geoJsonLayerRef w;
     churchMarkersRef := churchMarkersRef w; paths := paths w;
     markers := markers w; lastId := lastId w; requests := requests w |}.

Definition set_mapInstanceRef (v : option LMap) (w : World) : World :=
  {| selectedArea := selectedArea w; curacaoGeoJSON := curacaoGeoJSON w;
     churchesData := churchesData w; searchTerm := searchTerm w;
     areas := areas w; filteredAreas := filteredAreas w;
     mapInstanceRef := v; geoJsonLayerRef := geoJsonLayerRef w;
     churchMarkersRef := churchMarkersRef w; paths := paths w;
     markers := markers w; lastId := lastId w; requests := requests w |}.

Definition set_geoJsonLayerRef (v : option (list positive)) (w : World) : World :=
  {| selectedArea := selectedArea w; curacaoGeoJSON := curacaoGeoJSON w;
     churchesData := churchesData w; searchTerm := searchTerm w;
     areas := areas w; filteredAreas := filteredAreas w;
     mapInstanceRef := mapInstanceRef w; geoJsonLayerRef := v;
     churchMarkersRef := churchMarkersRef w; paths := paths w;
     markers := markers w; lastId := lastId w; requests := requests w |}.

Definition set_churchMarkersRef (v : list Marker) (w : World) : World :=
  {| selectedArea := selectedArea w; curacaoGeoJSON := curacaoGeoJSON w;
     churchesData := churchesData w; searchTerm := searchTerm w;
     areas := areas w; filteredAreas := filteredAreas w;
     mapInstanceRef := mapInstanceRef w;
     geoJsonLayerRef := geoJsonLayerRef w; churchMarkersRef := v;
     paths := paths w; markers := markers w; lastId := lastId w;
     requests := requests w |}.

Definition set_paths (v : gmap positive PathLayer) (w : World) : World :=
  {| selectedArea := selectedArea w; curacaoGeoJSON := curacaoGeoJSON w;
     churchesData := churchesData w; searchTerm := searchTerm w;
     areas := areas w; filteredAreas := filteredAreas w;
     mapInstanceRef := mapInstanceRef w;
     geoJsonLayerRef := geoJsonLayerRef w;
     churchMarkersRef := churchMarkersRef w; paths := v;
     markers := markers w; lastId := lastId w; requests := requests w |}.

Definition set_markers (v : gmap positive Marker) (w : World) : World :=
  {| selectedArea := selectedArea w; curacaoGeoJSON := curacaoGeoJSON w;
     churchesData := churchesData w; searchTerm := searchTerm w;
     areas := areas w; filteredAreas := filteredAreas w;
     mapInstanceRef := mapInstanceRef w;
     geoJsonLayerRef := geoJsonLayerRef w;
     churchMarkersRef := churchMarkersRef w; paths := paths w;
     markers := v; lastId := lastId w; requests := requests w |}.

Definition set_lastId (v : positive) (w : World) : World :=
  {| selectedArea := selectedArea w; curacaoGeoJSON := curacaoGeoJSON w;
     churchesData := churchesData w; searchTerm := searchTerm w;
     areas := areas w; filteredAreas := filteredAreas w;
     mapInstanceRef := mapInstanceRef w;
     geoJsonLayerRef := geoJsonLayerRef w;
     churchMarkersRef := churchMarkersRef w; paths := paths w;
     markers := markers w; lastId := v; requests := requests w |}.

Definition set_requests (v : list jsstring) (w : World) : World :=
  {| selectedArea := selectedArea w; curacaoGeoJSON := curacaoGeoJSON w;
     churchesData := churchesData w; searchTerm := searchTerm w;
     areas := areas w; filteredAreas := filteredAreas w;
     mapInstanceRef := mapInstanceRef w;
     geoJsonLayerRef := geoJsonLayerRef w;
     churchMarkersRef := churchMarkersRef w; paths := paths w;
     markers := markers w; lastId := lastId w; requests := v |}.

(** ** String built-ins fixed by ECMAScript *)

(** [WhiteSpace] and [LineTerminator] code units, the ones [trim] strips. *)
Definition isWhiteSpace (c : N) : bool :=
  match c with
  | 9 | 10 | 11 | 12 | 13 | 32 | 160 | 5760 | 8232 | 8233 | 8239
  | 8287 | 12288 | 65279 => true
  | _ => (8192 <=? c)%N && (c <=? 8202)%N
  end%N.

Fixpoint trimStart (s : jsstring) : jsstring :=
  match s with
  | [] => []
  | c :: rest => if isWhiteSpace c then trimStart rest else s
  end.

Definition trimEnd (s : jsstring) : jsstring := rev (trimStart (rev s)).

Definition trim (s : jsstring) : jsstring := trimEnd (trimStart s).

Fixpoint startsWith (s p : jsstring) : bool :=
  match p, s with
  | [], _ => true
  | _ :: _, [] => false
  | a :: p', b :: s' => (a =? b)%N && startsWith s' p'
  end.

(** [s.includes(p)] *)
Fixpoint includes (s p : jsstring) : bool :=
  startsWith s p ||
  match s with
  | [] => false
  | _ :: s' => includes s' p
  end.

(** [substring(0, n)] *)
Definition substring0 (s : jsstring) (n : nat) : jsstring := take n s.

(** [Array.prototype.sort] with a comparator: a stable sort, written as
    insertion from the right. *)
Fixpoint insertBy {A} (cmp : A -> A -> Z) (x : A) (l : list A) : list A :=
  match l with
  | [] => [x]
  | y :: rest => if cmp x y <=? 0 then x :: l else y :: insertBy cmp x rest
  end.

Definition sortBy {A} (cmp : A -> A -> Z) (l : list A) : list A :=
  foldr (insertBy cmp) [] l.

(** [xs.map(f)] for a callback that may throw. *)
Fixpoint mapE {A B} (f : A -> exn + B) (xs : list A) : exn + list B :=
  match xs with
  | [] => inr []
  | x :: rest =>
      match f x with
      | inl e => inl e
      | inr y =>
          match mapE f rest with
          | inl e => inl e
          | inr ys => inr (y :: ys)
          end
      end
  end.

Section App.
Context `{Platform}.

(** ** Geo Data Loader: [loadGeoJSON] *)

Definition Unknown : jsstring := js "Unknown".

(** The [map] callback of the area list. *)
Definition toAreaInfo (f : Feature) : exn + AreaInfo :=
  match properties f with
  | None => inl TypeError
  | Some p =>
      inr {| name := strOr (NAME p) Unknown;
             population := numOr (pop p) (numZ 0);
             households := numOr (HH p) (numZ 0);
             meanIncome := numOr (meanPinc p) (numZ 0) |}
  end.

(** The [map] callback of the church list.  The filter before it lets
    only Point features through; the last case is never reached. *)
Definition toChurchFeature (f : Feature) : exn + ChurchFeature :=
  match properties f, geometry f with
  | None, _ => inl TypeError
  | Some p, Point xy =>
      inr {| church_name := strOr (p_name p) (js "Unknown Church");
             church_area := strOr (p_area p) (js "Unknown Area");
             church_photo := strOr (p_photo p) [];
             church_description := strOr (p_description p) [];
             church_coordinates := xy |}
  | Some p, _ => inl TypeError
  end.

Definition byName (a b : AreaInfo) : Z := localeCompare (name a) (name b).

(** The full variant's loader, given what [fetch('/cw.json')] and
    [response.json()] produced ([None]: one of them rejected). *)
Definition loadGeoJSON (response : option (list Feature)) : M unit :=
  tryCatch
    (match response with
     | None => throw NetworkError
     | Some features =>
         modify (set_curacaoGeoJSON (Some features)) ;;;
         areaList <- lift (mapE toAreaInfo
                       (List.filter (fun f => isPolygonType (geometry f)) features)) ;;
         let areaList := sortBy byName areaList in
         churchList <- lift (mapE toChurchFeature
                       (List.filter (fun f => isPointType (geometry f)) features)) ;;
         modify (set_areas areaList) ;;;
         modify (set_filteredAreas areaList) ;;;
         modify (set_churchesData churchList)
     end)
    (fun _ => ret tt).

(** The basic variant's loader: every feature becomes an area. *)
Definition loadGeoJSON_basic (response : option (list Feature)) : M unit :=
  tryCatch
    (match response with
     | None => throw NetworkError
     | Some features =>
         modify (set_curacaoGeoJSON (Some features)) ;;;
         areaList <- lift (mapE toAreaInfo features) ;;
         let areaList := sortBy byName areaList in
         modify (set_areas areaList) ;;;
         modify (set_filteredAreas areaList)
     end)
    (fun _ => ret tt).

(** ** Feature Style Function: [style] *)

Definition style (selected : option jsstring) (f : Feature) : PathStyle :=
  match properties f with
  | None => noStyle
  | Some p =>
      let areaName := strOr (NAME p) Unknown in
      let isSelected := bool_decide (selected = Some areaName) in
      {| fillColor := Some (Color.getAreaColor areaName);
         weight := Some (if isSelected then 3 else 1);
         opacity := Some 1;
         color := Some (if isSelected then js "#1d4ed8" else js "#ffffff");
         dashArray := Some [];
         fillOpacity := Some (if isSelected then 9 # 10 else 7 # 10) |}
  end.

(** ** Area Info Fetcher: [fetchAreaInfo] *)

(** [await fetch(url)] followed by [await response.json()]. *)
Definition fetchJson (url : jsstring) : M value :=
  fun w =>
    let w' := set_requests (requests w ++ [url]) w in
    match net (requests w) url with
    | NetworkFailure => (inl NetworkError, w')
    | ParseFailure => (inl SyntaxError, w')
    | Json body => (inr body, w')
    end.

Definition searchUrl (encoded : jsstring) : jsstring :=
  js "https://en.wikipedia.org/w/api.php?action=query&list=search&srsearch="
  ++ encoded ++ js "&format=json&origin=*".

Definition summaryUrl (encoded : jsstring) : jsstring :=
  js "https://en.wikipedia.org/api/rest_v1/page/summary/" ++ encoded.

(** The text [" Curaçao"]; the cedilla is the code unit 231. *)
Definition spaceCuracao : jsstring := js " Cura" ++ [231%N] ++ js "ao".

(** One search round trip: the request and [searchData.query.search]. *)
Definition search (searchQuery : jsstring) : M value :=
  encoded <- lift (encodeURIComponent (VStr searchQuery)) ;;
  fetchJson (searchUrl encoded).

(** [searchData.query.search.length] *)
Definition searchLength (searchData : value) : exn + value :=
  match getProp searchData (js "query") with
  | inl e => inl e
  | inr q =>
      match getProp q (js "search") with
      | inl e => inl e
      | inr hits => getProp hits (js "length")
      end
  end.

(** [searchData.query.search[0].title] *)
Definition firstTitleOf (searchData : value) : exn + value :=
  match getProp searchData (js "query") with
  | inl e => inl e
  | inr q =>
      match getProp q (js "search") with
      | inl e => inl e
      | inr hits =>
          match getFirst hits with
          | inl e => inl e
          | inr hit => getProp hit (js "title")
          end
      end
  end.

Definition noInformation (areaName : jsstring) : AreaInfoSummary :=
  {| title := VStr areaName;
     extract := VStr (js "No Wikipedia information available for this area.");
     thumbnail := VNull;
     pageUrl := VNull |}.

Definition notAvailable (areaName : jsstring) : AreaInfoSummary :=
  {| title := VStr areaName;
     extract := VStr (js "Information not available.");
     thumbnail := VNull;
     pageUrl := VNull |}.

(** The object literal returned on success; its four properties are
    evaluated in order and the first two reads throw on a [null] body. *)
Definition summaryOf (areaName : jsstring) (summaryData : value)
  : exn + AreaInfoSummary :=
  match getProp summaryData (js "title") with
  | inl e => inl e
  | inr t =>
      match getProp summaryData (js "extract") with
      | inl e => inl e
      | inr x =>
          match getProp summaryData (js "thumbnail") with
          | inl e => inl e
          | inr th =>
              match getProp summaryData (js "content_urls") with
              | inl e => inl e
              | inr cu =>
                  inr {| title := or_else t (VStr areaName);
                         extract := or_else x (VStr (js "No description available."));
                         thumbnail := or_else (getOpt th (js "source")) VNull;
                         pageUrl :=
                           or_else (getOpt (getOpt cu (js "desktop")) (js "page"))
                                   VNull |}
              end
          end
      end
  end.

(** The body of the [try] block. *)
Definition fetchAreaInfo_try (areaName : jsstring) : M AreaInfoSummary :=
  searchData <- search (areaName ++ spaceCuracao) ;;
  len <- lift (searchLength searchData) ;;
  searchData <- (if negb (truthy len) then search areaName else ret searchData) ;;
  len <- lift (searchLength searchData) ;;
  if negb (truthy len) then ret (noInformation areaName)
  else
    firstTitle <- lift (firstTitleOf searchData) ;;
    encoded <- lift (encodeURIComponent firstTitle) ;;
    summaryData <- fetchJson (summaryUrl encoded) ;;
    lift (summaryOf areaName summaryData).

Definition fetchAreaInfo (areaName : jsstring) : M AreaInfoSummary :=
  tryCatch (fetchAreaInfo_try areaName) (fun _ => ret (notAvailable areaName)).

(** ** Leaflet objects *)

Definition addLayer (id : positive) (m : LMap) : LMap :=
  {| onMap := {[id]} ∪ onMap m; view := view m; openPopup := openPopup m |}.

Definition removeLayer (id : positive) (m : LMap) : LMap :=
  {| onMap := onMap m ∖ {[id]}; view := view m; openPopup := openPopup m |}.

Definition hasLayer (id : positive) (m : LMap) : bool :=
  bool_decide (id ∈ onMap m).

Definition setView (v : View) (m : LMap) : LMap :=
  {| onMap := onMap m; view := v; openPopup := openPopup m |}.

Definition setOpenPopup (o : option positive) (m : LMap) : LMap :=
  {| onMap := onMap m; view := view m; openPopup := o |}.

(** [mapInstanceRef.current!.f(...)] *)
Definition onMapInstance (f : LMap -> LMap) : M unit :=
  modify (fun w => set_mapInstanceRef (f <$> mapInstanceRef w) w).

(** A new Leaflet object takes the next stamp. *)
Definition stamp : M positive :=
  fun w => (inr (lastId w), set_lastId (Pos.succ (lastId w)) w).

(** [layer.setStyle(patch)]: the options named in the patch replace the
    layer's, the others stay. *)
Definition mergeStyle (patch base : PathStyle) : PathStyle :=
  {| fillColor := from_option Some (fillColor base) (fillColor patch);
     weight := from_option Some (weight base) (weight patch);
     opacity := from_option Some (opacity base) (opacity patch);
     color := from_option Some (color base) (color patch);
     dashArray := from_option Some (dashArray base) (dashArray patch);
     fillOpacity := from_option Some (fillOpacity base) (fillOpacity patch) |}.

Definition withOptions (f : PathStyle -> PathStyle) (l : PathLayer) : PathLayer :=
  {| feature := feature l; options := f (options l);
     _label := _label l; _popup := _popup l |}.

Definition withPopup (c : PopupContent) (l : PathLayer) : PathLayer :=
  {| feature := feature l; options := options l;
     _label := _label l; _popup := Some c |}.

Definition setStyle (lid : positive) (patch : PathStyle) : M unit :=
  modify (fun w => set_paths (alter (withOptions (mergeStyle patch)) lid (paths w)) w).

Definition bindPopup (lid : positive) (c : PopupContent) : M unit :=
  modify (fun w => set_paths (alter (withPopup c) lid (paths w)) w).

(** [{ weight: 3, color: '#1d4ed8', fillOpacity: 0.9 }] *)
Definition selectedPatch : PathStyle :=
  {| fillColor := None; weight := Some 3; opacity := None;
     color := Some (js "#1d4ed8"); dashArray := None;
     fillOpacity := Some (9 # 10) |}.

(** [{ weight: 1, color: '#ffffff', fillOpacity: 0.7 }] *)
Definition defaultPatch : PathStyle :=
  {| fillColor := None; weight := Some 1; opacity := None;
     color := Some (js "#ffffff"); dashArray := None;
     fillOpacity := Some (7 # 10) |}.

(** ** Point-of-Interest Overlay *)

Definition clearChurchMarkers : M unit :=
  w <- get ;;
  match mapInstanceRef w with
  | Some _ =>
      forEach (churchMarkersRef w)
        (fun marker => onMapInstance (removeLayer (marker_id marker))) ;;;
      modify (set_churchMarkersRef [])
  | None => ret tt
  end.

(** [church.properties.area.toUpperCase() === areaName.toUpperCase()] *)
Definition inArea (areaName : jsstring) (church : ChurchFeature) : bool :=
  bool_decide (toUpperCase (church_area church) = toUpperCase areaName).

(** The body of [areaChurches.forEach]: a new marker, put on the map and
    pushed on the tracking list. *)
Definition addChurchMarker (church : ChurchFeature) : M unit :=
  id <- stamp ;;
  let marker := {| marker_id := id; marker_church := church |} in
  modify (fun w => set_markers (<[id := marker]> (markers w)) w) ;;;
  onMapInstance (addLayer id) ;;;
  modify (fun w => set_churchMarkersRef (churchMarkersRef w ++ [marker]) w).

Definition showChurchesForArea (areaName : jsstring) : M unit :=
  w <- get ;;
  match mapInstanceRef w with
  | None => ret tt
  | Some _ =>
      clearChurchMarkers ;;;
      let areaChurches := List.filter (inArea areaName) (churchesData w) in
      forEach areaChurches addChurchMarker
  end.

(** The marker's click handler. *)
Definition churchMarkerClick (marker : Marker) : M unit :=
  w <- get ;;
  match mapInstanceRef w with
  | Some _ =>
      let '(lng, lat) := church_coordinates (marker_church marker) in
      onMapInstance (setView (SetView lat lng 16))
  | None => ret tt
  end.

(** [window.showChurchesForArea], the popup button's entry point. *)
Definition window_showChurchesForArea (areaName : jsstring) : M unit :=
  onMapInstance (setOpenPopup None) ;;;
  showChurchesForArea areaName.

(** ** Popup content: [createPopupContent] *)

(** ECMAScript [ToNumber]. *)
Definition ToNumber (v : value) : number :=
  match v with
  | VUndefined => NaN
  | VNull => numZ 0
  | VBool b => numZ (if b then 1 else 0)
  | VNum n => n
  | _ => toNumberOf v
  end.

(** [a > z] for an integer literal [z]. *)
Definition numGt (a : number) (z : Z) : bool :=
  match a with
  | Fin q => negb (Qle_bool q (inject_Z z))
  | PosInf => true
  | _ => false
  end.

(** [x.length > 300 ? x.substring(0, 300) + '...' : x]; only strings have
    [substring]. *)
Definition truncateExtract (x : value) : exn + value :=
  match getProp x (js "length") with
  | inl e => inl e
  | inr len =>
      if numGt (ToNumber len) 300 then
        match x with
        | VStr s => inr (VStr (substring0 s 300 ++ js "..."))
        | _ => inl TypeError
        end
      else inr x
  end.

Definition createPopupContent (props : Properties) : M PopupContent :=
  let areaName := strOr (NAME props) Unknown in
  areaInfo <- fetchAreaInfo areaName ;;
  imageUrl <- (if truthy (thumbnail areaInfo) then ret (thumbnail areaInfo)
               else
                 encoded <- lift (encodeURIComponent (VStr areaName)) ;;
                 ret (VStr (js "https://source.unsplash.com/300x150/?curacao,"
                            ++ encoded))) ;;
  truncatedExtract <- lift (truncateExtract (extract areaInfo)) ;;
  w <- get ;;
  let areaChurches := List.filter (inArea areaName) (churchesData w) in
  ret {| popup_imageUrl := imageUrl;
         popup_areaName := areaName;
         popup_title := title areaInfo;
         popup_churchCount :=
           match areaChurches with
           | [] => None
           | _ :: _ => Some (length areaChurches)
           end;
         popup_extract := truncatedExtract |}.

(** ** Hover handlers: [highlightFeature] and [resetHighlight] *)

(** [{ weight: 3, color: '#1d4ed8', dashArray: '', fillOpacity: 0.9 }] *)
Definition highlightPatch : PathStyle :=
  {| fillColor := None; weight := Some 3; opacity := None;
     color := Some (js "#1d4ed8"); dashArray := Some [];
     fillOpacity := Some (9 # 10) |}.

(** The [mouseover] handler of the polygon [lid]. *)
Definition highlightFeature (lid : positive) : M unit :=
  w <- get ;;
  match paths w !! lid with
  | None => ret tt
  | Some layer =>
      match properties (feature layer) with
      | None => ret tt
      | Some _ =>
          setStyle lid highlightPatch ;;;
          match _label layer, mapInstanceRef w with
          | Some label, Some _ => onMapInstance (addLayer (label_id label))
          | _, _ => ret tt
          end
      end
  end.

(** Leaflet's [GeoJSON.resetStyle(layer)]: the layer's options go back to
    Leaflet's defaults, then the group's style function is applied to the
    layer's feature.  [selected] is the [selectedArea] which that style
    function, a closure of the render that made the group, sees. *)
Definition resetStyle (selected : option jsstring) (lid : positive) : M unit :=
  modify (fun w =>
    set_paths
      (alter (fun l =>
                withOptions (fun _ => mergeStyle (style selected (feature l)) noStyle) l)
         lid (paths w)) w).

(** The [mouseout] handler of the polygon [lid], a closure of the same
    render as the style function: [selected] is the [selectedArea] both
    see.  An absent [NAME] reads [undefined], which no selected-area
    value equals. *)
Definition resetHighlight (selected : option jsstring) (lid : positive) : M unit :=
  w <- get ;;
  match paths w !! lid with
  | None => ret tt
  | Some layer =>
      match geoJsonLayerRef w with
      | Some _ => resetStyle selected lid
      | None => ret tt
      end ;;;
      let isSelected :=
        match properties (feature layer) ≫= NAME with
        | Some n => bool_decide (selected = Some n)
        | None => false
        end in
      match _label layer, mapInstanceRef w with
      | Some label, Some _ =>
          if negb isSelected
          then onMapInstance (removeLayer (label_id label))
          else ret tt
      | _, _ => ret tt
      end
  end.

(** ** Selection Controller: [selectArea] *)

(** The body of the [eachLayer] callback of the restyling pass.  The
    label's own DOM styling is presentation and is left out. *)
Definition restyleLayer (areaName : jsstring) (lid : positive) : M unit :=
  w <- get ;;
  match paths w !! lid with
  | None => ret tt
  | Some mapLayer =>
      match properties (feature mapLayer) with
      | None => throw TypeError
      | Some props =>
          if bool_decide (NAME props = Some areaName) then
            setStyle lid selectedPatch ;;;
            match _label mapLayer, mapInstanceRef w with
            | Some label, Some m =>
                if negb (hasLayer (label_id label) m)
                then onMapInstance (addLayer (label_id label))
                else ret tt
            | _, _ => ret tt
            end
          else
            setStyle lid defaultPatch ;;;
            match _label mapLayer, mapInstanceRef w with
            | Some label, Some m =>
                if hasLayer (label_id label) m
                then onMapInstance (removeLayer (label_id label))
                else ret tt
            | _, _ => ret tt
            end
      end
  end.

(** [if (geoJsonLayerRef.current) geoJsonLayerRef.current.eachLayer(...)] *)
Definition restyleAll (areaName : jsstring) : M unit :=
  w <- get ;;
  match geoJsonLayerRef w with
  | Some lids => forEach lids (restyleLayer areaName)
  | None => ret tt
  end.

(** [layer] is the handle of a layer object, or absent; a handle that
    names no object stands for no layer.  A popup opens only on a layer
    of the group currently on the map. *)
Definition selectArea (areaName : jsstring) (layer : option positive) : M unit :=
  modify (set_selectedArea (Some areaName)) ;;;
  w <- get ;;
  match layer, mapInstanceRef w with
  | Some lid, Some _ =>
      match paths w !! lid with
      | Some l =>
          onMapInstance (setView (FitBounds (geometry (feature l)))) ;;;
          match properties (feature l) with
          | Some props =>
              popupContent <- createPopupContent props ;;
              bindPopup lid popupContent ;;;
              w' <- get ;;
              if bool_decide (lid ∈ default [] (geoJsonLayerRef w'))
              then onMapInstance (setOpenPopup (Some lid))
              else ret tt
          | None => ret tt
          end
      | None => ret tt
      end
  | _, _ => ret tt
  end ;;;
  restyleAll areaName.

(** The callback of [findAreaLayer]'s [eachLayer]: the last match wins. *)
Fixpoint findIn (ps : gmap positive PathLayer) (areaName : jsstring)
  (lids : list positive) (foundLayer : option positive) : exn + option positive :=
  match lids with
  | [] => inr foundLayer
  | lid :: rest =>
      match ps !! lid with
      | None => findIn ps areaName rest foundLayer
      | Some l =>
          match properties (feature l) with
          | None => inl TypeError
          | Some props =>
              findIn ps areaName rest
                (if bool_decide (NAME props = Some areaName)
                 then Some lid else foundLayer)
          end
      end
  end.

Definition findAreaLayer (areaName : jsstring) : M (option positive) :=
  w <- get ;;
  match geoJsonLayerRef w with
  | None => ret None
  | Some lids => lift (findIn (paths w) areaName lids None)
  end.

(** The [onClick] of an entry of the area list. *)
Definition areaListClick (area : AreaInfo) : M unit :=
  layer <- findAreaLayer (name area) ;;
  selectArea (name area) layer.

(** The [click] handler of a polygon. *)
Definition zoomToFeature (lid : positive) : M unit :=
  w <- get ;;
  match paths w !! lid with
  | None => ret tt
  | Some l =>
      match properties (feature l) with
      | None => ret tt
      | Some props => selectArea (strOr (NAME props) Unknown) (Some lid)
      end
  end.

(** ** Map Render Layer: labels and the GeoJSON group *)

(** The centroid loop, [n] iterations from index [i]. *)
Fixpoint centroidLoop (coordinates : list Position) (n i : nat)
  (x y : number) : number * number :=
  match n with
  | O => (x, y)
  | S n' =>
      match coordinates !! i with
      | Some (cx, cy) =>
          centroidLoop coordinates n' (S i) (numAdd x cx) (numAdd y cy)
      | None => (x, y)
      end
  end.

(** The two arguments handed to [L.latLng]: [(y / (length - 1),
    x / (length - 1))]. *)
Definition labelCenter (coordinates : list Position) : number * number :=
  let last := Z.of_nat (length coordinates) - 1 in
  let '(x, y) := centroidLoop coordinates (Z.to_nat last) 0 (numZ 0) (numZ 0) in
  (numDiv y (numZ last), numDiv x (numZ last)).

(** Leaflet's [L.latLng] rejects [NaN]. *)
Definition latLng (c : number * number) : exn + number * number :=
  match c with
  | (NaN, _) | (_, NaN) => inl InvalidLatLng
  | _ => inr c
  end.

(** Where the label of a named feature goes. *)
Definition labelPosition (g : Geometry) : exn + number * number :=
  match g with
  | Polygon rings =>
      match rings with
      | [] => inl TypeError
      | coordinates :: _ => latLng (labelCenter coordinates)
      end
  | _ => inr (getBoundsCenter g)
  end.

(** [onEachFeature]: the label it stores on the layer, if any. *)
Definition onEachFeature (f : Feature) : M (option Label) :=
  match properties f with
  | Some props =>
      match NAME props with
      | Some (c :: s) =>
          center <- lift (labelPosition (geometry f)) ;;
          id <- stamp ;;
          ret (Some {| label_id := id; label_center := center;
                       label_text := c :: s |})
      | _ => ret None
      end
  | None => ret None
  end.

(** [xs.map(f)] in the monad. *)
Fixpoint mapM {A B} (f : A -> M B) (xs : list A) : M (list B) :=
  match xs with
  | [] => ret []
  | x :: rest => y <- f x ;; ys <- mapM f rest ;; ret (y :: ys)
  end.

(** What [L.geoJSON] does with one feature: a layer styled by [style],
    then [onEachFeature]. *)
Definition addData (f : Feature) : M positive :=
  lid <- stamp ;;
  w <- get ;;
  modify (set_paths (<[lid := {| feature := f;
                                 options := style (selectedArea w) f;
                                 _label := None; _popup := None |}]> (paths w))) ;;;
  label <- onEachFeature f ;;
  modify (fun w => set_paths (alter (fun l =>
            {| feature := feature l; options := options l;
               _label := label; _popup := _popup l |}) lid (paths w)) w) ;;;
  ret lid.

Definition removeLabel (lid : positive) : M unit :=
  w <- get ;;
  match paths w !! lid with
  | Some l =>
      match _label l, mapInstanceRef w with
      | Some label, Some m =>
          if hasLayer (label_id label) m
          then onMapInstance (removeLayer (label_id label))
          else ret tt
      | _, _ => ret tt
      end
  | None => ret tt
  end.

(** The effect on [[curacaoGeoJSON, selectedArea]] (full variant). *)
Definition renderEffect : M unit :=
  w <- get ;;
  match mapInstanceRef w, curacaoGeoJSON w with
  | Some _, Some features =>
      match geoJsonLayerRef w with
      | Some old =>
          forEach old removeLabel ;;;
          onMapInstance (fun m =>
            if bool_decide (is_Some (openPopup m))
            then setOpenPopup None m else m)
      | None => ret tt
      end ;;;
      let polygonFeatures :=
        List.filter (fun f => isPolygonType (geometry f)) features in
      lids <- mapM addData polygonFeatures ;;
      modify (set_geoJsonLayerRef (Some lids))
  | _, _ => ret tt
  end.

(** The map initialisation effect, when the container is mounted. *)
Definition initMap : M unit :=
  w <- get ;;
  match mapInstanceRef w with
  | None =>
      modify (set_mapInstanceRef
                (Some {| onMap := ∅; view := InitialView; openPopup := None |}))
  | Some _ => ret tt
  end.

(** ** Presentation Shell: the list entry's highlight *)

(** [selectedArea === area.name], the test that picks the entry's class. *)
Definition isHighlighted (w : World) (area : AreaInfo) : bool :=
  bool_decide (selectedArea w = Some (name area)).

(** ** Search Filter *)

(** The effect on [[searchTerm, areas]]. *)
Definition searchEffect : M unit :=
  w <- get ;;
  if bool_decide (trim (searchTerm w) = []) then
    modify (set_filteredAreas (areas w))
  else
    modify (set_filteredAreas
      (List.filter (fun area =>
         includes (toLowerCase (name area)) (toLowerCase (searchTerm w)))
         (areas w))).

End App.

(** ** A stand-in platform for worked examples *)

(** Case mapping on Basic Latin, ordering by code unit, percent-encoding
    of the UTF-8 form of a string without surrogates, and a network that
    answers from a fixed table of URLs (a failure for any other URL). *)
Module Example.

Definition asciiLower (c : N) : N :=
  if (65 <=? c)%N && (c <=? 90)%N then (c + 32)%N else c.

Definition asciiUpper (c : N) : N :=
  if (97 <=? c)%N && (c <=? 122)%N then (c - 32)%N else c.

Fixpoint compareUnits (a b : jsstring) : Z :=
  match a, b with
  | [], [] => 0
  | [], _ :: _ => -1
  | _ :: _, [] => 1
  | x :: a', y :: b' =>
      if (x <? y)%N then -1 else if (y <? x)%N then 1 else compareUnits a' b'
  end.

Definition hexDigit (n : N) : N :=
  if (n <? 10)%N then (48 + n)%N else (55 + n)%N.

Definition percent (byte : N) : jsstring :=
  [37%N; hexDigit (byte / 16); hexDigit (byte mod 16)].

Definition unreserved (c : N) : bool :=
  ((65 <=? c) && (c <=? 90) || (97 <=? c) && (c <=? 122)
   || (48 <=? c) && (c <=? 57)
   || bool_decide (c ∈ [45; 95; 46; 33; 126; 42; 39; 40; 41]))%N.

Definition encodeUnit (c : N) : jsstring :=
  if unreserved c then [c]
  else if (c <? 128)%N then percent c
  else if (c <? 2048)%N then
    percent (192 + c / 64) ++ percent (128 + c mod 64)
  else
    percent (224 + c / 4096) ++ percent (128 + (c / 64) mod 64)
    ++ percent (128 + c mod 64).

Definition isSurrogate (c : N) : bool := (55296 <=? c)%N && (c <=? 57343)%N.

Definition encode (v : value) : exn + jsstring :=
  match v with
  | VStr s =>
      if existsb isSurrogate s then inl URIError
      else inr (concat (List.map encodeUnit s))
  | VUndefined => inr (js "undefined")
  | VNull => inr (js "null")
  | VBool b => inr (js (if b then "true" else "false"))
  | _ => inr (js "%5Bobject%20Object%5D")
  end.

Fixpoint answer (table : list (jsstring * outcome)) (url : jsstring) : outcome :=
  match table with
  | [] => NetworkFailure
  | (u, o) :: rest => if bool_decide (u = url) then o else answer rest url
  end.

Definition platform (table : list (jsstring * outcome)) : Platform :=
  {| toLowerCase := List.map asciiLower;
     toUpperCase := List.map asciiUpper;
     localeCompare := compareUnits;
     encodeURIComponent := encode;
     toNumberOf := fun _ => NaN;
     getBoundsCenter := fun _ => (numZ 0, numZ 0);
     net := fun _ url => answer table url |}.

(** An answer of the search endpoint with the given hit titles. *)
Definition searchBody (titles : list jsstring) : value :=
  VObj [(js "query",
         VObj [(js "search",
                VArr (List.map (fun t => VObj [(js "title", VStr t)]) titles))])].

Definition primaryUrl (areaName : jsstring) : jsstring :=
  searchUrl (concat (List.map encodeUnit (areaName ++ spaceCuracao))).

Definition fallbackUrl (areaName : jsstring) : jsstring :=
  searchUrl (concat (List.map encodeUnit areaName)).

Definition pageUrlOf (pageTitle : jsstring) : jsstring :=
  summaryUrl (concat (List.map encodeUnit pageTitle)).

(** Wikipedia knows nothing under either query. *)
Definition nothingFound : Platform :=
  platform [(primaryUrl (js "Soto"), Json (searchBody []));
            (fallbackUrl (js "Soto"), Json (searchBody []))].

(** The first search finds a page whose summary has an empty title and
    an empty extract. *)
Definition emptySummary : value :=
  VObj [(js "title", VStr []); (js "extract", VStr [])].

Definition emptyFields : Platform :=
  platform [(primaryUrl (js "Soto"), Json (searchBody [js "Soto"]));
            (pageUrlOf (js "Soto"), Json emptySummary)].

(** ECMAScript lower-casing on Basic Latin and the Greek letters Α and
    Σ.  [toLowerCase] follows Unicode's default case conversion, context
    rules included: a capital sigma that ends a word (a cased letter
    before it, none after it) becomes the final form ς (962), any other
    one σ (963).  [before] tells whether a cased letter precedes. *)
Definition cased (c : N) : bool :=
  ((65 <=? c) && (c <=? 90) || (97 <=? c) && (c <=? 122)
   || bool_decide (c ∈ [913; 931; 945; 962; 963]))%N.

Fixpoint lowerFrom (before : bool) (s : jsstring) : jsstring :=
  match s with
  | [] => []
  | c :: rest =>
      (if (c =? 931)%N then
         if before && negb (match rest with d :: _ => cased d | [] => false end)
         then 962%N else 963%N
       else if (c =? 913)%N then 945%N
       else asciiLower c)
      :: lowerFrom (cased c) rest
  end.

Definition greek : Platform :=
  {| toLowerCase := lowerFrom false;
     toUpperCase := List.map asciiUpper;
     localeCompare := compareUnits;
     encodeURIComponent := encode;
     toNumberOf := fun _ => NaN;
     getBoundsCenter := fun _ => (numZ 0, numZ 0);
     net := fun _ _ => NetworkFailure |}.

Definition area (n : jsstring) : AreaInfo :=
  {| name := n; population := numZ 0; households := numZ 0;
     meanIncome := numZ 0 |}.

(** The strings ΑΣΑ and ΑΣ. *)
Definition ASA : jsstring := [913; 931; 913]%N.
Definition AS : jsstring := [913; 931]%N.

End Example.

(** ** Vocabulary of the fetcher's statements *)

(** [d.query.search] is the array [hits]. *)
Definition searchHits (d : value) (hits : list value) : Prop :=
  exists q, getProp d (js "query") = inr q /\
            getProp q (js "search") = inr (VArr hits).

(** A request that did not come back with a parsed body. *)
Definition failed (o : outcome) : Prop :=
  o = NetworkFailure \/ o = ParseFailure.

(** The values JavaScript treats as false. *)
Inductive Falsy : value -> Prop :=
| Falsy_undefined : Falsy VUndefined
| Falsy_null : Falsy VNull
| Falsy_false : Falsy (VBool false)
| Falsy_zero q : q == 0 -> Falsy (VNum (Fin q))
| Falsy_NaN : Falsy (VNum NaN)
| Falsy_empty : Falsy (VStr []).

(** [a ?? b] *)
Definition nullish_or (a b : value) : value :=
  match a with
  | VUndefined | VNull => b
  | _ => a
  end.

(** The record the claim promises on the success path, with [??]. *)
Definition claimedSummary (areaName : jsstring) (summaryData : value)
  : AreaInfoSummary :=
  {| title := nullish_or (getOpt summaryData (js "title")) (VStr areaName);
     extract := nullish_or (getOpt summaryData (js "extract"))
                  (VStr (js "No description available."));
     thumbnail := nullish_or (getOpt (getOpt summaryData (js "thumbnail"))
                                (js "source")) VNull;
     pageUrl := nullish_or
                  (getOpt (getOpt (getOpt summaryData (js "content_urls"))
                             (js "desktop")) (js "page")) VNull |}.

(** [result] is [v || d]: the default when [v] is falsy, [v] itself
    otherwise. *)
Definition fallsBack (v d result : value) : Prop :=
  (Falsy v -> result = d) /\ (~ Falsy v -> result = v).

Section FetcherVocabulary.
Context `{Platform}.

(** The search for [query], sent as [url] after the requests in
    [history], came back with the array [hits]. *)
Definition answered (query : jsstring) (history : list jsstring)
  (url : jsstring) (hits : list value) : Prop :=
  exists enc d,
    encodeURIComponent (VStr query) = inr enc /\
    url = searchUrl enc /\
    net history url = Json d /\
    searchHits d hits.

(** At least one search result: from the primary search, or from the
    fallback search after an empty primary one. *)
Definition foundBy (areaName : jsstring) (w : World)
  (issued : list jsstring) (hit : value) (rest : list value) : Prop :=
  (exists u1,
     answered (areaName ++ spaceCuracao) (requests w) u1 (hit :: rest) /\
     issued = [u1]) \/
  (exists u1 u2,
     answered (areaName ++ spaceCuracao) (requests w) u1 [] /\
     answered areaName (requests w ++ [u1]) u2 (hit :: rest) /\
     issued = [u1; u2]).

(** The success path: a search result, then a summary request that
    comes back with a body other than [null]. *)
Definition successPath (areaName : jsstring) (w : World)
  (issued : list jsstring) (summaryData : value) : Prop :=
  exists hit rest firstTitle encoded,
    foundBy areaName w issued hit rest /\
    getProp hit (js "title") = inr firstTitle /\
    encodeURIComponent firstTitle = inr encoded /\
    net (requests w ++ issued) (summaryUrl encoded) = Json summaryData /\
    summaryData <> VNull /\ summaryData <> VUndefined.

(** The claim with [??], at one area name and one world. *)
Definition nullishClaim (areaName : jsstring) (w : World) : Prop :=
  forall issued summaryData,
    successPath areaName w issued summaryData ->
    fst (fetchAreaInfo areaName w) = inr (claimedSummary areaName summaryData).

End FetcherVocabulary.

(** ** Vocabulary of the search filter's statements *)

(** Empty or made of white space only. *)
Definition blank (q : jsstring) : Prop :=
  Forall (fun c => isWhiteSpace c = true) q.

Section SearchVocabulary.
Context `{Platform}.

(** [name] contains [q] when both are lower-cased. *)
Definition containsCI (name q : jsstring) : Prop :=
  exists pre post, toLowerCase name = pre ++ toLowerCase q ++ post.

(** What the list panel shows for the query [q] over the areas [l]. *)
Definition filterFor (q : jsstring) (l : list AreaInfo) : list AreaInfo :=
  filteredAreas (snd (searchEffect (set_searchTerm q (set_areas l initialWorld)))).

(** The monotonicity the claim states: what matches a query matches
    every prefix of it. *)
Definition monotonicClaim : Prop :=
  forall (l : list AreaInfo) (q r : jsstring) (a : AreaInfo),
    a ∈ filterFor (q ++ r) l -> a ∈ filterFor q l.

End SearchVocabulary.

(** ** Vocabulary of the loader's statements *)

(** The name under which a feature is listed: its [NAME], or "Unknown"
    when that is absent or empty. *)
Definition namedAs (f : Feature) (n : jsstring) : Prop :=
  exists p, properties f = Some p /\ n = strOr (NAME p) (js "Unknown").

Definition hasProperties (f : Feature) : Prop := is_Some (properties f).

(** The names of the polygon features of a dataset. *)
Definition polygonName (features : list Feature) (n : jsstring) : Prop :=
  exists f, f ∈ features /\ isPolygonType (geometry f) = true /\ namedAs f n.

(** The claim about a loader: once a dataset whose features all carry
    properties is loaded, the area names are the polygon names. *)
Definition areasArePolygons (load : option (list Feature) -> M unit) : Prop :=
  forall (features : list Feature) (w : World),
    Forall hasProperties features ->
    forall n, n ∈ name <$> areas (snd (load (Some features) w))
              <-> polygonName features n.

(** A dataset of one church and no area. *)
Definition oneChurch : list Feature :=
  [ {| geometry := Point (numZ (-69), numZ 12);
       properties :=
         Some {| NAME := None; pop := None; HH := None; meanPinc := None;
                 p_name := Some (js "Fortkerk");
                 p_area := Some (js "Punda");
                 p_photo := None; p_description := None |} |} ].

(** The dataset of the specification's scenario: two areas, and a church
    in one of them. *)
Definition square : list Position :=
  [ (numZ 0, numZ 0); (numZ 4, numZ 0); (numZ 4, numZ 2); (numZ 0, numZ 2);
    (numZ 0, numZ 0) ].

Definition areaFeature (n : jsstring) (people : Z) : Feature :=
  {| geometry := Polygon [square];
     properties :=
       Some {| NAME := Some n; pop := Some (numZ people); HH := None;
               meanPinc := None; p_name := None; p_area := None;
               p_photo := None; p_description := None |} |}.

Definition scenario : list Feature :=
  [ areaFeature (js "Willemstad") 150000;
    areaFeature (js "Bandabou") 8000 ] ++ oneChurch.

(** ** Vocabulary of the label position's statements *)






(** ** Vocabulary of the church overlay's statements *)

(** The map shows the marker [id], and it is a marker of [church]. *)
Definition shown (w : World) (id : positive) (church : ChurchFeature) : Prop :=
  exists m mk,
    mapInstanceRef w = Some m /\ id ∈ onMap m /\
    markers w !! id = Some mk /\ marker_church mk = church.

(** What holds of the church markers in every world the component can
    reach: a marker is stored under its own stamp, the tracked markers
    are stored, the church markers on the map are tracked, and every
    stamp in use is below the next one. *)
Record ChurchInv (w : World) : Prop := {
  inv_stored : forall id mk, markers w !! id = Some mk -> marker_id mk = id;
  inv_tracked : forall mk,
    mk ∈ churchMarkersRef w -> markers w !! marker_id mk = Some mk;
  inv_shown : forall id church,
    shown w id church -> id ∈ marker_id <$> churchMarkersRef w;
  inv_stamps : forall id,
    is_Some (markers w !! id) -> (id < lastId w)%positive
}.

(** The markers [addChurchMarker] makes for [cs], stamped from [start]. *)
Fixpoint freshMarkers (start : positive) (cs : list ChurchFeature) : list Marker :=
  match cs with
  | [] => []
  | c :: rest =>
      {| marker_id := start; marker_church := c |}
      :: freshMarkers (Pos.succ start) rest
  end.

(** The world after one [addChurchMarker], and after a [forEach] of them. *)
Definition addOne (c : ChurchFeature) (w : World) : World :=
  let id := lastId w in
  let marker := {| marker_id := id; marker_church := c |} in
  let w1 := set_lastId (Pos.succ id) w in
  let w2 := set_markers (<[id := marker]> (markers w1)) w1 in
  let w3 := set_mapInstanceRef (addLayer id <$> mapInstanceRef w2) w2 in
  set_churchMarkersRef (churchMarkersRef w3 ++ [marker]) w3.

Definition addAll (cs : list ChurchFeature) (w : World) : World :=
  foldl (fun w c => addOne c w) w cs.

(** The map after [removeLayer] on each of [ids]. *)
Definition removeAll (ids : list positive) (m : LMap) : LMap :=
  foldl (fun m id => removeLayer id m) m ids.

(** ** Vocabulary of the selection controller's statements *)

(** The [NAME] property of a layer's feature, as the restyling pass reads
    it. *)
Definition nameOf (l : PathLayer) : option jsstring :=
  properties (feature l) ≫= NAME.

(** The name under which the layer's area is listed and clicked. *)
Definition areaNameOf (l : PathLayer) : jsstring :=
  strOr (nameOf l) (js "Unknown").

Definition matches (areaName : jsstring) (l : PathLayer) : bool :=
  bool_decide (nameOf l = Some areaName).

(** A layer after the restyling pass has visited it. *)
Definition restyle (areaName : jsstring) (l : PathLayer) : PathLayer :=
  withOptions
    (mergeStyle (if matches areaName l then selectedPatch else defaultPatch)) l.

(** The map after the pass has handled the label of a visited layer. *)
Definition relabel (areaName : jsstring) (l : PathLayer) (m : LMap) : LMap :=
  match _label l with
  | Some label =>
      if matches areaName l then
        if hasLayer (label_id label) m then m else addLayer (label_id label) m
      else
        if hasLayer (label_id label) m then removeLayer (label_id label) m else m
  | None => m
  end.

(** The world after one visit that does not throw, and after a run of
    visits. *)
Definition restyleOne (areaName : jsstring) (lid : positive) (w : World) : World :=
  match paths w !! lid with
  | None => w
  | Some l =>
      set_mapInstanceRef (relabel areaName l <$> mapInstanceRef w)
        (set_paths (alter (restyle areaName) lid (paths w)) w)
  end.

Definition restyledAll (areaName : jsstring) (lids : list positive) (w : World)
  : World :=
  foldl (fun w lid => restyleOne areaName lid w) w lids.

(** Selected style: stroke weight 3, accent stroke, fill opacity 0.9. *)
Definition selectedStyle (l : PathLayer) : Prop :=
  weight (options l) = Some 3 /\
  color (options l) = Some (js "#1d4ed8") /\
  fillOpacity (options l) = Some (9 # 10).

(** Default style: stroke weight 1, white stroke, fill opacity 0.7. *)
Definition defaultStyle (l : PathLayer) : Prop :=
  weight (options l) = Some 1 /\
  color (options l) = Some (js "#ffffff") /\
  fillOpacity (options l) = Some (7 # 10).

Definition labelShown (w : World) (l : PathLayer) : Prop :=
  exists m label,
    mapInstanceRef w = Some m /\ _label l = Some label /\
    label_id label ∈ onMap m.

Definition labelHidden (w : World) (l : PathLayer) : Prop :=
  forall m label,
    mapInstanceRef w = Some m -> _label l = Some label ->
    label_id label ∉ onMap m.

Definition carriesSelected (w : World) (lid : positive) : Prop :=
  exists l, paths w !! lid = Some l /\ selectedStyle l /\ labelShown w l.

Definition carriesDefault (w : World) (lid : positive) : Prop :=
  exists l, paths w !! lid = Some l /\ defaultStyle l /\ labelHidden w l.

(** What rendering establishes for the layers of the group: each is a
    stored layer, no two of them share a label marker, and a feature with
    a non-empty [NAME] has its label. *)
Record Rendered (w : World) (lids : list positive) : Prop := {
  rendered_group : geoJsonLayerRef w = Some lids;
  rendered_stored : forall lid, lid ∈ lids -> is_Some (paths w !! lid);
  rendered_apart : forall lid1 lid2 l1 l2 label1 label2,
    lid1 ∈ lids -> lid2 ∈ lids ->
    paths w !! lid1 = Some l1 -> paths w !! lid2 = Some l2 ->
    _label l1 = Some label1 -> _label l2 = Some label2 ->
    label_id label1 = label_id label2 -> lid1 = lid2;
  rendered_labels : forall lid l c s,
    lid ∈ lids -> paths w !! lid = Some l ->
    nameOf l = Some (c :: s) -> is_Some (_label l)
}.

(** Two layers that differ at most in their path options. *)
Definition sameButStyle (l l' : PathLayer) : Prop :=
  feature l' = feature l /\ _label l' = _label l /\ _popup l' = _popup l.

(** Two maps that differ at most in the layers they show. *)
Definition sameButLayers (m m' : LMap) : Prop :=
  view m' = view m /\ openPopup m' = openPopup m.

(** What the restyling pass leaves alone. *)
Record StyleOnly (w w' : World) : Prop := {
  so_selectedArea : selectedArea w' = selectedArea w;
  so_group : geoJsonLayerRef w' = geoJsonLayerRef w;
  so_requests : requests w' = requests w;
  so_churches : churchMarkersRef w' = churchMarkersRef w;
  so_map : option_Forall2 sameButLayers (mapInstanceRef w) (mapInstanceRef w');
  so_paths : forall lid,
    option_Forall2 sameButStyle (paths w !! lid) (paths w' !! lid)
}.

(** Two layers that differ at most in their popup. *)
Definition sameButPopup (l l' : PathLayer) : Prop :=
  feature l' = feature l /\ _label l' = _label l /\ options l' = options l.

(** What the zoom-and-popup block of [selectArea] leaves alone. *)
Record PopupOnly (w w' : World) : Prop := {
  po_selectedArea : selectedArea w' = selectedArea w;
  po_group : geoJsonLayerRef w' = geoJsonLayerRef w;
  po_churches : churchMarkersRef w' = churchMarkersRef w;
  po_map : option_Forall2 (fun m m' => onMap m' = onMap m)
             (mapInstanceRef w) (mapInstanceRef w');
  po_paths : forall lid,
    option_Forall2 sameButPopup (paths w !! lid) (paths w' !! lid)
}.

Section SelectionVocabulary.
Context `{Platform}.

(** The block [if (layer && mapInstanceRef.current) { ... }] of
    [selectArea], entered in the world [w]. *)
Definition zoomAndPopup (layer : option positive) (w : World) : M unit :=
  match layer, mapInstanceRef w with
  | Some lid, Some _ =>
      match paths w !! lid with
      | Some l =>
          onMapInstance (setView (FitBounds (geometry (feature l)))) ;;;
          match properties (feature l) with
          | Some props =>
              popupContent <- createPopupContent props ;;
              bindPopup lid popupContent ;;;
              w' <- get ;;
              if bool_decide (lid ∈ default [] (geoJsonLayerRef w'))
              then onMapInstance (setOpenPopup (Some lid))
              else ret tt
          | None => ret tt
          end
      | None => ret tt
      end
  | _, _ => ret tt
  end.

(** The claim, at one world: with area A selected and B another area,
    [selectArea(B.name)] leaves B in Selected style with its label shown
    and A in default style with its label hidden. *)
Definition exclusiveClaim (w : World) : Prop :=
  forall lids lidA lidB lA lB layer w',
    geoJsonLayerRef w = Some lids -> lidA ∈ lids -> lidB ∈ lids ->
    paths w !! lidA = Some lA -> paths w !! lidB = Some lB ->
    areaNameOf lA <> areaNameOf lB ->
    carriesSelected w lidA ->
    selectArea (areaNameOf lB) layer w = (inr tt, w') ->
    carriesSelected w' lidB /\ carriesDefault w' lidA.

End SelectionVocabulary.

(** ** Worked worlds *)

(** The scenario's dataset loaded and the map mounted, on the stand-in
    platform with the network down. *)
Definition offline : Platform := Example.platform [].

Definition mounted : World :=
  snd (initMap (snd (@loadGeoJSON offline (Some scenario) initialWorld))).

(** The scenario rendered, and then with Willemstad selected from the
    list. *)
Definition rendered : World := snd (@renderEffect offline mounted).

Definition willemstadSelected : World :=
  snd (@selectArea offline (js "Willemstad") None rendered).

(** A dataset whose second polygon has properties but no [NAME]: it is
    listed and clicked as "Unknown". *)
Definition namelessFeature : Feature :=
  {| geometry := Polygon [square];
     properties :=
       Some {| NAME := None; pop := Some (numZ 12); HH := None;
               meanPinc := None; p_name := None; p_area := None;
               p_photo := None; p_description := None |} |}.

Definition withNameless : list Feature :=
  [areaFeature (js "Willemstad") 150000; namelessFeature].

Definition namelessRendered : World :=
  snd (@renderEffect offline
         (snd (initMap (snd (@loadGeoJSON offline (Some withNameless)
                               initialWorld))))).

Definition namelessWorld : World :=
  snd (@selectArea offline (js "Willemstad") None namelessRendered).

(** The world of someone typing "banda" over the scenario's areas. *)
Definition typingBanda : World :=
  set_searchTerm (js "banda")
    (set_areas [Example.area (js "Bandabou"); Example.area (js "Willemstad")]
       initialWorld).

(** ** Vocabulary of the list order *)

Section SortVocabulary.
Context `{Platform}.

(** [a] does not come after [b] in the order of [localeCompare]. *)
Definition nameLe (a b : AreaInfo) : Prop := byName a b <= 0.

(** Both lists of the panel are in the order of the names. *)
Definition listSorted (w : World) : Prop :=
  StronglySorted nameLe (areas w) /\ StronglySorted nameLe (filteredAreas w).

End SortVocabulary.

(** The church record made from a Point feature: its coordinates, and
    its four texts with their defaults. *)
Definition churchOf (f : Feature) (church : ChurchFeature) : Prop :=
  exists p xy,
    properties f = Some p /\ geometry f = Point xy /\
    church_coordinates church = xy /\
    church_name church = strOr (p_name p) (js "Unknown Church") /\
    church_area church = strOr (p_area p) (js "Unknown Area") /\
    church_photo church = default [] (p_photo p) /\
    church_description church = default [] (p_description p).

(** ** Vocabulary of the render effect's statements *)

(** The label markers of the layers [lids], for those that have one. *)
Definition labelIds (ps : gmap positive PathLayer) (lids : list positive)
  : list positive :=
  omap (fun lid => label_id <$> (ps !! lid ≫= _label)) lids.

(** A layer as [L.geoJSON] makes it for the feature [f] under the
    selection [selected]: styled by [style], without a popup, and with a
    label exactly when the feature has a non-empty [NAME]. *)
Definition freshLayer (selected : option jsstring) (f : Feature) (l : PathLayer)
  : Prop :=
  feature l = f /\ options l = style selected f /\ _popup l = None /\
  (is_Some (_label l) <-> exists c s, nameOf l = Some (c :: s)).

(** A first ring on which the label position cannot be computed: no ring
    at all, or a ring of a single vertex. *)
Definition degenerateRing (g : Geometry) : bool :=
  match g with
  | Polygon [] | Polygon ([_] :: _) => true
  | _ => false
  end.

(** The layer [lid] is stored and its feature's [NAME] is [areaName]. *)
Definition carriesName (ps : gmap positive PathLayer) (areaName : jsstring)
  (lid : positive) : bool :=
  match ps !! lid with
  | Some l => bool_decide (nameOf l = Some areaName)
  | None => false
  end.

(** ** Vocabulary of the requests *)

Section RequestVocabulary.
Context `{Platform}.

(** The runs of requests [fetchAreaInfo] can send for [areaName]: none;
    the primary search; the primary search and the summary; both
    searches; both searches and the summary. *)
Definition plannedRequests (areaName : jsstring) (issued : list jsstring) : Prop :=
  issued = [] \/
  exists e1,
    encodeURIComponent (VStr (areaName ++ spaceCuracao)) = inr e1 /\
    (issued = [searchUrl e1] \/
     (exists p, issued = [searchUrl e1; summaryUrl p]) \/
     exists e2,
       encodeURIComponent (VStr areaName) = inr e2 /\
       (issued = [searchUrl e1; searchUrl e2] \/
        exists p, issued = [searchUrl e1; searchUrl e2; summaryUrl p])).

End RequestVocabulary.

(** ** Vocabulary of the hover handlers' statements *)

(** The map [m'] is [m] with its view and popup as they were and the
    layers [shown] on it. *)
Definition showing (shown : gset positive) (m m' : LMap) : Prop :=
  view m' = view m /\ openPopup m' = openPopup m /\ onMap m' = shown.

(** What a hover handler leaves alone: the selection, the group, the
    request log, the church markers, the lists and every layer but
    [lid]. *)
Record HoverOnly (lid : positive) (w w' : World) : Prop := {
  ho_selectedArea : selectedArea w' = selectedArea w;
  ho_group : geoJsonLayerRef w' = geoJsonLayerRef w;
  ho_requests : requests w' = requests w;
  ho_churches : churchMarkersRef w' = churchMarkersRef w;
  ho_markers : markers w' = markers w;
  ho_lists : areas w' = areas w /\ filteredAreas w' = filteredAreas w;
  ho_others : forall other, other <> lid -> paths w' !! other = paths w !! other
}.

(** The label marker of a layer, as a set. *)
Definition labelOf (l : PathLayer) : gset positive :=
  match _label l with
  | Some label => {[label_id label]}
  | None => ∅
  end.

(** ** More worked worlds *)

(** The properties object of [areaFeature]. *)
Definition areaProperties (n : jsstring) (people : Z) : Properties :=
  {| NAME := Some n; pop := Some (numZ people); HH := None;
     meanPinc := None; p_name := None; p_area := None;
     p_photo := None; p_description := None |}.

(** A properties object that carries a [NAME] and nothing else. *)
Definition named (n : jsstring) : Properties :=
  {| NAME := Some n; pop := None; HH := None; meanPinc := None;
     p_name := None; p_area := None; p_photo := None; p_description := None |}.

(** The layers the render makes for the scenario: Willemstad under
    stamp 1 with label 2, Bandabou under stamp 3 with label 4. *)
Definition willemstadLayer : PathLayer :=
  {| feature := areaFeature (js "Willemstad") 150000;
     options := style None (areaFeature (js "Willemstad") 150000);
     _label := Some {| label_id := 2; label_center := (numZ 1, numZ 2);
                       label_text := js "Willemstad" |};
     _popup := None |}.

Definition bandabouLayer : PathLayer :=
  {| feature := areaFeature (js "Bandabou") 8000;
     options := style None (areaFeature (js "Bandabou") 8000);
     _label := Some {| label_id := 4; label_center := (numZ 1, numZ 2);
                       label_text := js "Bandabou" |};
     _popup := None |}.

(** The map as [initMap] makes it. *)
Definition emptyMap : LMap :=
  {| onMap := ∅; view := InitialView; openPopup := None |}.

(** A dataset with a polygon that has no properties object. *)
Definition bareFeature : Feature :=
  {| geometry := Polygon [square]; properties := None |}.

(** A polygon named "Pin" whose outer ring is a single vertex, in a
    dataset loaded on a mounted map. *)
Definition pinFeature : Feature :=
  {| geometry := Polygon [[(numZ 1, numZ 1)]];
     properties := Some (named (js "Pin")) |}.

Definition withPin : World :=
  snd (initMap (snd (@loadGeoJSON offline
                       (Some [areaFeature (js "Willemstad") 150000; pinFeature])
                       initialWorld))).

(** A polygon whose name is a lone high surrogate, rendered. *)
Definition loneSurrogate : jsstring := [55296%N].

Definition surrogateRendered : World :=
  snd (@renderEffect offline
         (snd (initMap (snd (@loadGeoJSON offline
                               (Some [areaFeature loneSurrogate 1])
                               initialWorld))))).

Definition surrogateLayer : PathLayer :=
  {| feature := areaFeature loneSurrogate 1;
     options := style None (areaFeature loneSurrogate 1);
     _label := Some {| label_id := 2; label_center := (numZ 1, numZ 2);
                       label_text := loneSurrogate |};
     _popup := None |}.

(** The encyclopedia answers "Soto" with a page whose extract has 301
    code units. *)
Definition longExtract : Platform :=
  Example.platform
    [(Example.primaryUrl (js "Soto"), Json (Example.searchBody [js "Soto"]));
     (Example.pageUrlOf (js "Soto"),
      Json (VObj [(js "extract", VStr (replicate 301 97%N))]))].

(** ** Vocabulary of the reachable worlds *)

(** What every world the component can reach satisfies: the church
    invariant; every stored layer has a stamp below the next one; a
    label has the stamp that follows its layer's, below the next one, and
    is no church marker; and the layers of the group are stored, with a
    label when the feature has a non-empty [NAME]. *)
Record Sound (w : World) : Prop := {
  sound_churches : ChurchInv w;
  sound_layers : forall lid l,
    paths w !! lid = Some l -> (lid < lastId w)%positive;
  sound_labels : forall lid l label,
    paths w !! lid = Some l -> _label l = Some label ->
    label_id label = Pos.succ lid /\ (label_id label < lastId w)%positive /\
    markers w !! label_id label = None;
  sound_group : forall lids lid,
    geoJsonLayerRef w = Some lids -> lid ∈ lids ->
    exists l, paths w !! lid = Some l /\
              forall c s, nameOf l = Some (c :: s) -> is_Some (_label l)
}.

(** Two layers with the same feature and the same label. *)
Definition sameButLook (l l' : PathLayer) : Prop :=
  feature l' = feature l /\ _label l' = _label l.

(** What a handler that makes no Leaflet object leaves alone: the
    markers, the stamps, the group, the feature and the label of every
    layer; and what it puts on the map is a label of a stored layer. *)
Record Keeps (w w' : World) : Prop := {
  k_markers : markers w' = markers w;
  k_tracked : churchMarkersRef w' = churchMarkersRef w;
  k_lastId : lastId w' = lastId w;
  k_group : geoJsonLayerRef w' = geoJsonLayerRef w;
  k_paths : forall lid,
    option_Forall2 sameButLook (paths w !! lid) (paths w' !! lid);
  k_map : forall m' id,
    mapInstanceRef w' = Some m' -> id ∈ onMap m' ->
    (exists m, mapInstanceRef w = Some m /\ id ∈ onMap m) \/
    (exists lid l label,
       paths w !! lid = Some l /\ _label l = Some label /\ label_id label = id)
}.

Section Reachable.
Context `{Platform}.

(** One effect or one event handler run from start to end, whatever its
    outcome. *)
Inductive handles : World -> World -> Prop :=
| h_load response w : handles w (snd (loadGeoJSON response w))
| h_load_basic response w : handles w (snd (loadGeoJSON_basic response w))
| h_init w : handles w (snd (initMap w))
| h_render w : handles w (snd (renderEffect w))
| h_type q w : handles w (set_searchTerm q w)
| h_search w : handles w (snd (searchEffect w))
| h_list area w : handles w (snd (areaListClick area w))
| h_click lid w : handles w (snd (zoomToFeature lid w))
| h_over lid w : handles w (snd (highlightFeature lid w))
| h_out selected lid w : handles w (snd (resetHighlight selected lid w))
| h_button areaName w : handles w (snd (window_showChurchesForArea areaName w))
| h_marker marker w : handles w (snd (churchMarkerClick marker w)).

(** The worlds reached from the initial one. *)
Definition reachable (w : World) : Prop := rtc handles initialWorld w.

End Reachable.

(** What [L.geoJSON] leaves alone while it makes layers, and what the
    layers it makes look like: new stamps only, a label's stamp right
    after its layer's. *)
Record Grown (w w' : World) : Prop := {
  g_markers : markers w' = markers w;
  g_tracked : churchMarkersRef w' = churchMarkersRef w;
  g_map : mapInstanceRef w' = mapInstanceRef w;
  g_group : geoJsonLayerRef w' = geoJsonLayerRef w;
  g_lastId : (lastId w <= lastId w')%positive;
  g_old : forall id, (id < lastId w)%positive -> paths w' !! id = paths w !! id;
  g_paths : forall id l,
    paths w' !! id = Some l ->
    paths w !! id = Some l \/
    ((lastId w <= id < lastId w')%positive /\
     forall label, _label l = Some label ->
       label_id label = Pos.succ id /\ (Pos.succ id < lastId w')%positive)
}.

(** A rendered dataset whose second polygon has no properties object. *)
Definition bareRendered : World :=
  snd (@renderEffect offline
         (snd (initMap (snd (@loadGeoJSON offline
                 (Some [areaFeature (js "Willemstad") 150000; bareFeature;
                        areaFeature (js "Bandabou") 8000])
                 initialWorld))))).

(** * Properties *)

(** ** Color Assigner *)

Section ColorProps.
Import Color.

Lemma hashLoop_fold (areaName : jsstring) (n i : nat) (hash : Z) :
  (i + n)%nat = length areaName ->
  hashLoop areaName n i hash
  = fold_left (fun acc code => Z.of_N code + (shl acc 5 - acc))
      (drop i areaName) hash.
Proof.
  revert i hash. induction n as [|n IH]; intros i hash Hlen; simpl.
  - rewrite drop_ge by lia. reflexivity.
  - unfold charCodeAt.
    destruct (areaName !! i) as [c|] eqn:Hc; simpl.
    + rewrite (drop_S _ _ _ Hc). simpl. rewrite IH by lia. reflexivity.
    + apply lookup_ge_None in Hc. lia.
Qed.

Lemma hashOf_fold (areaName : jsstring) :
  hashOf areaName
  = fold_left (fun acc code => Z.of_N code + (shl acc 5 - acc)) areaName 0.
Proof. unfold hashOf. rewrite hashLoop_fold by lia. reflexivity. Qed.


Lemma ToInt32_range (z : Z) : - 2 ^ 31 <= ToInt32 z < 2 ^ 31.
Proof.
  unfold ToInt32.
  pose proof (Z.mod_pos_bound (z + 2 ^ 31) (2 ^ 32) ltac:(lia)). lia.
Qed.

(** The shift is multiplication by 32 reduced to an int32. *)
Lemma shl_5 (z : Z) : shl z 5 = ToInt32 (z * 32).
Proof.
  unfold shl. change (5 mod 32) with 5. rewrite Z.shiftl_mul_pow2 by lia.
  unfold ToInt32 at 1 3. f_equal.
  replace (ToInt32 z * 2 ^ 5 + 2 ^ 31) with (ToInt32 z * 32 + 2 ^ 31) by lia.
  unfold ToInt32.
  rewrite <- (Zplus_mod_idemp_l (((z + 2 ^ 31) mod 2 ^ 32 - 2 ^ 31) * 32)).
  rewrite <- (Zplus_mod_idemp_l (z * 32)). f_equal. f_equal.
  rewrite <- Zmult_mod_idemp_l.
  rewrite <- (Zmult_mod_idemp_l z).
  f_equal. f_equal.
  rewrite Zminus_mod_idemp_l.
  replace (z + 2 ^ 31 - 2 ^ 31) with z by lia. reflexivity.
Qed.

(** The accumulator stays an integer that a double holds exactly for any
    name shorter than 2^21 code units. *)
Lemma hash_fold_bound (s : jsstring) (acc : Z) :
  Forall (fun c => (c < 65536)%N) s ->
  Z.abs (fold_left (fun acc code => Z.of_N code + (shl acc 5 - acc)) s acc)
  <= Z.abs acc + Z.of_nat (length s) * (2 ^ 31 + 65536).
Proof.
  intros Hs. revert acc. induction Hs as [|c s Hc Hs IH]; intros acc; simpl.
  - lia.
  - etransitivity; [apply IH|].
    pose proof (ToInt32_range (Z.shiftl (ToInt32 acc) (5 mod 32))) as Hr.
    fold (shl acc 5) in Hr. lia.
Qed.

Lemma hashOf_safe_integer (areaName : jsstring) :
  Forall (fun c => (c < 65536)%N) areaName ->
  (length areaName < 2 ^ 21)%nat ->
  Z.abs (hashOf areaName) < 2 ^ 53.
Proof.
  intros Hs Hlen. rewrite hashOf_fold.
  pose proof (hash_fold_bound areaName 0 Hs) as Hb.
  assert (Z.of_nat (length areaName) < 2 ^ 21).
  { apply Nat2Z.inj_lt in Hlen. rewrite Nat2Z.inj_pow in Hlen. exact Hlen. }
  nia.
Qed.


(** C5 (evaluation at the failing input): the two area names of the
    specification's own scenario are different and get the same colour. *)
Theorem getAreaColor_collision :
  js "Willemstad" <> js "Bandabou" /\
  getAreaColor (js "Willemstad") = Some (js "#00D2D3") /\
  getAreaColor (js "Bandabou") = Some (js "#00D2D3").
Proof. split; [discriminate|]. split; vm_compute; reflexivity. Qed.

(** Two palette slots hold the same colour, so even names with different
    indices can coincide. *)
Lemma colors_repeat : colors !! 12%nat = colors !! 19%nat.
Proof. reflexivity. Qed.

End ColorProps.

(** ** Area Info Fetcher *)

Section FetcherProps.
Context `{Platform}.

Lemma truthy_Falsy (v : value) : truthy v = false <-> Falsy v.
Proof.
  split.
  - destruct v as [| |[]|[q| | |]|s| |]; simpl; try discriminate.
    + intros _; constructor.
    + intros _; constructor.
    + intros _; constructor.
    + intros Hq. apply negb_false_iff, Qeq_bool_iff in Hq. by constructor.
    + intros _; constructor.
    + intros Hs. apply negb_false_iff, bool_decide_eq_true in Hs.
      subst. constructor.
  - intros [ | | |q Hq| | ]; simpl; try reflexivity.
    apply negb_false_iff, Qeq_bool_iff, Hq.
Qed.

Lemma or_else_Falsy (v d : value) : Falsy v -> or_else v d = d.
Proof. intros Hv. unfold or_else. apply truthy_Falsy in Hv. by rewrite Hv. Qed.

Lemma or_else_not_Falsy (v d : value) : ~ Falsy v -> or_else v d = v.
Proof.
  intros Hv. unfold or_else. destruct (truthy v) eqn:Ht; [reflexivity|].
  apply truthy_Falsy in Ht. contradiction.
Qed.

Lemma searchLength_hits (d : value) (hits : list value) :
  searchHits d hits ->
  searchLength d = inr (VNum (numZ (Z.of_nat (length hits)))).
Proof.
  intros (q & Hq & Hs). unfold searchLength. rewrite Hq, Hs. reflexivity.
Qed.

Lemma truthy_length (n : nat) :
  truthy (VNum (numZ (Z.of_nat n))) = negb (bool_decide (n = 0%nat)).
Proof. destruct n; reflexivity. Qed.

Lemma truthy_length_nil : truthy (VNum (numZ (Z.of_nat (length (@nil value))))) = false.
Proof. reflexivity. Qed.

Lemma truthy_length_cons (hit : value) (rest : list value) :
  truthy (VNum (numZ (Z.of_nat (length (hit :: rest))))) = true.
Proof. reflexivity. Qed.

Lemma firstTitleOf_hits (d hit : value) (rest : list value) :
  searchHits d (hit :: rest) ->
  firstTitleOf d = getProp hit (js "title").
Proof.
  intros (q & Hq & Hs). unfold firstTitleOf. rewrite Hq, Hs. reflexivity.
Qed.

(** What one search round trip does to the world. *)
Lemma search_run (query : jsstring) (w : World) :
  search query w =
  match encodeURIComponent (VStr query) with
  | inl e => (inl e, w)
  | inr enc =>
      let w' := set_requests (requests w ++ [searchUrl enc]) w in
      match net (requests w) (searchUrl enc) with
      | NetworkFailure => (inl NetworkError, w')
      | ParseFailure => (inl SyntaxError, w')
      | Json body => (inr body, w')
      end
  end.
Proof.
  unfold search, bind, lift, fetchJson.
  destruct (encodeURIComponent (VStr query)); reflexivity.
Qed.

Lemma set_requests_nil (w : World) : set_requests (requests w ++ []) w = w.
Proof. rewrite app_nil_r. by destruct w. Qed.

Lemma set_requests_twice (l1 l2 : list jsstring) (w : World) :
  set_requests (requests (set_requests (requests w ++ l1) w) ++ l2)
    (set_requests (requests w ++ l1) w)
  = set_requests (requests w ++ l1 ++ l2) w.
Proof. unfold set_requests. simpl. by rewrite <- app_assoc. Qed.

Lemma requests_set_requests (l : list jsstring) (w : World) :
  requests (set_requests l w) = l.
Proof. reflexivity. Qed.

Lemma set_requests_set (l l' : list jsstring) (w : World) :
  set_requests l (set_requests l' w) = set_requests l w.
Proof. reflexivity. Qed.

(** Bring two answers about the same term together. *)
Ltac same_term :=
  repeat match goal with
  | H1 : ?t = _, H2 : ?t = _ |- _ => rewrite H1 in H2
  end.

Ltac no_failure :=
  match goal with
  | Hf : failed _ |- _ => destruct Hf as [Hf|Hf]; same_term; discriminate
  end.

(** Every run of the [try] block, by the point it stops at. *)
Lemma fetchAreaInfo_try_run (areaName : jsstring) (w : World) :
  exists (r : exn + AreaInfoSummary) (issued : list jsstring),
    fetchAreaInfo_try areaName w = (r, set_requests (requests w ++ issued) w) /\
    (forall e1 e2 d1 d2,
        encodeURIComponent (VStr (areaName ++ spaceCuracao)) = inr e1 ->
        net (requests w) (searchUrl e1) = Json d1 ->
        searchHits d1 [] ->
        encodeURIComponent (VStr areaName) = inr e2 ->
        net (requests w ++ [searchUrl e1]) (searchUrl e2) = Json d2 ->
        searchHits d2 [] ->
        r = inr (noInformation areaName) /\
        issued = [searchUrl e1; searchUrl e2]) /\
    (forall i url,
        issued !! i = Some url ->
        failed (net (requests w ++ take i issued) url) ->
        (exists e, r = inl e) /\ S i = length issued).
Proof.
  unfold fetchAreaInfo_try, bind, lift, ret, fetchJson.
  rewrite search_run. cbv zeta.
  repeat case_match.
  all: try rewrite search_run in *; cbv zeta in *.
  all: repeat case_match.
  all: simplify_eq.
  all: rewrite ?set_requests_twice.
  all: rewrite ?requests_set_requests in *.
  all: rewrite <- ?app_assoc in *; cbn [app] in *.
  all: first
    [ eexists; exists []; split; [rewrite set_requests_nil; reflexivity|]
    | do 2 eexists; split; [reflexivity|] ].
  all: split.
  all: try (intros e1 e2 d1 d2 He1 Hn1 Hh1 He2 Hn2 Hh2;
           apply searchLength_hits in Hh1; apply searchLength_hits in Hh2;
           do 4 (same_term; simplify_eq); done).
  all: try (intros i url Hi Hf;
    destruct i as [|[|[|i]]]; simpl in Hi; simplify_eq;
    simpl in Hf; rewrite ?app_nil_r in Hf; try no_failure; eauto).
Qed.

(** The handler turns every exception of the [try] block into a record:
    [fetchAreaInfo] returns, and has only sent requests. *)
Lemma fetchAreaInfo_returns (areaName : jsstring) (w : World) :
  exists (r : AreaInfoSummary) (issued : list jsstring),
    fetchAreaInfo areaName w = (inr r, set_requests (requests w ++ issued) w).
Proof.
  destruct (fetchAreaInfo_try_run areaName w) as (r & issued & Hrun & _).
  unfold fetchAreaInfo, tryCatch. rewrite Hrun.
  destruct r as [e|r]; by eexists _, issued.
Qed.


(** Any exception inside the [try] block, a malformed body included,
    ends in the same default record. *)
Lemma fetchAreaInfo_catches (areaName : jsstring) (w w' : World) (e : exn) :
  fetchAreaInfo_try areaName w = (inl e, w') ->
  fetchAreaInfo areaName w = (inr (notAvailable areaName), w').
Proof. intros Hrun. unfold fetchAreaInfo, tryCatch. by rewrite Hrun. Qed.

Lemma fallsBack_or_else (v d : value) : fallsBack v d (or_else v d).
Proof. split; [apply or_else_Falsy|apply or_else_not_Falsy]. Qed.

Lemma summaryOf_body (areaName : jsstring) (summaryData : value) :
  summaryData <> VNull -> summaryData <> VUndefined ->
  summaryOf areaName summaryData =
  inr {| title := or_else (getOpt summaryData (js "title")) (VStr areaName);
         extract := or_else (getOpt summaryData (js "extract"))
                      (VStr (js "No description available."));
         thumbnail := or_else (getOpt (getOpt summaryData (js "thumbnail"))
                                 (js "source")) VNull;
         pageUrl := or_else
                      (getOpt (getOpt (getOpt summaryData (js "content_urls"))
                                 (js "desktop")) (js "page")) VNull |}.
Proof.
  intros Hnull Hundef. unfold summaryOf, getOpt.
  destruct summaryData; try contradiction; reflexivity.
Qed.

(** The run of the [try] block along the success path. *)
Lemma fetchAreaInfo_try_success (areaName : jsstring) (w : World)
  (issued : list jsstring) (summaryData : value) :
  successPath areaName w issued summaryData ->
  exists encoded,
    fetchAreaInfo_try areaName w =
    (summaryOf areaName summaryData,
     set_requests (requests w ++ issued ++ [summaryUrl encoded]) w).
Proof.
  intros (hit & rest & firstTitle & encoded & Hfound & Htitle & Henc & Hnet & _).
  exists encoded.
  unfold fetchAreaInfo_try, bind, lift, ret.
  destruct Hfound as [(u1 & (e1 & d1 & He1 & -> & Hn1 & Hh1) & ->)
                     |(u1 & u2 & (e1 & d1 & He1 & -> & Hn1 & Hh1)
                               & (e2 & d2 & He2 & -> & Hn2 & Hh2) & ->)].
  - rewrite search_run, He1, Hn1. cbv beta iota zeta.
    rewrite (searchLength_hits _ _ Hh1), truthy_length_cons.
    cbv beta iota zeta delta [negb].
    rewrite (searchLength_hits _ _ Hh1), truthy_length_cons.
    cbv beta iota zeta delta [negb].
    rewrite (firstTitleOf_hits _ _ _ Hh1), Htitle, Henc.
    unfold fetchJson.
    rewrite ?requests_set_requests, ?set_requests_set, <- ?app_assoc.
    rewrite Hnet. reflexivity.
  - rewrite search_run, He1, Hn1. cbv beta iota zeta.
    rewrite (searchLength_hits _ _ Hh1), truthy_length_nil.
    cbv beta iota zeta delta [negb].
    rewrite search_run, He2, requests_set_requests, Hn2.
    cbv beta iota zeta.
    rewrite (searchLength_hits _ _ Hh2), truthy_length_cons.
    cbv beta iota zeta delta [negb].
    rewrite (firstTitleOf_hits _ _ _ Hh2), Htitle, Henc.
    unfold fetchJson.
    rewrite ?requests_set_requests, ?set_requests_set, <- ?app_assoc.
    cbn [app]. rewrite Hnet. reflexivity.
Qed.

(** C3 (amended): on the success path the result is built from the
    summary body with [||]: each field falls back to its default when the
    body's value is falsy, that is absent, [null], [false], zero, [NaN]
    or the empty string, and is the body's value otherwise.  The defaults
    are the area name for the title, "No description available." for the
    extract and [null] for the thumbnail and the page URL. *)
Theorem fetchAreaInfo_success_falsy_fallback (areaName : jsstring) (w : World)
  (issued : list jsstring) (summaryData : value) :
  successPath areaName w issued summaryData ->
  exists r : AreaInfoSummary,
    fst (fetchAreaInfo areaName w) = inr r /\
    fallsBack (getOpt summaryData (js "title")) (VStr areaName) (title r) /\
    fallsBack (getOpt summaryData (js "extract"))
      (VStr (js "No description available.")) (extract r) /\
    fallsBack (getOpt (getOpt summaryData (js "thumbnail")) (js "source"))
      VNull (thumbnail r) /\
    fallsBack (getOpt (getOpt (getOpt summaryData (js "content_urls"))
                         (js "desktop")) (js "page"))
      VNull (pageUrl r).
Proof.
  intros Hpath.
  destruct (fetchAreaInfo_try_success _ _ _ _ Hpath) as (encoded & Hrun).
  destruct Hpath as (_ & _ & _ & _ & _ & _ & _ & _ & Hnull & Hundef).
  unfold fetchAreaInfo, tryCatch. rewrite Hrun.
  rewrite (summaryOf_body _ _ Hnull Hundef). eexists. split; [reflexivity|].
  simpl. repeat split; apply fallsBack_or_else.
Qed.

End FetcherProps.

(** Worked runs of the fetcher on the stand-in platform. *)

Example fetchAreaInfo_nothing_found :
  @fetchAreaInfo Example.nothingFound (js "Soto") initialWorld
  = (inr (noInformation (js "Soto")),
     set_requests [Example.primaryUrl (js "Soto");
                   Example.fallbackUrl (js "Soto")] initialWorld).
Proof. vm_compute. reflexivity. Qed.

Example fetchAreaInfo_network_down :
  @fetchAreaInfo (Example.platform []) (js "Soto") initialWorld
  = (inr (notAvailable (js "Soto")),
     set_requests [Example.primaryUrl (js "Soto")] initialWorld).
Proof. vm_compute. reflexivity. Qed.

Example fetchAreaInfo_lone_surrogate :
  @fetchAreaInfo Example.nothingFound [55296%N] initialWorld
  = (inr (notAvailable [55296%N]), initialWorld).
Proof. vm_compute. reflexivity. Qed.

Lemma emptyFields_successPath :
  @successPath Example.emptyFields (js "Soto") initialWorld
    [Example.primaryUrl (js "Soto")] Example.emptySummary.
Proof.
  exists (VObj [(js "title", VStr (js "Soto"))]), [], (VStr (js "Soto")),
    (concat (List.map Example.encodeUnit (js "Soto"))).
  split.
  { left. exists (Example.primaryUrl (js "Soto")). split; [|reflexivity].
    exists (concat (List.map Example.encodeUnit (js "Soto" ++ spaceCuracao))),
      (Example.searchBody [js "Soto"]).
    split; [vm_compute; reflexivity|]. split; [reflexivity|].
    split; [vm_compute; reflexivity|].
    eexists. split; vm_compute; reflexivity. }
  split; [vm_compute; reflexivity|]. split; [vm_compute; reflexivity|].
  split; [vm_compute; reflexivity|]. split; discriminate.
Qed.

(** C3 (counterexample): the summary body has an empty title and an empty
    extract; the claim's [??] would keep both empty strings, the code
    returns the area name and "No description available.". *)
Lemma fetchAreaInfo_nullish_counterexample :
  ~ @nullishClaim Example.emptyFields (js "Soto") initialWorld.
Proof.
  intros Hclaim.
  specialize (Hclaim _ _ emptyFields_successPath).
  vm_compute in Hclaim. discriminate.
Qed.

(** C3 (witness): the amended statement applied to that same run. *)
Lemma fetchAreaInfo_success_witness :
  exists r : AreaInfoSummary,
    fst (@fetchAreaInfo Example.emptyFields (js "Soto") initialWorld) = inr r /\
    fallsBack (getOpt Example.emptySummary (js "title"))
      (VStr (js "Soto")) (title r) /\
    fallsBack (getOpt Example.emptySummary (js "extract"))
      (VStr (js "No description available.")) (extract r) /\
    fallsBack (getOpt (getOpt Example.emptySummary (js "thumbnail")) (js "source"))
      VNull (thumbnail r) /\
    fallsBack (getOpt (getOpt (getOpt Example.emptySummary (js "content_urls"))
                         (js "desktop")) (js "page"))
      VNull (pageUrl r).
Proof.
  apply (@fetchAreaInfo_success_falsy_fallback Example.emptyFields
           (js "Soto") initialWorld [Example.primaryUrl (js "Soto")]
           Example.emptySummary).
  exact emptyFields_successPath.
Defined.

(** ** Search Filter *)

Lemma trimStart_blank (s : jsstring) : trimStart s = [] <-> blank s.
Proof.
  unfold blank. induction s as [|c s IH]; simpl.
  - split; [constructor|reflexivity].
  - destruct (isWhiteSpace c) eqn:Hc.
    + rewrite IH. split; [by constructor|]. by inversion 1.
    + split; [discriminate|]. inversion 1. congruence.
Qed.

Lemma trimStart_head (s : jsstring) :
  blank (trimStart s) -> trimStart s = [].
Proof.
  induction s as [|c s IH]; simpl; [reflexivity|].
  destruct (isWhiteSpace c) eqn:Hc; [exact IH|].
  inversion 1. congruence.
Qed.

Lemma trim_blank (s : jsstring) : trim s = [] <-> blank s.
Proof.
  unfold trim, trimEnd. split.
  - intros Ht. apply (f_equal (@rev N)) in Ht. rewrite rev_involutive in Ht.
    simpl in Ht. apply trimStart_blank in Ht.
    apply Forall_rev in Ht. rewrite rev_involutive in Ht.
    apply trimStart_head in Ht. by apply trimStart_blank.
  - intros Hb. apply trimStart_blank in Hb. rewrite Hb. reflexivity.
Qed.

Lemma startsWith_prefix (s p : jsstring) :
  startsWith s p = true <-> p `prefix_of` s.
Proof.
  revert s. induction p as [|a p IH]; intros s.
  - split; [intros _; apply prefix_nil|by destruct s].
  - destruct s as [|b s]; simpl.
    + split; [discriminate|]. intros Hp. by apply prefix_nil_not in Hp.
    + rewrite andb_true_iff, N.eqb_eq, IH. split.
      * intros [-> Hp]. by apply prefix_cons.
      * intros Hp. split; [by apply prefix_cons_inv_1 in Hp|].
        by apply prefix_cons_inv_2 in Hp.
Qed.

Lemma includes_unfold (s p : jsstring) :
  includes s p
  = startsWith s p || match s with [] => false | _ :: s' => includes s' p end.
Proof. by destruct s. Qed.

Lemma includes_infix (s p : jsstring) :
  includes s p = true <-> exists pre post, s = pre ++ p ++ post.
Proof.
  induction s as [|c s IH]; rewrite includes_unfold.
  - rewrite orb_false_r, startsWith_prefix. split.
    + intros [k Hk]. by exists [], k.
    + intros (pre & post & Hs). destruct pre; [by exists post|discriminate].
  - rewrite orb_true_iff, startsWith_prefix, IH. split.
    + intros [[k Hk]|(pre & post & Hs)].
      * by exists [], k.
      * exists (c :: pre), post. by rewrite Hs.
    + intros (pre & post & Hs). destruct pre as [|c' pre].
      * left. by exists post.
      * right. exists pre, post. by simplify_eq/=.
Qed.

Section SearchProps.
Context `{Platform}.

#[local] Instance containsCI_dec (name q : jsstring) : Decision (containsCI name q).
Proof.
  refine (cast_if (decide (includes (toLowerCase name) (toLowerCase q) = true)));
    unfold containsCI; by rewrite <- includes_infix.
Defined.

Lemma filter_includes (q : jsstring) (l : list AreaInfo) :
  List.filter (fun area => includes (toLowerCase (name area)) (toLowerCase q)) l
  = filter (fun a => containsCI (name a) q) l.
Proof.
  induction l as [|a l IH]; simpl; [reflexivity|].
  rewrite filter_cons.
  destruct (includes (toLowerCase (name a)) (toLowerCase q)) eqn:Hi.
  - rewrite decide_True by (by apply includes_infix). by rewrite IH.
  - rewrite decide_False; [exact IH|].
    unfold containsCI. rewrite <- includes_infix. congruence.
Qed.

Lemma searchEffect_run (w : World) :
  searchEffect w =
  (inr tt,
   set_filteredAreas
     (if bool_decide (trim (searchTerm w) = []) then areas w
      else List.filter (fun area =>
             includes (toLowerCase (name area)) (toLowerCase (searchTerm w)))
             (areas w)) w).
Proof.
  unfold searchEffect, bind, get, modify.
  destruct (bool_decide (trim (searchTerm w) = [])); reflexivity.
Qed.

Lemma filterFor_blank (q : jsstring) (l : list AreaInfo) :
  blank q -> filterFor q l = l.
Proof.
  intros Hb. unfold filterFor. rewrite searchEffect_run. simpl.
  rewrite bool_decide_eq_true_2; [reflexivity|by apply trim_blank].
Qed.

Lemma filterFor_query (q : jsstring) (l : list AreaInfo) :
  ~ blank q -> filterFor q l = filter (fun a => containsCI (name a) q) l.
Proof.
  intros Hb. unfold filterFor. rewrite searchEffect_run. simpl.
  rewrite bool_decide_eq_false_2; [apply filter_includes|].
  by rewrite trim_blank.
Qed.

Lemma filterFor_sublist (q : jsstring) (l : list AreaInfo) :
  filterFor q l `sublist_of` l.
Proof.
  destruct (decide (blank q)) as [Hb|Hb].
  - by rewrite filterFor_blank.
  - rewrite filterFor_query by done. apply sublist_filter.
Qed.

Lemma blank_prefix (q r : jsstring) : blank (q ++ r) -> blank q.
Proof. unfold blank. rewrite Forall_app. tauto. Qed.

(** C6 (amended): the search effect never throws and changes only the
    filtered list.  For an empty or white-space-only query the filtered
    list is the area list itself, unchanged; for any other query it is
    the area list filtered, in its order, by "the lower-cased name
    contains the lower-cased query".  And whenever the lower-cased form of
    a prefix of the query is a prefix of the lower-cased query, every
    entry shown for the query is shown for that prefix, in the same
    relative order. *)
Theorem searchEffect_filter (w : World) :
  fst (searchEffect w) = inr tt /\
  snd (searchEffect w)
    = set_filteredAreas (filteredAreas (snd (searchEffect w))) w /\
  (blank (searchTerm w) ->
     filteredAreas (snd (searchEffect w)) = areas w) /\
  (~ blank (searchTerm w) ->
     filteredAreas (snd (searchEffect w))
     = filter (fun a => containsCI (name a) (searchTerm w)) (areas w)) /\
  (forall q r : jsstring,
     searchTerm w = q ++ r ->
     toLowerCase q `prefix_of` toLowerCase (q ++ r) ->
     filteredAreas (snd (searchEffect w))
       `sublist_of` filterFor q (areas w) /\
     forall a, a ∈ filteredAreas (snd (searchEffect w)) ->
               a ∈ filterFor q (areas w)).
Proof.
  rewrite searchEffect_run. simpl.
  split; [reflexivity|]. split; [reflexivity|].
  assert (Hblank : blank (searchTerm w) ->
    (if bool_decide (trim (searchTerm w) = []) then areas w
     else List.filter (fun area =>
            includes (toLowerCase (name area)) (toLowerCase (searchTerm w)))
            (areas w)) = areas w).
  { intros Hb. rewrite bool_decide_eq_true_2; [reflexivity|by apply trim_blank]. }
  assert (Hquery : ~ blank (searchTerm w) ->
    (if bool_decide (trim (searchTerm w) = []) then areas w
     else List.filter (fun area =>
            includes (toLowerCase (name area)) (toLowerCase (searchTerm w)))
            (areas w))
    = filter (fun a => containsCI (name a) (searchTerm w)) (areas w)).
  { intros Hb. rewrite bool_decide_eq_false_2; [apply filter_includes|].
    by rewrite trim_blank. }
  split; [exact Hblank|]. split; [exact Hquery|].
  intros q r Hq Hpre.
  assert (Hsub :
    (if bool_decide (trim (searchTerm w) = []) then areas w
     else List.filter (fun area =>
            includes (toLowerCase (name area)) (toLowerCase (searchTerm w)))
            (areas w)) `sublist_of` filterFor q (areas w)).
  { destruct (decide (blank q)) as [Hbq|Hbq].
    - rewrite (filterFor_blank _ _ Hbq).
      destruct (decide (blank (searchTerm w))) as [Hb|Hb].
      + by rewrite Hblank.
      + rewrite Hquery by done. apply sublist_filter.
    - assert (Hb : ~ blank (searchTerm w)).
      { rewrite Hq. intros Hb. by apply blank_prefix in Hb. }
      rewrite Hquery, filterFor_query by done.
      rewrite Hq. clear Hblank Hquery Hb Hq.
      induction (areas w) as [|a l IH]; [done|].
      rewrite !filter_cons.
      destruct (decide (containsCI (name a) (q ++ r))) as [Hc|Hc].
      + rewrite decide_True; [by apply sublist_skip|].
        destruct Hc as (pre & post & Hc). destruct Hpre as [k Hk].
        exists pre, (k ++ post). rewrite Hc, Hk. by rewrite <- !app_assoc.
      + destruct (decide (containsCI (name a) q)); [by apply sublist_cons|done].
  }
  split; [exact Hsub|].
  intros a Ha. eapply elem_of_sublist; [exact Ha|exact Hsub].
Qed.

End SearchProps.

(** C6 (counterexample): with ECMAScript's lower-casing the area named
    ΑΣΑ is shown for the query ΑΣΑ and not for its prefix ΑΣ: the sigma
    that ends the shorter query takes its final form, which the
    lower-cased name ασα does not contain. *)
Lemma searchEffect_final_sigma_counterexample :
  ~ @monotonicClaim Example.greek.
Proof.
  intros Hclaim.
  specialize (Hclaim [Example.area Example.ASA] Example.AS [913%N]
                (Example.area Example.ASA)).
  vm_compute in Hclaim.
  assert (Hin : Example.area Example.ASA ∈ [Example.area Example.ASA])
    by apply list_elem_of_here.
  apply Hclaim in Hin. by apply not_elem_of_nil in Hin.
Qed.

(** C6 (witness): what "banda" shows is shown for its prefix "ban". *)
Lemma searchEffect_filter_witness :
  filteredAreas (snd (@searchEffect (Example.platform []) typingBanda))
    `sublist_of` @filterFor (Example.platform []) (js "ban") (areas typingBanda).
Proof.
  refine (proj1 (proj2 (proj2 (proj2 (proj2
            (@searchEffect_filter (Example.platform []) typingBanda))))
            (js "ban") (js "da") _ _)).
  - reflexivity.
  - exists (js "da"). reflexivity.
Defined.

Example searchEffect_banda :
  name <$> filteredAreas (snd (@searchEffect (Example.platform []) typingBanda))
  = [js "Bandabou"].
Proof. vm_compute. reflexivity. Qed.

(** ** Geo Data Loader *)

Lemma elem_of_List_filter {A} (f : A -> bool) (x : A) (l : list A) :
  x ∈ List.filter f l <-> x ∈ l /\ f x = true.
Proof. rewrite !list_elem_of_In. apply filter_In. Qed.

Lemma insertBy_Permutation {A} (cmp : A -> A -> Z) (x : A) (l : list A) :
  insertBy cmp x l ≡ₚ x :: l.
Proof.
  induction l as [|y l IH]; simpl; [done|].
  destruct (cmp x y <=? 0); [done|].
  rewrite IH. apply Permutation_swap.
Qed.

Lemma sortBy_Permutation {A} (cmp : A -> A -> Z) (l : list A) :
  sortBy cmp l ≡ₚ l.
Proof.
  induction l as [|x l IH]; simpl; [done|].
  unfold sortBy in *. simpl. rewrite insertBy_Permutation. by rewrite IH.
Qed.

Lemma mapE_inr {A B} (f : A -> exn + B) (l : list A) :
  Forall (fun x => exists y, f x = inr y) l ->
  exists ys, mapE f l = inr ys /\ Forall2 (fun x y => f x = inr y) l ys.
Proof.
  induction 1 as [|x l [y Hy] _ (ys & Hys & Hall)]; simpl.
  - exists []. by split.
  - exists (y :: ys). rewrite Hy, Hys. split; [done|]. by constructor.
Qed.

Lemma toAreaInfo_namedAs (f : Feature) (a : AreaInfo) :
  toAreaInfo f = inr a -> namedAs f (name a).
Proof.
  unfold toAreaInfo, namedAs. destruct (properties f) as [p|]; [|discriminate].
  intros [= <-]. by exists p.
Qed.

Lemma namedAs_toAreaInfo (f : Feature) (n : jsstring) :
  namedAs f n -> exists a, toAreaInfo f = inr a /\ name a = n.
Proof.
  intros (p & Hp & ->). unfold toAreaInfo. rewrite Hp. by eexists.
Qed.

Lemma toAreaInfo_total (f : Feature) :
  hasProperties f -> exists a, toAreaInfo f = inr a.
Proof. intros [p Hp]. unfold toAreaInfo. rewrite Hp. by eexists. Qed.

Lemma toChurchFeature_total (f : Feature) :
  hasProperties f -> isPointType (geometry f) = true ->
  exists c, toChurchFeature f = inr c.
Proof.
  intros [p Hp] Hg. unfold toChurchFeature. rewrite Hp.
  destruct (geometry f); try discriminate. by eexists.
Qed.

(** The names an area list built from [fs] holds. *)
Lemma names_of_areas (fs : list Feature) (ys : list AreaInfo) (n : jsstring) :
  Forall2 (fun f a => toAreaInfo f = inr a) fs ys ->
  n ∈ name <$> ys <-> exists f, f ∈ fs /\ namedAs f n.
Proof.
  intros Hall. rewrite list_elem_of_fmap. split.
  - intros (a & -> & Ha).
    destruct (proj1 (list_elem_of_lookup _ _) Ha) as [i Hi].
    destruct (Forall2_lookup_r _ _ _ _ _ Hall Hi) as (f & Hf & Hfa).
    exists f. split; [by eapply list_elem_of_lookup_2|].
    by apply toAreaInfo_namedAs.
  - intros (f & Hf & Hn).
    destruct (proj1 (list_elem_of_lookup _ _) Hf) as [i Hi].
    destruct (Forall2_lookup_l _ _ _ _ _ Hall Hi) as (a & Ha & Hfa).
    destruct (namedAs_toAreaInfo _ _ Hn) as (a' & Ha' & Hname).
    exists a. split; [congruence|]. by eapply list_elem_of_lookup_2.
Qed.

Section LoaderProps.
Context `{Platform}.

Lemma loadGeoJSON_run (features : list Feature) (w : World) :
  Forall hasProperties features ->
  exists areaList churchList,
    Forall2 (fun f a => toAreaInfo f = inr a)
      (List.filter (fun f => isPolygonType (geometry f)) features) areaList /\
    loadGeoJSON (Some features) w =
    (inr tt,
     set_churchesData churchList
       (set_filteredAreas (sortBy byName areaList)
          (set_areas (sortBy byName areaList)
             (set_curacaoGeoJSON (Some features) w)))).
Proof.
  intros Hall.
  destruct (mapE_inr toAreaInfo
              (List.filter (fun f => isPolygonType (geometry f)) features))
    as (areaList & Hareas & Hall2).
  { apply Forall_forall. intros f Hf. apply elem_of_List_filter in Hf as [Hf _].
    apply toAreaInfo_total. rewrite Forall_forall in Hall. by apply Hall. }
  destruct (mapE_inr toChurchFeature
              (List.filter (fun f => isPointType (geometry f)) features))
    as (churchList & Hchurches & _).
  { apply Forall_forall. intros f Hf. apply elem_of_List_filter in Hf as [Hf Hg].
    apply toChurchFeature_total; [|done].
    rewrite Forall_forall in Hall. by apply Hall. }
  exists areaList, churchList. split; [exact Hall2|].
  unfold loadGeoJSON, tryCatch, bind, modify, lift.
  simpl. rewrite Hareas, Hchurches. reflexivity.
Qed.

Lemma loadGeoJSON_basic_run (features : list Feature) (w : World) :
  Forall hasProperties features ->
  exists areaList,
    Forall2 (fun f a => toAreaInfo f = inr a) features areaList /\
    loadGeoJSON_basic (Some features) w =
    (inr tt,
     set_filteredAreas (sortBy byName areaList)
       (set_areas (sortBy byName areaList)
          (set_curacaoGeoJSON (Some features) w))).
Proof.
  intros Hall.
  destruct (mapE_inr toAreaInfo features) as (areaList & Hareas & Hall2).
  { eapply Forall_impl; [exact Hall|]. apply toAreaInfo_total. }
  exists areaList. split; [exact Hall2|].
  unfold loadGeoJSON_basic, tryCatch, bind, modify, lift.
  simpl. rewrite Hareas. reflexivity.
Qed.

(** C9 (amended): when every feature of the dataset carries a properties
    object, the full variant's loader ends with an area list that is a
    rearrangement of one record per Polygon or MultiPolygon feature, so
    its names are exactly the polygon features' names (no record comes
    from a Point and no polygon is left out), and the filtered list is
    that same list.  The basic variant's loader makes one record per
    feature of any geometry, so its names are the names of all features;
    they are the polygon names when the dataset holds polygons only. *)
Theorem loadGeoJSON_area_names (features : list Feature) (w : World) :
  Forall hasProperties features ->
  (exists areaList,
     Forall2 (fun f a => toAreaInfo f = inr a)
       (List.filter (fun f => isPolygonType (geometry f)) features) areaList /\
     areas (snd (loadGeoJSON (Some features) w)) ≡ₚ areaList) /\
  (forall n, n ∈ name <$> areas (snd (loadGeoJSON (Some features) w))
             <-> polygonName features n) /\
  filteredAreas (snd (loadGeoJSON (Some features) w))
    = areas (snd (loadGeoJSON (Some features) w)) /\
  (forall n, n ∈ name <$> areas (snd (loadGeoJSON_basic (Some features) w))
             <-> exists f, f ∈ features /\ namedAs f n) /\
  (Forall (fun f => isPolygonType (geometry f) = true) features ->
   forall n, n ∈ name <$> areas (snd (loadGeoJSON_basic (Some features) w))
             <-> polygonName features n).
Proof.
  intros Hall.
  destruct (loadGeoJSON_run features w Hall) as (areaList & churchList & Hall2 & Hrun).
  destruct (loadGeoJSON_basic_run features w Hall) as (areaListB & HallB & HrunB).
  rewrite Hrun, HrunB. simpl.
  assert (Hbasic : forall n, n ∈ name <$> sortBy byName areaListB
                             <-> exists f, f ∈ features /\ namedAs f n).
  { intros n. rewrite sortBy_Permutation. by apply names_of_areas. }
  split; [|split; [|split; [reflexivity|split; [exact Hbasic|]]]].
  - exists areaList. split; [exact Hall2|apply sortBy_Permutation].
  - intros n. rewrite sortBy_Permutation.
    rewrite (names_of_areas _ _ n Hall2). unfold polygonName.
    split.
    + intros (f & Hf & Hn). apply elem_of_List_filter in Hf as [Hf Hg].
      by exists f.
    + intros (f & Hf & Hg & Hn). exists f. split; [|done].
      by apply elem_of_List_filter.
  - intros Hpoly n. rewrite Hbasic. unfold polygonName. split.
    + intros (f & Hf & Hn). exists f. split; [done|]. split; [|done].
      rewrite Forall_forall in Hpoly. by apply Hpoly.
    + intros (f & Hf & _ & Hn). by exists f.
Qed.

End LoaderProps.

Lemma oneChurch_hasProperties : Forall hasProperties oneChurch.
Proof. repeat constructor. by eexists. Qed.

Lemma scenario_hasProperties : Forall hasProperties scenario.
Proof. repeat constructor; by eexists. Qed.

(** C9 (counterexample): the basic variant, given a dataset of one Point
    feature, lists an area named "Unknown" although the dataset has no
    polygon at all. *)
Lemma loadGeoJSON_basic_point_counterexample :
  ~ areasArePolygons (@loadGeoJSON_basic (Example.platform [])).
Proof.
  intros Hclaim.
  destruct (Hclaim oneChurch initialWorld oneChurch_hasProperties (js "Unknown"))
    as [Hnames _].
  destruct Hnames as (f & Hf & Hg & _).
  { vm_compute. left. }
  apply list_elem_of_singleton in Hf. subst f. discriminate.
Qed.

(** C9 (witness): the scenario's dataset, two areas and a church. *)
Lemma loadGeoJSON_area_names_witness :
  (exists areaList,
     Forall2 (fun f a => toAreaInfo f = inr a)
       (List.filter (fun f => isPolygonType (geometry f)) scenario) areaList /\
     areas (snd (@loadGeoJSON (Example.platform []) (Some scenario) initialWorld))
       ≡ₚ areaList) /\
  (forall n,
     n ∈ name <$> areas (snd (@loadGeoJSON (Example.platform [])
                                (Some scenario) initialWorld))
     <-> polygonName scenario n) /\
  filteredAreas (snd (@loadGeoJSON (Example.platform []) (Some scenario) initialWorld))
    = areas (snd (@loadGeoJSON (Example.platform []) (Some scenario) initialWorld)) /\
  (forall n,
     n ∈ name <$> areas (snd (@loadGeoJSON_basic (Example.platform [])
                                (Some scenario) initialWorld))
     <-> exists f, f ∈ scenario /\ namedAs f n) /\
  (Forall (fun f => isPolygonType (geometry f) = true) scenario ->
   forall n,
     n ∈ name <$> areas (snd (@loadGeoJSON_basic (Example.platform [])
                                (Some scenario) initialWorld))
     <-> polygonName scenario n).
Proof.
  apply (@loadGeoJSON_area_names (Example.platform []) scenario initialWorld).
  repeat constructor; by eexists.
Defined.

(** The scenario's load: the two areas in alphabetical order, shown
    unfiltered, and the church kept apart. *)
Example loadGeoJSON_scenario :
  let w := snd (@loadGeoJSON (Example.platform []) (Some scenario) initialWorld) in
  name <$> areas w = [js "Bandabou"; js "Willemstad"] /\
  filteredAreas w = areas w /\
  church_name <$> churchesData w = [js "Fortkerk"].
Proof. vm_compute. done. Qed.

(** ** Label position *)








Section LabelProps.
Context `{Platform}.


End LabelProps.



Example labelCenter_square : labelCenter square = (numZ 1, numZ 2).
Proof. vm_compute. reflexivity. Qed.

Example labelCenter_single_vertex :
  labelCenter [(numZ 3, numZ 4)] = (NaN, NaN).
Proof. vm_compute. reflexivity. Qed.

(** ** Point-of-Interest Overlay *)

Lemma onMap_removeAll (ids : list positive) (m : LMap) :
  onMap (removeAll ids m) = onMap m ∖ list_to_set ids.
Proof.
  revert m. induction ids as [|id ids IH]; intros m; simpl.
  - set_solver.
  - unfold removeAll in *. simpl. rewrite IH. simpl. set_solver.
Qed.

Lemma view_removeAll (ids : list positive) (m : LMap) :
  view (removeAll ids m) = view m.
Proof.
  revert m. induction ids as [|id ids IH]; intros m; [done|].
  unfold removeAll in *. simpl. by rewrite IH.
Qed.

Lemma freshMarkers_church (start : positive) (cs : list ChurchFeature) :
  marker_church <$> freshMarkers start cs = cs.
Proof.
  revert start. induction cs as [|c cs IH]; intros start; simpl; [done|].
  by rewrite IH.
Qed.

Lemma freshMarkers_ge (start : positive) (cs : list ChurchFeature) (mk : Marker) :
  mk ∈ freshMarkers start cs -> (start <= marker_id mk)%positive.
Proof.
  revert start. induction cs as [|c cs IH]; intros start; simpl.
  - by intros ?%not_elem_of_nil.
  - intros [->|Hin]%elem_of_cons; simpl; [lia|].
    apply IH in Hin. lia.
Qed.

Lemma freshMarkers_NoDup (start : positive) (cs : list ChurchFeature) :
  NoDup (marker_id <$> freshMarkers start cs).
Proof.
  revert start. induction cs as [|c cs IH]; intros start; simpl.
  - constructor.
  - constructor; [|apply IH].
    intros (mk & Hid & Hin)%list_elem_of_fmap.
    apply freshMarkers_ge in Hin. simpl in Hid. lia.
Qed.

Lemma freshMarkers_inj (start : positive) (cs : list ChurchFeature) (a b : Marker) :
  a ∈ freshMarkers start cs -> b ∈ freshMarkers start cs ->
  marker_id a = marker_id b -> a = b.
Proof.
  revert start. induction cs as [|c cs IH]; intros start; simpl.
  - by intros ?%not_elem_of_nil.
  - intros [->|Ha]%elem_of_cons [->|Hb]%elem_of_cons Hid; simpl in *.
    + done.
    + apply freshMarkers_ge in Hb. lia.
    + apply freshMarkers_ge in Ha. lia.
    + by eapply IH.
Qed.

(** How [addAll] leaves each part of the world. *)
Lemma addAll_cons (c : ChurchFeature) (cs : list ChurchFeature) (w : World) :
  addAll (c :: cs) w = addAll cs (addOne c w).
Proof. reflexivity. Qed.

Lemma addAll_tracked (cs : list ChurchFeature) (w : World) :
  churchMarkersRef (addAll cs w)
  = churchMarkersRef w ++ freshMarkers (lastId w) cs.
Proof.
  revert w. induction cs as [|c cs IH]; intros w.
  - simpl. by rewrite app_nil_r.
  - rewrite addAll_cons, IH. simpl. by rewrite <- app_assoc.
Qed.

Lemma addAll_lastId (cs : list ChurchFeature) (w : World) :
  (lastId w <= lastId (addAll cs w))%positive /\
  forall mk, mk ∈ freshMarkers (lastId w) cs ->
             (marker_id mk < lastId (addAll cs w))%positive.
Proof.
  revert w. induction cs as [|c cs IH]; intros w.
  - simpl. split; [lia|]. by intros mk ?%not_elem_of_nil.
  - rewrite addAll_cons.
    destruct (IH (addOne c w)) as [Hle Hlt]. simpl in Hle, Hlt.
    split; [lia|].
    intros mk [->|Hin]%elem_of_cons; simpl; [lia|]. by apply Hlt.
Qed.

Lemma addAll_map (cs : list ChurchFeature) (w : World) (m : LMap) :
  mapInstanceRef w = Some m ->
  exists m',
    mapInstanceRef (addAll cs w) = Some m' /\
    onMap m' = list_to_set (marker_id <$> freshMarkers (lastId w) cs) ∪ onMap m /\
    view m' = view m /\ openPopup m' = openPopup m.
Proof.
  revert w m. induction cs as [|c cs IH]; intros w m Hm.
  - exists m. split; [done|]. split; [set_solver|done].
  - rewrite addAll_cons.
    destruct (IH (addOne c w) (addLayer (lastId w) m)) as (m' & Hm' & Hon & Hv & Hp).
    { simpl. by rewrite Hm. }
    exists m'. split; [exact Hm'|]. split; [|done].
    rewrite Hon. simpl. set_solver.
Qed.

Lemma addAll_markers_old (cs : list ChurchFeature) (w : World) (id : positive) :
  (id < lastId w)%positive ->
  markers (addAll cs w) !! id = markers w !! id.
Proof.
  revert w. induction cs as [|c cs IH]; intros w Hid; [done|].
  rewrite addAll_cons, IH by (simpl; lia). simpl.
  apply lookup_insert_ne. lia.
Qed.

Lemma addAll_markers_new (cs : list ChurchFeature) (w : World) (mk : Marker) :
  mk ∈ freshMarkers (lastId w) cs ->
  markers (addAll cs w) !! marker_id mk = Some mk.
Proof.
  revert w. induction cs as [|c cs IH]; intros w.
  - by intros ?%not_elem_of_nil.
  - rewrite addAll_cons. simpl.
    intros [->|Hin]%elem_of_cons.
    + rewrite addAll_markers_old by (simpl; lia). simpl.
      apply lookup_insert_eq.
    + by apply IH.
Qed.

Lemma addAll_markers_inv (cs : list ChurchFeature) (w : World)
  (id : positive) (mk : Marker) :
  markers (addAll cs w) !! id = Some mk ->
  markers w !! id = Some mk \/
  (mk ∈ freshMarkers (lastId w) cs /\ marker_id mk = id).
Proof.
  revert w. induction cs as [|c cs IH]; intros w; [by left|].
  rewrite addAll_cons. intros Hl.
  destruct (IH _ Hl) as [Hold|[Hin Hid]].
  - simpl in Hold.
    destruct (decide (lastId w = id)) as [<-|Hne].
    + rewrite lookup_insert_eq in Hold. simplify_eq. right.
      split; [apply list_elem_of_here|done].
    + rewrite lookup_insert_ne in Hold by done. by left.
  - right. split; [by apply list_elem_of_further|done].
Qed.

Lemma addAll_others (cs : list ChurchFeature) (w : World) :
  churchesData (addAll cs w) = churchesData w /\
  selectedArea (addAll cs w) = selectedArea w /\
  paths (addAll cs w) = paths w /\
  geoJsonLayerRef (addAll cs w) = geoJsonLayerRef w /\
  requests (addAll cs w) = requests w.
Proof.
  revert w. induction cs as [|c cs IH]; intros w; [done|].
  rewrite addAll_cons. by destruct (IH (addOne c w)) as (-> & -> & -> & -> & ->).
Qed.

Section OverlayProps.
Context `{Platform}.

Lemma forEach_removeLayer (ms : list Marker) (w : World) (m : LMap) :
  mapInstanceRef w = Some m ->
  forEach ms (fun marker => onMapInstance (removeLayer (marker_id marker))) w
  = (inr tt, set_mapInstanceRef (Some (removeAll (marker_id <$> ms) m)) w).
Proof.
  revert w m. induction ms as [|mk ms IH]; intros w m Hm; simpl.
  - unfold ret. f_equal. rewrite <- Hm. by destruct w.
  - unfold bind, onMapInstance, modify. rewrite Hm. simpl.
    rewrite (IH _ (removeLayer (marker_id mk) m)) by done.
    reflexivity.
Qed.

Lemma clearChurchMarkers_run (w : World) (m : LMap) :
  mapInstanceRef w = Some m ->
  clearChurchMarkers w
  = (inr tt,
     set_churchMarkersRef []
       (set_mapInstanceRef
          (Some (removeAll (marker_id <$> churchMarkersRef w) m)) w)).
Proof.
  intros Hm. unfold clearChurchMarkers, bind, get. rewrite Hm.
  rewrite (forEach_removeLayer _ _ _ Hm). reflexivity.
Qed.

Lemma forEach_addChurchMarker (cs : list ChurchFeature) (w : World) :
  forEach cs addChurchMarker w = (inr tt, addAll cs w).
Proof.
  revert w. induction cs as [|c cs IH]; intros w; simpl; [done|].
  unfold bind at 1. unfold addChurchMarker at 1, bind, stamp, modify, onMapInstance.
  simpl. rewrite IH. reflexivity.
Qed.

Lemma showChurchesForArea_run (areaName : jsstring) (w : World) (m : LMap) :
  mapInstanceRef w = Some m ->
  showChurchesForArea areaName w
  = (inr tt,
     addAll (List.filter (inArea areaName) (churchesData w))
       (set_churchMarkersRef []
          (set_mapInstanceRef
             (Some (removeAll (marker_id <$> churchMarkersRef w) m)) w))).
Proof.
  intros Hm. unfold showChurchesForArea, bind, get. rewrite Hm.
  rewrite (clearChurchMarkers_run _ _ Hm).
  apply forEach_addChurchMarker.
Qed.

Lemma inArea_filter (areaName : jsstring) (cs : list ChurchFeature) :
  List.filter (inArea areaName) cs
  = filter (fun c => toUpperCase (church_area c) = toUpperCase areaName) cs.
Proof.
  induction cs as [|c cs IH]; simpl; [done|].
  rewrite filter_cons. unfold inArea at 1.
  destruct (decide (toUpperCase (church_area c) = toUpperCase areaName)) as [Heq|Hne].
  - rewrite bool_decide_eq_true_2 by done. by rewrite IH.
  - by rewrite bool_decide_eq_false_2.
Qed.

(** The world [showChurchesForArea] leaves, part by part. *)
Lemma showChurchesForArea_world (areaName : jsstring) (w : World) (m : LMap) :
  mapInstanceRef w = Some m -> ChurchInv w ->
  exists w' m',
    showChurchesForArea areaName w = (inr tt, w') /\
    mapInstanceRef w' = Some m' /\
    churchesData w' = churchesData w /\
    churchMarkersRef w'
      = freshMarkers (lastId w) (List.filter (inArea areaName) (churchesData w)) /\
    (forall id church,
       shown w' id church <->
       exists mk, mk ∈ churchMarkersRef w' /\ marker_id mk = id /\
                  marker_church mk = church) /\
    (forall id, markers w' !! id = None -> id ∈ onMap m' <-> id ∈ onMap m) /\
    (forall id, (id < lastId w)%positive -> markers w' !! id = markers w !! id) /\
    ChurchInv w'.
Proof.
  intros Hm Hinv.
  set (cs := List.filter (inArea areaName) (churchesData w)).
  set (w1 := set_churchMarkersRef []
               (set_mapInstanceRef
                  (Some (removeAll (marker_id <$> churchMarkersRef w) m)) w)).
  destruct (addAll_map cs w1 _ eq_refl) as (m' & Hm' & Hon & _ & _).
  rewrite onMap_removeAll in Hon. change (lastId w1) with (lastId w) in Hon.
  pose proof (addAll_tracked cs w1) as Htr. simpl in Htr.
  destruct (addAll_lastId cs w1) as [Hle Hlt]. simpl in Hle, Hlt.
  destruct (addAll_others cs w1) as (Hdata & _).
  assert (Hfresh_ge : forall mk, mk ∈ freshMarkers (lastId w) cs ->
                                 markers w !! marker_id mk = None).
  { intros mk Hin. apply freshMarkers_ge in Hin.
    destruct (markers w !! marker_id mk) eqn:Hl; [|done].
    assert ((marker_id mk < lastId w)%positive) by (apply Hinv; by eexists).
    lia. }
  assert (Hshown : forall id church,
    shown (addAll cs w1) id church <->
    exists mk, mk ∈ churchMarkersRef (addAll cs w1) /\ marker_id mk = id /\
               marker_church mk = church).
  { intros id church. rewrite Htr. split.
    - intros (m0 & mk & Hm0 & Hid & Hmk & Hch). rewrite Hm' in Hm0. simplify_eq.
      destruct (addAll_markers_inv _ _ _ _ Hmk) as [Hold|[Hin Hid']].
      + simpl in Hold. exfalso.
        assert (Hlt' : (id < lastId w)%positive) by (apply Hinv; by eexists).
        rewrite Hon in Hid. apply elem_of_union in Hid as [Hid|Hid].
        * apply elem_of_list_to_set, list_elem_of_fmap in Hid as (mk' & -> & Hin).
          apply freshMarkers_ge in Hin. lia.
        * apply elem_of_difference in Hid as [Hid Hnot]. apply Hnot.
          apply elem_of_list_to_set. eapply (inv_shown _ Hinv).
          by exists m, mk.
      + by exists mk.
    - intros (mk & Hin & <- & <-). exists m', mk. split; [done|].
      split; [|split; [|done]].
      + rewrite Hon. apply elem_of_union_l, elem_of_list_to_set.
        apply list_elem_of_fmap. by exists mk.
      + by apply addAll_markers_new. }
  exists (addAll cs w1), m'.
  split; [by apply showChurchesForArea_run|].
  split; [exact Hm'|]. split; [exact Hdata|]. split; [exact Htr|].
  split; [exact Hshown|]. split; [|split].
  - intros id Hnone. rewrite Hon.
    assert (Hnf : id ∉ marker_id <$> freshMarkers (lastId w) cs).
    { intros (mk & -> & Hin)%list_elem_of_fmap.
      rewrite (addAll_markers_new cs w1 mk Hin) in Hnone. done. }
    assert (Hnt : id ∉ marker_id <$> churchMarkersRef w).
    { intros (mk & -> & Hin)%list_elem_of_fmap.
      pose proof (inv_tracked _ Hinv _ Hin) as Hst.
      assert ((marker_id mk < lastId w)%positive) by (apply Hinv; by eexists).
      rewrite addAll_markers_old in Hnone by done. simpl in Hnone. congruence. }
    set_solver.
  - intros id Hid. by rewrite addAll_markers_old.
  - split.
    + intros id mk Hmk.
      destruct (addAll_markers_inv _ _ _ _ Hmk) as [Hold|[_ Hid]]; [|done].
      by apply Hinv.
    + intros mk Hin. rewrite Htr in Hin. by apply addAll_markers_new.
    + intros id church Hs. apply Hshown in Hs as (mk & Hin & <- & _).
      apply list_elem_of_fmap. by exists mk.
    + intros id [mk Hmk].
      destruct (addAll_markers_inv _ _ _ _ Hmk) as [Hold|[Hin <-]].
      * assert ((id < lastId w)%positive) by (apply Hinv; by eexists). lia.
      * by apply Hlt.
Qed.

Lemma clearChurchMarkers_hides (w : World) (m : LMap) :
  mapInstanceRef w = Some m -> ChurchInv w ->
  forall id church,
    ~ shown (set_churchMarkersRef []
               (set_mapInstanceRef
                  (Some (removeAll (marker_id <$> churchMarkersRef w) m)) w))
        id church.
Proof.
  intros Hm Hinv id church (m0 & mk & Hm0 & Hid & Hmk & Hch).
  simpl in Hm0, Hmk. simplify_eq. rewrite onMap_removeAll in Hid.
  apply elem_of_difference in Hid as [Hid Hnot]. apply Hnot.
  apply elem_of_list_to_set. eapply (inv_shown _ Hinv). by exists m, mk.
Qed.

Lemma clearChurchMarkers_ChurchInv (w : World) :
  ChurchInv w -> ChurchInv (snd (clearChurchMarkers w)).
Proof.
  intros Hinv. destruct (mapInstanceRef w) as [m|] eqn:Hm.
  - rewrite (clearChurchMarkers_run _ _ Hm). simpl. split; simpl.
    + apply Hinv.
    + by intros mk ?%elem_of_nil.
    + intros id church Hs. by apply (clearChurchMarkers_hides _ _ Hm Hinv) in Hs.
    + apply Hinv.
  - unfold clearChurchMarkers, bind, get. by rewrite Hm.
Qed.

(** Without a map both operations leave the world alone. *)
Lemma overlay_without_map (areaName : jsstring) (w : World) :
  mapInstanceRef w = None ->
  showChurchesForArea areaName w = (inr tt, w) /\
  clearChurchMarkers w = (inr tt, w).
Proof.
  intros Hm. unfold showChurchesForArea, clearChurchMarkers, bind, get.
  by rewrite Hm.
Qed.

(** C8: with the map mounted, in a world that satisfies the church
    invariant, [showChurchesForArea] returns normally; every marker
    tracked before is off the map afterwards; the tracked markers are one
    per church of the data whose area equals the given name once both are
    upper-cased, in the data's order; the church markers on the map are
    exactly those tracked markers; and the invariant holds again.  A
    second call with the same name shows the same churches and leaves
    every other layer of the map as it was.  [clearChurchMarkers] returns
    normally, leaves no church marker on the map and none tracked, and a
    second call changes nothing; with no marker tracked it changes
    nothing at all. *)
Theorem showChurchesForArea_exact (areaName : jsstring) (w : World) (m : LMap) :
  mapInstanceRef w = Some m -> ChurchInv w ->
  exists w' m',
    showChurchesForArea areaName w = (inr tt, w') /\
    mapInstanceRef w' = Some m' /\
    (forall mk church,
       mk ∈ churchMarkersRef w -> ~ shown w' (marker_id mk) church) /\
    marker_church <$> churchMarkersRef w'
      = filter (fun c => toUpperCase (church_area c) = toUpperCase areaName)
          (churchesData w) /\
    (forall id church,
       shown w' id church <->
       exists mk, mk ∈ churchMarkersRef w' /\ marker_id mk = id /\
                  marker_church mk = church) /\
    (forall church,
       (exists id, shown w' id church) <->
       church ∈ churchesData w /\
       toUpperCase (church_area church) = toUpperCase areaName) /\
    ChurchInv w' /\
    (exists w'' m'',
       showChurchesForArea areaName w' = (inr tt, w'') /\
       mapInstanceRef w'' = Some m'' /\
       marker_church <$> churchMarkersRef w''
         = marker_church <$> churchMarkersRef w' /\
       (forall church,
          (exists id, shown w'' id church) <-> (exists id, shown w' id church)) /\
       (forall id, markers w'' !! id = None -> id ∈ onMap m'' <-> id ∈ onMap m') /\
       view m'' = view m') /\
    (exists wc,
       clearChurchMarkers w = (inr tt, wc) /\
       churchMarkersRef wc = [] /\
       (forall id church, ~ shown wc id church) /\
       clearChurchMarkers wc = (inr tt, wc)) /\
    (churchMarkersRef w = [] -> clearChurchMarkers w = (inr tt, w)).
Proof.
  intros Hm Hinv.
  destruct (showChurchesForArea_world areaName w m Hm Hinv)
    as (w' & m' & Hrun & Hm' & Hdata & Htr & Hshown & Hother & Hold & Hinv').
  assert (Hchurches : marker_church <$> churchMarkersRef w'
    = filter (fun c => toUpperCase (church_area c) = toUpperCase areaName)
        (churchesData w)).
  { by rewrite Htr, freshMarkers_church, inArea_filter. }
  assert (Hby : forall u, (forall id church,
       shown u id church <->
       exists mk, mk ∈ churchMarkersRef u /\ marker_id mk = id /\
                  marker_church mk = church) ->
     forall church, (exists id, shown u id church)
                    <-> church ∈ marker_church <$> churchMarkersRef u).
  { intros u Hu church. rewrite list_elem_of_fmap. split.
    - intros (id & (mk & Hin & _ & <-)%Hu). by exists mk.
    - intros (mk & -> & Hin). exists (marker_id mk). apply Hu. by exists mk. }
  exists w', m'. split; [exact Hrun|]. split; [exact Hm'|].
  split; [|split; [exact Hchurches|split; [exact Hshown|split; [|split; [exact Hinv'|split; [|split]]]]]].
  - intros mk church Hin (mk' & Hin' & Hid & _)%Hshown.
    rewrite Htr in Hin'. apply freshMarkers_ge in Hin'.
    pose proof (inv_tracked _ Hinv _ Hin) as Hst.
    assert ((marker_id mk < lastId w)%positive) by (apply Hinv; by eexists).
    lia.
  - intros church. rewrite (Hby w' Hshown), Hchurches.
    rewrite list_elem_of_filter. tauto.
  - destruct (showChurchesForArea_world areaName w' m' Hm' Hinv')
      as (w'' & m'' & Hrun2 & Hm'' & Hdata2 & Htr2 & Hshown2 & Hother2 & _ & _).
    exists w'', m''. split; [exact Hrun2|]. split; [exact Hm''|].
    assert (Hsame : marker_church <$> churchMarkersRef w''
                    = marker_church <$> churchMarkersRef w').
    { by rewrite Htr2, Htr, !freshMarkers_church, Hdata. }
    split; [exact Hsame|]. split; [|split; [exact Hother2|]].
    + intros church. by rewrite (Hby w'' Hshown2), (Hby w' Hshown), Hsame.
    + rewrite (showChurchesForArea_run _ _ _ Hm') in Hrun2. simplify_eq.
      destruct (addAll_map (List.filter (inArea areaName) (churchesData w'))
                  (set_churchMarkersRef []
                     (set_mapInstanceRef
                        (Some (removeAll (marker_id <$> churchMarkersRef w') m')) w'))
                  _ eq_refl) as (m0 & Hm0 & _ & Hv & Hp).
      rewrite Hm'' in Hm0. simplify_eq. rewrite Hv. apply view_removeAll.
  - exists (set_churchMarkersRef []
              (set_mapInstanceRef
                 (Some (removeAll (marker_id <$> churchMarkersRef w) m)) w)).
    split; [by apply clearChurchMarkers_run|]. split; [reflexivity|].
    split; [by apply clearChurchMarkers_hides|].
    erewrite clearChurchMarkers_run by reflexivity. reflexivity.
  - intros Hnil. rewrite (clearChurchMarkers_run _ _ Hm), Hnil. simpl.
    f_equal. destruct w; simpl in *. by subst.
Qed.

End OverlayProps.

Lemma ChurchInv_no_markers (w : World) :
  markers w = ∅ -> churchMarkersRef w = [] -> ChurchInv w.
Proof.
  intros Hheap Htracked. split.
  - intros id mk. by rewrite Hheap, lookup_empty.
  - intros mk. rewrite Htracked. by intros ?%not_elem_of_nil.
  - intros id church (m & mk & _ & _ & Hmk & _).
    by rewrite Hheap, lookup_empty in Hmk.
  - intros id [mk Hmk]. by rewrite Hheap, lookup_empty in Hmk.
Qed.

(** C8 (witness): the scenario's church is in "Punda"; asking for
    "PUNDA" shows it. *)
Lemma showChurchesForArea_exact_witness :
  exists w',
    @showChurchesForArea offline (js "PUNDA") mounted = (inr tt, w') /\
    church_name <$> (marker_church <$> churchMarkersRef w') = [js "Fortkerk"] /\
    ChurchInv w'.
Proof.
  destruct (@showChurchesForArea_exact offline (js "PUNDA") mounted
              {| onMap := ∅; view := InitialView; openPopup := None |}
              eq_refl (ChurchInv_no_markers mounted eq_refl eq_refl))
    as (w' & m' & Hrun & _ & _ & Hchurches & _ & _ & Hinv & _).
  exists w'. split; [exact Hrun|]. split; [|exact Hinv].
  rewrite Hchurches. reflexivity.
Defined.

(** The matching ignores case in both directions, and clearing twice is
    clearing once. *)
Example showChurchesForArea_any_case :
  church_name <$> (marker_church <$>
    churchMarkersRef (snd (@showChurchesForArea offline (js "punda") mounted)))
  = [js "Fortkerk"] /\
  church_name <$> (marker_church <$>
    churchMarkersRef (snd (@showChurchesForArea offline (js "PUNDA") mounted)))
  = [js "Fortkerk"] /\
  churchMarkersRef (snd (@showChurchesForArea offline (js "Bandabou") mounted)) = [].
Proof. vm_compute. done. Qed.

(** ** Selection Controller *)

Lemma sameButStyle_refl (l : PathLayer) : sameButStyle l l.
Proof. done. Qed.

Lemma sameButStyle_trans (a b c : PathLayer) :
  sameButStyle a b -> sameButStyle b c -> sameButStyle a c.
Proof. intros (? & ? & ?) (? & ? & ?). repeat split; congruence. Qed.

Lemma sameButStyle_restyle (areaName : jsstring) (l : PathLayer) :
  sameButStyle l (restyle areaName l).
Proof. done. Qed.

Lemma sameButStyle_nameOf (l l' : PathLayer) :
  sameButStyle l l' -> nameOf l' = nameOf l.
Proof. intros (Hf & _). unfold nameOf. by rewrite Hf. Qed.

Lemma matches_restyle (a b : jsstring) (l : PathLayer) :
  matches a (restyle b l) = matches a l.
Proof. reflexivity. Qed.

Lemma restyle_idemp (a : jsstring) (l : PathLayer) :
  restyle a (restyle a l) = restyle a l.
Proof.
  destruct l as [f o lab pop].
  unfold restyle, matches, nameOf, withOptions. simpl.
  destruct (bool_decide _); by destruct o as [[] [] [] [] [] []].
Qed.

Lemma restyle_selected (a : jsstring) (l : PathLayer) :
  matches a l = true -> selectedStyle (restyle a l).
Proof. intros Hm. unfold restyle. rewrite Hm. by destruct l as [f [] lab pop]. Qed.

Lemma restyle_default (a : jsstring) (l : PathLayer) :
  matches a l = false -> defaultStyle (restyle a l).
Proof. intros Hm. unfold restyle. rewrite Hm. by destruct l as [f [] lab pop]. Qed.

Lemma selected_not_default (l : PathLayer) : selectedStyle l -> ~ defaultStyle l.
Proof. intros (Hw & _) (Hw' & _). congruence. Qed.

Lemma relabel_same (a : jsstring) (l : PathLayer) (m : LMap) :
  sameButLayers m (relabel a l m).
Proof.
  unfold relabel. destruct (_label l); [|done].
  destruct (matches a l), (hasLayer _ m); done.
Qed.

Lemma onMap_relabel (a : jsstring) (l : PathLayer) (m : LMap) (id : positive) :
  id ∈ onMap (relabel a l m) <->
  match _label l with
  | Some label =>
      if matches a l then id = label_id label \/ id ∈ onMap m
      else id <> label_id label /\ id ∈ onMap m
  | None => id ∈ onMap m
  end.
Proof.
  unfold relabel, hasLayer. destruct (_label l) as [label|]; [|done].
  destruct (matches a l); case_bool_decide; simpl; set_solver.
Qed.

Lemma StyleOnly_refl (w : World) : StyleOnly w w.
Proof.
  split; try done.
  - by destruct (mapInstanceRef w); constructor.
  - intros lid. by destruct (paths w !! lid); constructor.
Qed.

Lemma StyleOnly_trans (a b c : World) :
  StyleOnly a b -> StyleOnly b c -> StyleOnly a c.
Proof.
  intros [a1 a2 a3 a4 a5 a6] [b1 b2 b3 b4 b5 b6]. split; try congruence.
  - inversion a5 as [x y Hxy Hx Hy|Hx Hy]; inversion b5 as [y' z Hyz Hy' Hz|Hy' Hz];
      try congruence; constructor.
    assert (y' = y) as -> by congruence.
    destruct Hxy, Hyz. split; congruence.
  - intros lid. specialize (a6 lid). specialize (b6 lid).
    inversion a6 as [x y Hxy Hx Hy|Hx Hy]; inversion b6 as [y' z Hyz Hy' Hz|Hy' Hz];
      try congruence; constructor.
    assert (y' = y) as -> by congruence.
    by eapply sameButStyle_trans.
Qed.

Lemma StyleOnly_restyleOne (a : jsstring) (lid : positive) (w : World) :
  StyleOnly w (restyleOne a lid w).
Proof.
  unfold restyleOne. destruct (paths w !! lid) as [l|] eqn:Hl;
    [|apply StyleOnly_refl].
  split; try done; simpl.
  - destruct (mapInstanceRef w); constructor. apply relabel_same.
  - intros lid'. destruct (decide (lid = lid')) as [<-|Hne].
    + rewrite lookup_alter_eq, Hl. constructor. apply sameButStyle_restyle.
    + rewrite lookup_alter_ne by done.
      by destruct (paths w !! lid'); constructor.
Qed.

Lemma restyledAll_snoc (a : jsstring) (lids : list positive) (lid : positive)
  (w : World) :
  restyledAll a (lids ++ [lid]) w = restyleOne a lid (restyledAll a lids w).
Proof. unfold restyledAll. by rewrite foldl_app. Qed.

Lemma StyleOnly_restyledAll (a : jsstring) (lids : list positive) (w : World) :
  StyleOnly w (restyledAll a lids w).
Proof.
  induction lids as [|lid lids IH] using rev_ind; [apply StyleOnly_refl|].
  rewrite restyledAll_snoc. eapply StyleOnly_trans; [exact IH|].
  apply StyleOnly_restyleOne.
Qed.

Lemma restyleOne_paths (a : jsstring) (x lid : positive) (w : World) :
  paths (restyleOne a x w) !! lid
  = if decide (x = lid) then restyle a <$> paths w !! lid else paths w !! lid.
Proof.
  unfold restyleOne. destruct (paths w !! x) as [l|] eqn:Hl; simpl.
  - destruct (decide (x = lid)) as [<-|Hne].
    + by rewrite lookup_alter_eq.
    + by rewrite lookup_alter_ne.
  - destruct (decide (x = lid)) as [<-|Hne]; [by rewrite Hl|done].
Qed.

Lemma restyledAll_paths (a : jsstring) (lids : list positive) (w : World)
  (lid : positive) :
  paths (restyledAll a lids w) !! lid
  = if decide (lid ∈ lids) then restyle a <$> paths w !! lid else paths w !! lid.
Proof.
  induction lids as [|x lids IH] using rev_ind.
  - unfold restyledAll. cbn [foldl].
    destruct (decide (lid ∈ [])) as [Hin|]; [by apply not_elem_of_nil in Hin|done].
  - rewrite restyledAll_snoc, restyleOne_paths, IH.
    destruct (decide (x = lid)) as [<-|Hne].
    + rewrite (decide_True (P := x ∈ lids ++ [x])) by set_solver.
      destruct (decide (x ∈ lids)); [|done].
      destruct (paths w !! x); simpl; [|done]. by rewrite restyle_idemp.
    + destruct (decide (lid ∈ lids)) as [Hin|Hnin].
      * by rewrite decide_True by set_solver.
      * by rewrite decide_False by set_solver.
Qed.

(** The labels after a run of visits: shown for the layers that carry
    the name, hidden for the others, provided no two visited layers
    share a label. *)
Lemma restyledAll_labels (a : jsstring) (lids : list positive) (w : World)
  (m : LMap) :
  mapInstanceRef w = Some m ->
  (forall lid1 lid2 l1 l2 label1 label2,
     lid1 ∈ lids -> lid2 ∈ lids ->
     paths w !! lid1 = Some l1 -> paths w !! lid2 = Some l2 ->
     _label l1 = Some label1 -> _label l2 = Some label2 ->
     label_id label1 = label_id label2 -> lid1 = lid2) ->
  exists m',
    mapInstanceRef (restyledAll a lids w) = Some m' /\
    forall lid l label,
      lid ∈ lids -> paths w !! lid = Some l -> _label l = Some label ->
      label_id label ∈ onMap m' <-> matches a l = true.
Proof.
  intros Hm. induction lids as [|x lids IH] using rev_ind; intros Hapart.
  - exists m. split; [done|]. intros lid l label Hin. by apply not_elem_of_nil in Hin.
  - destruct IH as (mW & HmW & IH).
    { intros lid1 lid2 l1 l2 label1 label2 H1 H2.
      apply Hapart; set_solver. }
    rewrite restyledAll_snoc. set (W := restyledAll a lids w) in *.
    pose proof (restyledAll_paths a lids w x) as HWx. fold W in HWx.
    unfold restyleOne.
    destruct (paths W !! x) as [lW|] eqn:HlW; simpl.
    + rewrite HmW. simpl. eexists. split; [reflexivity|].
      assert (exists lx, paths w !! x = Some lx /\ sameButStyle lx lW)
        as (lx & Hlx & Hsame).
      { destruct (paths w !! x) as [lx|] eqn:Hlx.
        - exists lx. split; [done|].
          destruct (decide (x ∈ lids)); simpl in HWx; simplify_eq;
            [apply sameButStyle_restyle|done].
        - destruct (decide (x ∈ lids)); simpl in HWx; discriminate. }
      assert (HmatchW : matches a lW = matches a lx).
      { unfold matches. by rewrite (sameButStyle_nameOf _ _ Hsame). }
      destruct Hsame as (_ & HlabW & _).
      intros lid l label Hin Hl Hlab. rewrite onMap_relabel, HlabW, HmatchW.
      destruct (decide (lid = x)) as [->|Hne].
      * simplify_eq. rewrite Hlab.
        destruct (matches a lx); [naive_solver|]. split; [|done]. by intros [??].
      * assert (Hin' : lid ∈ lids) by set_solver.
        specialize (IH lid l label Hin' Hl Hlab).
        destruct (_label lx) as [labx|] eqn:Hlabx; [|done].
        assert (label_id label <> label_id labx).
        { intros Heq. apply Hne.
          eapply (Hapart lid x l lx label labx); set_solver. }
        destruct (matches a lx); [|tauto].
        rewrite <- IH. tauto.
    + exists mW. split; [done|].
      intros lid l label Hin Hl Hlab.
      destruct (decide (lid = x)) as [->|Hne].
      * rewrite Hl in HWx. destruct (decide (x ∈ lids)); discriminate.
      * assert (Hin' : lid ∈ lids) by set_solver.
        exact (IH lid l label Hin' Hl Hlab).
Qed.

Section SelectionProps.
Context `{Platform}.

(** One visit of the restyling pass: either it goes through, or the
    feature has no properties object and reading [NAME] throws. *)
Lemma restyleLayer_cases (a : jsstring) (lid : positive) (w : World) :
  restyleLayer a lid w = (inr tt, restyleOne a lid w) \/
  (restyleLayer a lid w = (inl TypeError, w) /\
   exists l, paths w !! lid = Some l /\ properties (feature l) = None).
Proof.
  unfold restyleLayer, restyleOne, bind, get.
  destruct (paths w !! lid) as [l|] eqn:Hl; [|by left].
  destruct (properties (feature l)) as [props|] eqn:Hp;
    [|right; split; [done|by exists l]].
  left.
  assert (Hmatch : matches a l = bool_decide (NAME props = Some a)).
  { unfold matches, nameOf. by rewrite Hp. }
  assert (Halter : forall patch,
    patch = (if matches a l then selectedPatch else defaultPatch) ->
    alter (withOptions (mergeStyle patch)) lid (paths w)
    = alter (restyle a) lid (paths w)).
  { intros patch ->. apply alter_ext. intros l' Hl'. by simplify_eq. }
  unfold relabel. rewrite <- Hmatch.
  destruct (matches a l) eqn:Hm; unfold setStyle, modify, onMapInstance, ret;
    simpl; rewrite (Halter _ eq_refl);
    destruct (_label l) as [label|], (mapInstanceRef w) as [m|] eqn:Hmap;
    simpl; try destruct (hasLayer (label_id label) m); simpl;
    try rewrite Hmap; try reflexivity;
    f_equal; destruct w; simpl in *; by subst.
Qed.

(** The pass over a list of layers: it restyles a prefix of the list,
    the whole list when it returns normally, and it returns normally
    when every layer's feature has a properties object. *)
Lemma forEach_restyleLayer (a : jsstring) (lids : list positive) (w : World) :
  exists visited,
    visited `prefix_of` lids /\
    snd (forEach lids (restyleLayer a) w) = restyledAll a visited w /\
    (fst (forEach lids (restyleLayer a) w) = inr tt -> visited = lids) /\
    ((forall lid l, lid ∈ lids -> paths w !! lid = Some l ->
                    is_Some (properties (feature l))) ->
     fst (forEach lids (restyleLayer a) w) = inr tt).
Proof.
  revert w. induction lids as [|lid lids IH]; intros w.
  - exists []. by repeat split.
  - simpl. unfold bind.
    destruct (restyleLayer_cases a lid w) as [Hok|[Hthrow (l & Hl & Hp)]].
    + rewrite Hok.
      destruct (IH (restyleOne a lid w)) as (visited & Hpre & Hsnd & Hall & Hprops).
      exists (lid :: visited). split; [by apply prefix_cons|].
      split; [exact Hsnd|]. split; [intros Hr; f_equal; by apply Hall|].
      intros Hhave. apply Hprops. intros lid' l' Hin Hl'.
      pose proof (so_paths _ _ (StyleOnly_restyleOne a lid w) lid') as Hsame.
      rewrite Hl' in Hsame. inversion Hsame as [l0 ? (Hf & _) Hl0|]; subst.
      rewrite Hf. eapply (Hhave lid'); [set_solver|done].
    + rewrite Hthrow. exists []. split; [apply prefix_nil|].
      split; [done|]. split; [discriminate|].
      intros Hhave. destruct (Hhave lid l) as [p Hp']; [set_solver|done|congruence].
Qed.

Lemma restyleAll_run (a : jsstring) (w : World) :
  restyleAll a w =
  match geoJsonLayerRef w with
  | Some lids => forEach lids (restyleLayer a) w
  | None => (inr tt, w)
  end.
Proof. unfold restyleAll, bind, get. by destruct (geoJsonLayerRef w). Qed.

Lemma StyleOnly_restyleAll (a : jsstring) (w : World) :
  StyleOnly w (snd (restyleAll a w)).
Proof.
  rewrite restyleAll_run. destruct (geoJsonLayerRef w) as [lids|];
    [|apply StyleOnly_refl].
  destruct (forEach_restyleLayer a lids w) as (visited & _ & -> & _).
  apply StyleOnly_restyledAll.
Qed.

Lemma selectArea_blocks (a : jsstring) (layer : option positive) (w : World) :
  selectArea a layer w =
  match zoomAndPopup layer (set_selectedArea (Some a) w)
          (set_selectedArea (Some a) w) with
  | (inl e, w1) => (inl e, w1)
  | (inr _, w1) => restyleAll a w1
  end.
Proof. reflexivity. Qed.

(** Building the popup content only sends requests. *)
Lemma createPopupContent_requests (props : Properties) (w : World) :
  exists issued,
    snd (createPopupContent props w) = set_requests (requests w ++ issued) w.
Proof.
  unfold createPopupContent, bind, lift, get, ret.
  destruct (fetchAreaInfo_returns (strOr (NAME props) Unknown) w)
    as (r & issued & ->).
  exists issued.
  destruct (truthy (thumbnail r));
    repeat (case_match; simplify_eq/=); reflexivity.
Qed.

Lemma PopupOnly_zoomAndPopup (layer : option positive) (w : World) :
  PopupOnly w (snd (zoomAndPopup layer w w)).
Proof.
  assert (Hrefl : PopupOnly w w).
  { split; try done.
    - by destruct (mapInstanceRef w); constructor.
    - intros lid. by destruct (paths w !! lid); constructor. }
  unfold zoomAndPopup.
  destruct layer as [lid|]; [|exact Hrefl].
  destruct (mapInstanceRef w) as [m|] eqn:Hm; [|exact Hrefl].
  destruct (paths w !! lid) as [l|] eqn:Hl; [|exact Hrefl].
  unfold bind, onMapInstance, modify. rewrite Hm. simpl.
  set (w1 := set_mapInstanceRef _ w).
  destruct (properties (feature l)) as [props|]; simpl.
  - destruct (createPopupContent_requests props w1) as (issued & Hsnd).
    destruct (createPopupContent props w1) as [[e|content] w2]; simpl in Hsnd;
      subst w2; simpl.
    + split; try done; simpl.
      * rewrite Hm. by constructor.
      * intros lid'. by destruct (paths w !! lid'); constructor.
    + unfold bindPopup, modify, get. simpl.
      destruct (bool_decide _); simpl.
      all: split; try done; simpl; [rewrite Hm; by constructor|].
      all: intros lid'; destruct (decide (lid = lid')) as [<-|Hne];
        [rewrite lookup_alter_eq, Hl; by constructor
        |rewrite lookup_alter_ne by done;
         by destruct (paths w !! lid'); constructor].
  - split; try done; simpl.
    + rewrite Hm. by constructor.
    + intros lid'. by destruct (paths w !! lid'); constructor.
Qed.

Lemma findIn_none (ps : gmap positive PathLayer) (a : jsstring)
  (lids : list positive) :
  (forall lid l, lid ∈ lids -> ps !! lid = Some l ->
                 is_Some (properties (feature l)) /\ nameOf l <> Some a) ->
  findIn ps a lids None = inr None.
Proof.
  induction lids as [|lid lids IH]; intros Hno; simpl; [done|].
  assert (Hrest : forall lid' l', lid' ∈ lids -> ps !! lid' = Some l' ->
            is_Some (properties (feature l')) /\ nameOf l' <> Some a).
  { intros lid' l' Hin' Hl'. apply (Hno lid' l'); [set_solver|done]. }
  destruct (ps !! lid) as [l|] eqn:Hl; [|by apply IH].
  destruct (Hno lid l ltac:(set_solver) Hl) as [[props Hp] Hname].
  rewrite Hp. rewrite bool_decide_eq_false_2; [by apply IH|].
  intros Hn. apply Hname. unfold nameOf. by rewrite Hp.
Qed.

(** C7: [selectArea] called without a layer goes straight from recording
    the name to the restyling pass.  Whatever the pass meets, afterwards
    the selected-area value is that name and the list entry of exactly
    that name is highlighted, while no request was sent, the map's view
    and open popup are as before (no pan or zoom) and every layer has the
    popup, the feature and the label it had (no popup was bound).  When
    every layer of the group has a properties object the pass completes
    and has restyled each layer of the group.  A click on a list entry
    whose name no rendered layer carries is such a call. *)
Theorem selectArea_without_layer (areaName : jsstring) (w : World) :
  selectArea areaName None w
    = restyleAll areaName (set_selectedArea (Some areaName) w) /\
  selectedArea (snd (selectArea areaName None w)) = Some areaName /\
  (forall area : AreaInfo,
     isHighlighted (snd (selectArea areaName None w)) area = true
     <-> name area = areaName) /\
  requests (snd (selectArea areaName None w)) = requests w /\
  option_Forall2 sameButLayers
    (mapInstanceRef w) (mapInstanceRef (snd (selectArea areaName None w))) /\
  (forall lid,
     option_Forall2 sameButStyle
       (paths w !! lid) (paths (snd (selectArea areaName None w)) !! lid)) /\
  (forall lids,
     geoJsonLayerRef w = Some lids ->
     (forall lid l, lid ∈ lids -> paths w !! lid = Some l ->
                    is_Some (properties (feature l))) ->
     fst (selectArea areaName None w) = inr tt /\
     forall lid, lid ∈ lids ->
       paths (snd (selectArea areaName None w)) !! lid
       = restyle areaName <$> paths w !! lid) /\
  (forall area : AreaInfo,
     findAreaLayer (name area) w = (inr None, w) ->
     areaListClick area w = selectArea (name area) None w).
Proof.
  assert (Hrun : selectArea areaName None w
                 = restyleAll areaName (set_selectedArea (Some areaName) w))
    by reflexivity.
  rewrite Hrun. set (w0 := set_selectedArea (Some areaName) w).
  pose proof (StyleOnly_restyleAll areaName w0) as [Hsel Hgr Hreq Hch Hmap Hpaths].
  split; [reflexivity|]. split; [exact Hsel|]. split; [|split; [exact Hreq|]].
  { intros area. unfold isHighlighted. rewrite Hsel. simpl.
    rewrite bool_decide_eq_true. split; [by intros [= ->]|by intros ->]. }
  split; [exact Hmap|]. split; [exact Hpaths|]. split.
  - intros lids Hgroup Hhave. rewrite restyleAll_run.
    change (geoJsonLayerRef w0) with (geoJsonLayerRef w). rewrite Hgroup.
    destruct (forEach_restyleLayer areaName lids w0)
      as (visited & _ & Hsnd & Hall & Hok).
    specialize (Hok Hhave). split; [exact Hok|].
    intros lid Hin. rewrite Hsnd, (Hall Hok), restyledAll_paths.
    by rewrite decide_True.
  - intros area Hfind. unfold areaListClick, bind. by rewrite Hfind.
Qed.

Lemma sameButPopup_nameOf (l l' : PathLayer) :
  sameButPopup l l' -> nameOf l' = nameOf l.
Proof. intros (Hf & _). unfold nameOf. by rewrite Hf. Qed.

(** C1 (amended): in a world with the map mounted and the group
    rendered, once [selectArea] called with the name B has returned, the
    selected-area value is B; every layer of the group whose feature's
    [NAME] is B, B being non-empty, carries the Selected style (stroke
    weight 3, accent stroke, fill opacity 0.9) with its label on the map;
    every layer whose [NAME] is anything else, or absent, carries the
    default style (weight 1, white stroke, fill opacity 0.7) with its
    label off the map; so the layers in Selected state are exactly those
    named B. *)
Theorem selectArea_exclusive (b : jsstring) (layer : option positive)
  (w w' : World) (lids : list positive) (m : LMap) :
  mapInstanceRef w = Some m ->
  Rendered w lids ->
  selectArea b layer w = (inr tt, w') ->
  selectedArea w' = Some b /\
  (forall lid l c s,
     lid ∈ lids -> paths w !! lid = Some l ->
     nameOf l = Some b -> b = c :: s -> carriesSelected w' lid) /\
  (forall lid l,
     lid ∈ lids -> paths w !! lid = Some l ->
     nameOf l <> Some b -> carriesDefault w' lid) /\
  (forall lid,
     lid ∈ lids -> carriesSelected w' lid ->
     exists l, paths w !! lid = Some l /\ nameOf l = Some b).
Proof.
  intros Hm [Hgroup Hstored Hapart Hlabels] Hrun.
  rewrite selectArea_blocks in Hrun.
  set (w0 := set_selectedArea (Some b) w) in *.
  pose proof (PopupOnly_zoomAndPopup layer w0) as [Psel Pgr _ Pmap Ppaths].
  destruct (zoomAndPopup layer w0 w0) as [[e|[]] w1]; [discriminate|].
  simpl in Psel, Pgr, Pmap, Ppaths.
  rewrite Hm in Pmap. rewrite Hgroup in Pgr.
  inversion Pmap as [? m1 Hon Heq Hm1|]; subst. symmetry in Hm1.
  pose proof (StyleOnly_restyleAll b w1) as [Ssel _ _ _ _ _].
  rewrite Hrun in Ssel. simpl in Ssel.
  rewrite restyleAll_run, Pgr in Hrun.
  destruct (forEach_restyleLayer b lids w1) as (visited & _ & Hsnd & Hall & _).
  rewrite Hrun in Hsnd, Hall. simpl in Hsnd, Hall.
  rewrite (Hall eq_refl) in Hsnd. clear Hall visited.
  assert (Hw1 : forall lid l, paths w !! lid = Some l ->
            exists l1, paths w1 !! lid = Some l1 /\ sameButPopup l l1).
  { intros lid l Hl. specialize (Ppaths lid). rewrite Hl in Ppaths.
    inversion Ppaths as [? l1 Hsame|]; subst. by exists l1. }
  assert (Hw1' : forall lid l1, paths w1 !! lid = Some l1 ->
            exists l, paths w !! lid = Some l /\ sameButPopup l l1).
  { intros lid l1 Hl1. specialize (Ppaths lid). rewrite Hl1 in Ppaths.
    inversion Ppaths as [l ? Hsame|]; subst. by exists l. }
  destruct (restyledAll_labels b lids w1 m1 Hm1) as (m' & Hm' & Hlab).
  { intros lid1 lid2 l1 l2 label1 label2 Hin1 Hin2 Hl1 Hl2 Hb1 Hb2 Hid.
    destruct (Hw1' _ _ Hl1) as (k1 & Hk1 & (_ & Hk1lab & _)).
    destruct (Hw1' _ _ Hl2) as (k2 & Hk2 & (_ & Hk2lab & _)).
    eapply (Hapart lid1 lid2 k1 k2 label1 label2); try done; congruence. }
  rewrite <- Hsnd in Hm'.
  assert (Hafter : forall lid l, lid ∈ lids -> paths w !! lid = Some l ->
            exists l1, paths w1 !! lid = Some l1 /\ sameButPopup l l1 /\
                       paths w' !! lid = Some (restyle b l1)).
  { intros lid l Hin Hl. destruct (Hw1 _ _ Hl) as (l1 & Hl1 & Hsame).
    exists l1. split; [done|]. split; [done|].
    rewrite Hsnd, restyledAll_paths, decide_True by done. by rewrite Hl1. }
  assert (Hselected : forall lid l c s,
            lid ∈ lids -> paths w !! lid = Some l ->
            nameOf l = Some b -> b = c :: s -> carriesSelected w' lid).
  { intros lid l c s Hin Hl Hname Hb.
    destruct (Hafter _ _ Hin Hl) as (l1 & Hl1 & Hsame & Hl').
    assert (Hmatch : matches b l1 = true).
    { unfold matches. rewrite (sameButPopup_nameOf _ _ Hsame).
      by apply bool_decide_eq_true. }
    exists (restyle b l1). split; [done|].
    split; [by apply restyle_selected|].
    destruct (Hlabels lid l c s Hin Hl) as [label Hlabel];
      [by rewrite Hname, Hb|].
    destruct Hsame as (_ & Hsl & _).
    exists m', label. split; [done|]. split; [simpl; congruence|].
    apply (Hlab lid l1 label); [done|done|congruence|done]. }
  assert (Hdefault : forall lid l,
            lid ∈ lids -> paths w !! lid = Some l ->
            nameOf l <> Some b -> carriesDefault w' lid).
  { intros lid l Hin Hl Hname.
    destruct (Hafter _ _ Hin Hl) as (l1 & Hl1 & Hsame & Hl').
    assert (Hmatch : matches b l1 = false).
    { unfold matches. rewrite (sameButPopup_nameOf _ _ Hsame).
      by apply bool_decide_eq_false. }
    exists (restyle b l1). split; [done|].
    split; [by apply restyle_default|].
    intros m'' label Hm'' Hlabel Hon'. simpl in Hlabel.
    assert (m'' = m') as -> by congruence.
    apply (Hlab lid l1 label) in Hon'; [congruence|done|done|done]. }
  split; [by rewrite Ssel, Psel|].
  split; [exact Hselected|]. split; [exact Hdefault|].
  intros lid Hin (l' & Hl' & Hstyle & _).
  destruct (Hstored lid Hin) as [l Hl]. exists l. split; [done|].
  destruct (decide (nameOf l = Some b)) as [Hname|Hname]; [done|].
  destruct (Hdefault lid l Hin Hl Hname) as (l'' & Hl'' & Hdef & _).
  assert (l'' = l') as -> by congruence.
  by apply selected_not_default in Hstyle.
Qed.

End SelectionProps.

(** ** The rendered group is an invariant *)

Section RenderProps.
Context `{Platform}.

(** [onEachFeature] either makes no label, for a feature without a
    non-empty [NAME], or makes one under the next stamp. *)
Lemma onEachFeature_ok (f : Feature) (w w' : World) (o : option Label) :
  onEachFeature f w = (inr o, w') ->
  (o = None /\ w' = w /\
   forall c s, properties f ≫= NAME <> Some (c :: s)) \/
  (exists label,
     o = Some label /\ label_id label = lastId w /\
     w' = set_lastId (Pos.succ (lastId w)) w).
Proof.
  unfold onEachFeature.
  destruct (properties f) as [props|]; simpl;
    [|intros [= <- <-]; left; by repeat split].
  destruct (NAME props) as [[|c s]|]; simpl;
    [intros [= <- <-]; left; by repeat split| |
     intros [= <- <-]; left; by repeat split].
  unfold bind, lift, stamp, ret.
  destruct (labelPosition (geometry f)) as [e|center]; [discriminate|].
  intros [= <- <-]. right. by eexists.
Qed.

(** What [L.geoJSON] leaves behind for one feature. *)
Lemma addData_ok (f : Feature) (w w' : World) (lid : positive) :
  addData f w = (inr lid, w') ->
  lid = lastId w /\
  (lastId w < lastId w')%positive /\
  mapInstanceRef w' = mapInstanceRef w /\
  exists l,
    paths w' = <[lid := l]> (paths w) /\
    feature l = f /\
    (forall label, _label l = Some label -> label_id label = Pos.succ lid) /\
    (forall c s, nameOf l = Some (c :: s) -> is_Some (_label l)).
Proof.
  unfold addData, bind, stamp, get, modify. simpl.
  destruct (onEachFeature f _) as [[e|o] w1] eqn:Hlabel; [discriminate|].
  unfold ret. intros [= <- <-].
  split; [reflexivity|].
  destruct (onEachFeature_ok _ _ _ _ Hlabel)
    as [(-> & -> & Hname)|(label & -> & Hid & ->)]; simpl.
  - split; [lia|]. split; [reflexivity|].
    eexists. split; [by rewrite alter_insert_eq|].
    split; [reflexivity|]. split; [discriminate|].
    intros c s Hn. by apply Hname in Hn.
  - split; [lia|]. split; [reflexivity|].
    eexists. split; [by rewrite alter_insert_eq|].
    split; [reflexivity|]. split; [by intros ? [= <-]|]. by eexists.
Qed.

(** The layers [L.geoJSON] makes for a list of features. *)
Lemma mapM_addData_ok (fs : list Feature) (w w' : World) (lids : list positive) :
  mapM addData fs w = (inr lids, w') ->
  (lastId w <= lastId w')%positive /\
  mapInstanceRef w' = mapInstanceRef w /\
  (forall id, (id < lastId w)%positive -> paths w' !! id = paths w !! id) /\
  forall lid, lid ∈ lids ->
    (lastId w <= lid < lastId w')%positive /\
    exists l,
      paths w' !! lid = Some l /\
      (forall label, _label l = Some label -> label_id label = Pos.succ lid) /\
      (forall c s, nameOf l = Some (c :: s) -> is_Some (_label l)).
Proof.
  revert w w' lids. induction fs as [|f fs IH]; intros w w' lids; simpl.
  - intros [= <- <-]. split; [lia|]. split; [done|]. split; [done|].
    by intros lid ?%elem_of_nil.
  - unfold bind at 1.
    destruct (addData f w) as [[e|lid] w1] eqn:Hadd; [discriminate|].
    unfold bind at 1.
    destruct (mapM addData fs w1) as [[e|rest] w2] eqn:Hrest; [discriminate|].
    unfold ret. intros [= <- <-].
    destruct (addData_ok _ _ _ _ Hadd)
      as (-> & Hlt & Hmap & l & Hpaths & _ & Hlab & Hnamed).
    destruct (IH _ _ _ Hrest) as (Hle & Hmap' & Hold & Hlids).
    split; [lia|]. split; [congruence|]. split.
    + intros id Hid. rewrite Hold by lia. rewrite Hpaths.
      apply lookup_insert_ne. lia.
    + intros lid [->|Hin]%elem_of_cons.
      * split; [lia|]. exists l. split; [|done].
        rewrite Hold by lia. rewrite Hpaths. apply lookup_insert_eq.
      * destruct (Hlids lid Hin) as (Hrange & Hl). split; [lia|done].
Qed.

Lemma removeLabel_ok (lid : positive) (w : World) :
  exists w1,
    removeLabel lid w = (inr tt, w1) /\
    (is_Some (mapInstanceRef w) -> is_Some (mapInstanceRef w1)).
Proof.
  unfold removeLabel, bind, get, onMapInstance, modify, ret.
  repeat case_match; eexists; (split; [reflexivity|]); simpl; try done.
  intros _. match goal with Hm : mapInstanceRef w = Some _ |- _ => rewrite Hm end.
  by eexists.
Qed.

Lemma forEach_removeLabel_ok (lids : list positive) (w : World) :
  exists w1,
    forEach lids removeLabel w = (inr tt, w1) /\
    (is_Some (mapInstanceRef w) -> is_Some (mapInstanceRef w1)).
Proof.
  revert w. induction lids as [|lid lids IH]; intros w; simpl.
  - by exists w.
  - unfold bind. destruct (removeLabel_ok lid w) as (w1 & -> & Hm).
    destruct (IH w1) as (w2 & -> & Hm'). exists w2. split; [done|]. tauto.
Qed.

(** After the render effect has run to its end on a mounted map with a
    loaded dataset, the group is rendered. *)
Lemma renderEffect_Rendered (w w' : World) (m : LMap) (features : list Feature) :
  mapInstanceRef w = Some m ->
  curacaoGeoJSON w = Some features ->
  renderEffect w = (inr tt, w') ->
  exists lids, Rendered w' lids /\ is_Some (mapInstanceRef w').
Proof.
  intros Hm Hdata. unfold renderEffect, bind at 1, get. rewrite Hm, Hdata.
  unfold bind at 1.
  set (clean := match geoJsonLayerRef w with Some _ => _ | None => _ end).
  assert (Hclean : exists w1, clean w = (inr tt, w1) /\
            is_Some (mapInstanceRef w1)).
  { unfold clean. destruct (geoJsonLayerRef w) as [old|].
    - unfold bind, onMapInstance, modify.
      destruct (forEach_removeLabel_ok old w) as (w1 & -> & Hmap).
      eexists. split; [reflexivity|]. simpl.
      destruct (Hmap ltac:(by eexists)) as [m1 ->]. by eexists.
    - exists w. split; [done|]. by eexists. }
  destruct Hclean as (w1 & -> & Hm1).
  unfold bind, modify.
  destruct (mapM addData _ w1) as [[e|lids] w2] eqn:Hmap; [discriminate|].
  intros [= <-].
  destruct (mapM_addData_ok _ _ _ _ Hmap) as (_ & Hmap2 & _ & Hlids).
  exists lids. split; [|simpl; congruence].
  split; simpl.
  - reflexivity.
  - intros lid Hin. destruct (Hlids lid Hin) as (_ & l & -> & _). by eexists.
  - intros lid1 lid2 l1 l2 label1 label2 Hin1 Hin2 Hl1 Hl2 Hb1 Hb2 Hid.
    destruct (Hlids lid1 Hin1) as (_ & k1 & Hk1 & Hlab1 & _).
    destruct (Hlids lid2 Hin2) as (_ & k2 & Hk2 & Hlab2 & _).
    simplify_eq. apply Hlab1 in Hb1. apply Hlab2 in Hb2. lia.
  - intros lid l c s Hin Hl Hn.
    destruct (Hlids lid Hin) as (_ & k & Hk & _ & Hnamed).
    simplify_eq. by eapply Hnamed.
Qed.

(** A selection keeps the group rendered, whether or not it returns
    normally. *)
Lemma selectArea_Rendered (a : jsstring) (layer : option positive)
  (w : World) (lids : list positive) :
  Rendered w lids -> Rendered (snd (selectArea a layer w)) lids.
Proof.
  intros [Hgroup Hstored Hapart Hlabels].
  rewrite selectArea_blocks. set (w0 := set_selectedArea (Some a) w).
  pose proof (PopupOnly_zoomAndPopup layer w0) as [_ Pgr _ _ Ppaths].
  destruct (zoomAndPopup layer w0 w0) as [r w1]. simpl in Pgr, Ppaths.
  assert (Hw2 : exists w2, StyleOnly w1 w2 /\
            snd match r with
                | inl e => (inl e, w1)
                | inr _ => restyleAll a w1
                end = w2).
  { destruct r as [e|[]]; eexists; (split; [|reflexivity]);
      [apply StyleOnly_refl|apply StyleOnly_restyleAll]. }
  destruct Hw2 as (w2 & [_ Sgr _ _ _ Spaths] & ->).
  assert (Hback : forall lid l2, paths w2 !! lid = Some l2 ->
            exists l, paths w !! lid = Some l /\
                      feature l2 = feature l /\ _label l2 = _label l).
  { intros lid l2 Hl2. specialize (Spaths lid). specialize (Ppaths lid).
    rewrite Hl2 in Spaths.
    inversion Spaths as [l1 ? (Hf1 & Hb1 & _) Hl1|]; subst.
    rewrite <- Hl1 in Ppaths.
    inversion Ppaths as [l ? (Hf & Hb & _) Hl|]; subst.
    exists l. split; [done|]. split; congruence. }
  split.
  - by rewrite Sgr, Pgr.
  - intros lid Hin. destruct (Hstored lid Hin) as [l Hl].
    specialize (Spaths lid). specialize (Ppaths lid).
    change (paths w0) with (paths w) in Ppaths. rewrite Hl in Ppaths.
    inversion Ppaths as [? l1 _ Hx Hl1|]; subst. rewrite <- Hl1 in Spaths.
    inversion Spaths as [? l2 _ Hy Hl2|]; subst. by eexists.
  - intros lid1 lid2 l1 l2 label1 label2 Hin1 Hin2 Hl1 Hl2 Hb1 Hb2 Hid.
    destruct (Hback _ _ Hl1) as (k1 & Hk1 & _ & Hlab1).
    destruct (Hback _ _ Hl2) as (k2 & Hk2 & _ & Hlab2).
    eapply (Hapart lid1 lid2 k1 k2 label1 label2); try done; congruence.
  - intros lid l c s Hin Hl Hn.
    destruct (Hback _ _ Hl) as (k & Hk & Hf & Hlab).
    rewrite Hlab. eapply (Hlabels lid k c s); [done|done|].
    unfold nameOf in *. by rewrite <- Hf.
Qed.

End RenderProps.

(** The worked worlds are rendered worlds. *)
Lemma willemstadSelected_Rendered :
  Rendered willemstadSelected [1%positive; 3%positive].
Proof.
  split.
  - vm_compute. reflexivity.
  - intros lid Hin.
    repeat (apply elem_of_cons in Hin as [->|Hin]);
      [vm_compute; eauto..|by apply elem_of_nil in Hin].
  - intros lid1 lid2 l1 l2 label1 label2 Hin1 Hin2.
    repeat (apply elem_of_cons in Hin1 as [->|Hin1]);
      [| |by apply elem_of_nil in Hin1];
      (repeat (apply elem_of_cons in Hin2 as [->|Hin2]);
        [| |by apply elem_of_nil in Hin2]);
      try reflexivity;
      vm_compute; intros; simplify_eq/=.
  - intros lid l c s Hin.
    repeat (apply elem_of_cons in Hin as [->|Hin]);
      [| |by apply elem_of_nil in Hin];
      vm_compute; intros; simplify_eq/=; eauto.
Qed.

(** C1 (counterexample): Willemstad is selected and the other polygon has
    no [NAME], so it is the area "Unknown".  Selecting "Unknown" compares
    that name with the absent [NAME] of every layer: the nameless polygon
    stays in default style. *)
Lemma selectArea_nameless_counterexample :
  ~ @exclusiveClaim offline namelessWorld.
Proof.
  intros Hclaim.
  destruct (paths namelessWorld !! 1%positive) as [lA|] eqn:HlA;
    [|by vm_compute in HlA].
  destruct (paths namelessWorld !! 3%positive) as [lB|] eqn:HlB;
    [|by vm_compute in HlB].
  pose proof HlA as HA. vm_compute in HA. injection HA as HA.
  pose proof HlB as HB. vm_compute in HB. injection HB as HB.
  assert (HnA : areaNameOf lA = js "Willemstad") by (by rewrite <- HA).
  assert (HnB : areaNameOf lB = js "Unknown") by (by rewrite <- HB).
  destruct (Hclaim [1%positive; 3%positive] 1%positive 3%positive lA lB None
              (snd (@selectArea offline (js "Unknown") None namelessWorld)))
    as [(l' & Hl' & (Hweight & _) & _) _].
  - vm_compute. reflexivity.
  - apply list_elem_of_here.
  - apply list_elem_of_further, list_elem_of_here.
  - exact HlA.
  - exact HlB.
  - rewrite HnA, HnB. discriminate.
  - exists lA. split; [exact HlA|]. split.
    + rewrite <- HA. vm_compute. done.
    + exists {| onMap := {[2%positive]}; view := InitialView; openPopup := None |},
        {| label_id := 2; label_center := (numZ 1, numZ 2);
           label_text := js "Willemstad" |}.
      split; [vm_compute; reflexivity|].
      split; [rewrite <- HA; vm_compute; reflexivity|].
      simpl. by apply elem_of_singleton.
  - rewrite HnB. vm_compute. reflexivity.
  - vm_compute in Hl'. injection Hl' as <-. vm_compute in Hweight. discriminate.
Qed.

(** The style function, which the render effect applies, does treat the
    nameless polygon as "Unknown". *)
Example style_nameless_selected :
  weight (style (Some (js "Unknown")) namelessFeature) = Some 3.
Proof. reflexivity. Qed.

(** C1 (witness): Willemstad is selected; selecting Bandabou from the
    list leaves Bandabou (layer 3) in Selected state and Willemstad
    (layer 1) in default state. *)
Lemma selectArea_exclusive_witness :
  selectedArea (snd (@selectArea offline (js "Bandabou") None willemstadSelected))
    = Some (js "Bandabou") /\
  carriesSelected
    (snd (@selectArea offline (js "Bandabou") None willemstadSelected)) 3 /\
  carriesDefault
    (snd (@selectArea offline (js "Bandabou") None willemstadSelected)) 1.
Proof.
  destruct (@selectArea_exclusive offline (js "Bandabou") None
              willemstadSelected
              (snd (@selectArea offline (js "Bandabou") None willemstadSelected))
              [1%positive; 3%positive]
              {| onMap := {[2%positive]}; view := InitialView; openPopup := None |})
    as (Hsel & Hselected & Hdefault & _).
  - vm_compute. reflexivity.
  - exact willemstadSelected_Rendered.
  - vm_compute. reflexivity.
  - split; [exact Hsel|]. split.
    + eapply (Hselected 3%positive _ 66%N (js "andabou"));
        [apply list_elem_of_further, list_elem_of_here| | |].
      * vm_compute. reflexivity.
      * vm_compute. reflexivity.
      * reflexivity.
    + eapply (Hdefault 1%positive); [apply list_elem_of_here| |].
      * vm_compute. reflexivity.
      * vm_compute. discriminate.
Defined.

(** C7 (worked run): a list click on a name that no layer carries.  The
    name is recorded and the pass runs, leaving every layer in default
    style; the view is untouched and nothing was requested. *)
Example selectArea_without_layer_run :
  let w' := snd (@selectArea offline (js "Nowhere") None willemstadSelected) in
  findAreaLayer (js "Nowhere") willemstadSelected
    = (inr None, willemstadSelected) /\
  selectedArea w' = Some (js "Nowhere") /\
  (weight ∘ options <$> paths w' !! 1%positive) = Some (Some 1) /\
  (view <$> mapInstanceRef w') = Some InitialView /\
  requests w' = [].
Proof. vm_compute. done. Qed.


(** * Further properties *)

(** ** The loader's failures, order and church list *)

Lemma mapE_inl {A B} (f : A -> exn + B) (l : list A) (x : A) (e : exn) :
  x ∈ l -> f x = inl e -> exists e', mapE f l = inl e'.
Proof.
  induction l as [|y l IH]; intros Hin Hx.
  - by apply elem_of_nil in Hin.
  - simpl. apply elem_of_cons in Hin as [<-|Hin].
    + rewrite Hx. by eexists.
    + destruct (f y); [by eexists|].
      destruct (IH Hin Hx) as [e' ->]. by eexists.
Qed.

Lemma StronglySorted_List_filter {A} (R : A -> A -> Prop) (f : A -> bool)
  (l : list A) :
  StronglySorted R l -> StronglySorted R (List.filter f l).
Proof.
  induction 1 as [|x l Hl IH Hx]; simpl; [constructor|].
  destruct (f x); [|exact IH].
  constructor; [exact IH|].
  apply Forall_forall. intros y Hy. apply elem_of_List_filter in Hy as [Hy _].
  rewrite Forall_forall in Hx. by apply Hx.
Qed.

(** Insertion sort with a comparator that is total and transitive. *)
Section Sorting.
Context {A : Type} (cmp : A -> A -> Z).
Hypothesis connex : forall a b, 0 < cmp a b -> cmp b a <= 0.
Hypothesis trans : forall a b c, cmp a b <= 0 -> cmp b c <= 0 -> cmp a c <= 0.

Lemma insertBy_StronglySorted (x : A) (l : list A) :
  StronglySorted (fun a b => cmp a b <= 0) l ->
  StronglySorted (fun a b => cmp a b <= 0) (insertBy cmp x l).
Proof.
  induction 1 as [|y l Hl IH Hy]; simpl.
  - repeat constructor.
  - destruct (cmp x y <=? 0) eqn:Hxy.
    + apply Z.leb_le in Hxy. constructor; [by constructor|].
      constructor; [done|].
      eapply Forall_impl; [exact Hy|]. intros z Hz. by eapply trans.
    + apply Z.leb_gt in Hxy. constructor; [exact IH|].
      rewrite insertBy_Permutation. constructor; [by apply connex|done].
Qed.

Lemma sortBy_StronglySorted (l : list A) :
  StronglySorted (fun a b => cmp a b <= 0) (sortBy cmp l).
Proof.
  induction l as [|x l IH]; [constructor|].
  unfold sortBy in *. simpl. by apply insertBy_StronglySorted.
Qed.

End Sorting.

Section LoaderMore.
Context `{Platform}.

(** X1: the loader swallows every failure.  When the fetch or the
    parsing of the body rejects, [loadGeoJSON] returns normally and
    leaves the world as it was, in both variants.  When the dataset
    arrives but one of its Polygon, MultiPolygon or Point features has no
    properties object (in the basic variant: any feature), the loader
    still returns normally, having stored the dataset and nothing else:
    the area list, the filtered list and the church list keep the values
    they had. *)
Theorem loadGeoJSON_swallows_errors (features : list Feature) (w : World) :
  loadGeoJSON None w = (inr tt, w) /\
  loadGeoJSON_basic None w = (inr tt, w) /\
  (forall f : Feature,
     f ∈ features -> properties f = None ->
     isPolygonType (geometry f) || isPointType (geometry f) = true ->
     loadGeoJSON (Some features) w
     = (inr tt, set_curacaoGeoJSON (Some features) w)) /\
  (forall f : Feature,
     f ∈ features -> properties f = None ->
     loadGeoJSON_basic (Some features) w
     = (inr tt, set_curacaoGeoJSON (Some features) w)).
Proof.
  split; [reflexivity|]. split; [reflexivity|]. split.
  - intros f Hin Hp Hg.
    assert (Ha : toAreaInfo f = inl TypeError) by (unfold toAreaInfo; by rewrite Hp).
    assert (Hc : toChurchFeature f = inl TypeError)
      by (unfold toChurchFeature; by rewrite Hp).
    unfold loadGeoJSON, tryCatch, bind, modify, lift, ret. simpl.
    destruct (mapE toAreaInfo _) as [e|areaList] eqn:Hareas; [reflexivity|].
    destruct (mapE toChurchFeature _) as [e|churchList] eqn:Hchurches; [reflexivity|].
    exfalso. apply orb_true_iff in Hg as [Hg|Hg].
    + destruct (mapE_inl toAreaInfo
                  (List.filter (fun f => isPolygonType (geometry f)) features)
                  f TypeError) as [e He]; [by apply elem_of_List_filter|done|].
      congruence.
    + destruct (mapE_inl toChurchFeature
                  (List.filter (fun f => isPointType (geometry f)) features)
                  f TypeError) as [e He]; [by apply elem_of_List_filter|done|].
      congruence.
  - intros f Hin Hp.
    assert (Ha : toAreaInfo f = inl TypeError) by (unfold toAreaInfo; by rewrite Hp).
    unfold loadGeoJSON_basic, tryCatch, bind, modify, lift, ret. simpl.
    destruct (mapE_inl toAreaInfo features f TypeError Hin Ha) as [e ->].
    reflexivity.
Qed.

(** X2: the lists of the panel stay in the order of the names.  Provided
    [localeCompare] is a total and transitive comparison, the area list
    and the filtered list are sorted by name in the initial world, and
    stay sorted through a load in either variant, whatever the response
    and whether or not the load fails, and through the search effect:
    what the panel shows is always in alphabetical order. *)
Theorem area_lists_stay_sorted (response : option (list Feature)) (w : World) :
  (forall a b : jsstring, 0 < localeCompare a b -> localeCompare b a <= 0) ->
  (forall a b c : jsstring,
     localeCompare a b <= 0 -> localeCompare b c <= 0 -> localeCompare a c <= 0) ->
  listSorted initialWorld /\
  (listSorted w -> listSorted (snd (loadGeoJSON response w))) /\
  (listSorted w -> listSorted (snd (loadGeoJSON_basic response w))) /\
  (listSorted w -> listSorted (snd (searchEffect w))).
Proof.
  intros Hconnex Htrans.
  assert (Hsort : forall l, StronglySorted nameLe (sortBy byName l)).
  { intros l. apply sortBy_StronglySorted; unfold byName.
    - intros a b. apply Hconnex.
    - intros a b c. apply Htrans. }
  split; [split; constructor|]. split; [|split].
  - intros Hw. unfold loadGeoJSON, tryCatch, bind, modify, lift, ret.
    destruct response as [features|]; [|exact Hw]. simpl.
    destruct (mapE toAreaInfo _) as [e|areaList]; [exact Hw|].
    destruct (mapE toChurchFeature _) as [e|churchList]; [exact Hw|].
    split; apply Hsort.
  - intros Hw. unfold loadGeoJSON_basic, tryCatch, bind, modify, lift, ret.
    destruct response as [features|]; [|exact Hw]. simpl.
    destruct (mapE toAreaInfo _) as [e|areaList]; [exact Hw|].
    split; apply Hsort.
  - intros [Hareas _]. rewrite searchEffect_run. split; [exact Hareas|]. simpl.
    destruct (bool_decide _); [exact Hareas|].
    by apply StronglySorted_List_filter.
Qed.

(** X3: the church list of the full variant.  When every feature of the
    dataset carries a properties object, the church list after the load
    holds one record per Point feature, in the dataset's order, and none
    from any other geometry; each record keeps the feature's coordinates
    and takes its name, area, photo and description from the feature's
    properties, "Unknown Church" and "Unknown Area" standing in for an
    absent or empty name or area; so no church has an empty name or an
    empty area. *)
Theorem loadGeoJSON_churches (features : list Feature) (w : World) :
  Forall hasProperties features ->
  Forall2 churchOf
    (List.filter (fun f => isPointType (geometry f)) features)
    (churchesData (snd (loadGeoJSON (Some features) w))) /\
  Forall (fun church => church_name church <> [] /\ church_area church <> [])
    (churchesData (snd (loadGeoJSON (Some features) w))).
Proof.
  intros Hall.
  destruct (mapE_inr toAreaInfo
              (List.filter (fun f => isPolygonType (geometry f)) features))
    as (areaList & Hareas & _).
  { apply Forall_forall. intros f Hf. apply elem_of_List_filter in Hf as [Hf _].
    apply toAreaInfo_total. rewrite Forall_forall in Hall. by apply Hall. }
  destruct (mapE_inr toChurchFeature
              (List.filter (fun f => isPointType (geometry f)) features))
    as (churchList & Hchurches & Hall2).
  { apply Forall_forall. intros f Hf. apply elem_of_List_filter in Hf as [Hf Hg].
    apply toChurchFeature_total; [|done].
    rewrite Forall_forall in Hall. by apply Hall. }
  unfold loadGeoJSON, tryCatch, bind, modify, lift. simpl.
  rewrite Hareas, Hchurches. simpl.
  assert (Hshape : Forall2 churchOf
    (List.filter (fun f => isPointType (geometry f)) features) churchList).
  { eapply Forall2_impl; [exact Hall2|]. intros f church.
    unfold toChurchFeature, churchOf.
    destruct (properties f) as [p|]; [|discriminate].
    destruct (geometry f) as [xy| | | | | |]; try discriminate.
    intros [= <-]. exists p, xy. simpl.
    repeat split; by destruct (p_photo p) as [[]|], (p_description p) as [[]|]. }
  split; [exact Hshape|].
  apply Forall_forall. intros church Hin.
  destruct (proj1 (list_elem_of_lookup _ _) Hin) as [i Hi].
  destruct (Forall2_lookup_r _ _ _ _ _ Hshape Hi)
    as (f & _ & p & xy & _ & _ & _ & -> & -> & _).
  split; [by destruct (p_name p) as [[]|]|by destruct (p_area p) as [[]|]].
Qed.

End LoaderMore.

(** A polygon without properties makes the load stop after the dataset
    is stored: the scenario's areas are never listed. *)
Example loadGeoJSON_bare_polygon :
  @loadGeoJSON offline (Some (bareFeature :: scenario)) initialWorld
  = (inr tt, set_curacaoGeoJSON (Some (bareFeature :: scenario)) initialWorld).
Proof. vm_compute. reflexivity. Qed.

(** The stand-in platform's comparison is total and transitive. *)
Lemma compareUnits_connex (a b : jsstring) :
  0 < Example.compareUnits a b -> Example.compareUnits b a <= 0.
Proof.
  revert b. induction a as [|x a IH]; intros [|y b]; simpl; try lia.
  destruct (N.ltb_spec x y), (N.ltb_spec y x); try lia. apply IH.
Qed.

Lemma compareUnits_trans (a b c : jsstring) :
  Example.compareUnits a b <= 0 -> Example.compareUnits b c <= 0 ->
  Example.compareUnits a c <= 0.
Proof.
  revert b c. induction a as [|x a IH]; intros [|y b] [|z c]; simpl; try lia.
  destruct (N.ltb_spec x y), (N.ltb_spec y x), (N.ltb_spec y z),
    (N.ltb_spec z y), (N.ltb_spec x z), (N.ltb_spec z x); try lia.
  apply IH.
Qed.

(** X2 (witness): the scenario loaded from the initial world, on the
    stand-in platform. *)
Lemma area_lists_stay_sorted_witness :
  @listSorted offline initialWorld /\
  (@listSorted offline initialWorld ->
   @listSorted offline (snd (@loadGeoJSON offline (Some scenario) initialWorld))) /\
  (@listSorted offline initialWorld ->
   @listSorted offline
     (snd (@loadGeoJSON_basic offline (Some scenario) initialWorld))) /\
  (@listSorted offline initialWorld ->
   @listSorted offline (snd (@searchEffect offline initialWorld))).
Proof.
  apply (@area_lists_stay_sorted offline (Some scenario) initialWorld).
  - exact compareUnits_connex.
  - exact compareUnits_trans.
Defined.

(** X3 (witness): the scenario's dataset, whose one Point feature is the
    Fortkerk. *)
Lemma loadGeoJSON_churches_witness :
  Forall2 churchOf
    (List.filter (fun f => isPointType (geometry f)) scenario)
    (churchesData (snd (@loadGeoJSON offline (Some scenario) initialWorld))) /\
  Forall (fun church => church_name church <> [] /\ church_area church <> [])
    (churchesData (snd (@loadGeoJSON offline (Some scenario) initialWorld))).
Proof.
  apply (@loadGeoJSON_churches offline scenario initialWorld).
  exact scenario_hasProperties.
Defined.


(** ** What a render makes *)

Lemma labelIds_cons (ps : gmap positive PathLayer) (lid : positive)
  (lids : list positive) :
  labelIds ps (lid :: lids) = labelIds ps [lid] ++ labelIds ps lids.
Proof. unfold labelIds. simpl. by destruct (label_id <$> _). Qed.

Section RenderMore.
Context `{Platform}.

(** The three ways [onEachFeature] can end. *)
Lemma onEachFeature_frame (f : Feature) (w : World) :
  (exists e, onEachFeature f w = (inl e, w) /\ labelPosition (geometry f) = inl e) \/
  (onEachFeature f w = (inr None, w) /\
   forall c s, properties f ≫= NAME <> Some (c :: s)) \/
  (exists label c s,
     onEachFeature f w = (inr (Some label), set_lastId (Pos.succ (lastId w)) w) /\
     label_id label = lastId w /\ properties f ≫= NAME = Some (c :: s)).
Proof.
  unfold onEachFeature.
  destruct (properties f) as [props|]; simpl; [|right; left; by split].
  destruct (NAME props) as [[|c s]|]; simpl;
    [right; left; by split| |right; left; by split].
  unfold bind, lift, stamp, ret.
  destruct (labelPosition (geometry f)) as [e|center].
  - left. by exists e.
  - right. right. by eexists _, c, s.
Qed.

(** One feature through [L.geoJSON]: the label position cannot be
    computed, or a fresh layer is stored under the next stamp. *)
Lemma addData_layer (f : Feature) (w : World) :
  (exists e w', addData f w = (inl e, w') /\ labelPosition (geometry f) = inl e /\
                geoJsonLayerRef w' = geoJsonLayerRef w /\
                selectedArea w' = selectedArea w) \/
  (exists w' l,
     addData f w = (inr (lastId w), w') /\
     (lastId w < lastId w')%positive /\
     (lastId w' <= Pos.succ (Pos.succ (lastId w)))%positive /\
     mapInstanceRef w' = mapInstanceRef w /\
     selectedArea w' = selectedArea w /\
     geoJsonLayerRef w' = geoJsonLayerRef w /\
     paths w' = <[lastId w := l]> (paths w) /\
     freshLayer (selectedArea w) f l /\
     (forall label, _label l = Some label -> label_id label = Pos.succ (lastId w))).
Proof.
  unfold addData, bind, stamp, get, modify. simpl.
  set (w1 := set_paths _ _).
  destruct (onEachFeature_frame f w1)
    as [(e & -> & He)|[(-> & Hname)|(label & c & s & -> & Hid & Hname)]].
  - left. by exists e, w1.
  - right. eexists _, _. split; [reflexivity|]. simpl.
    split; [lia|]. split; [lia|]. split; [done|]. split; [done|]. split; [done|].
    split; [by rewrite alter_insert_eq|].
    split; [|discriminate]. split; [done|]. split; [done|]. split; [done|]. simpl.
    split; [by intros [? [=]]|]. intros (c & s & Hn). by apply Hname in Hn.
  - right. eexists _, _. split; [reflexivity|]. simpl.
    split; [lia|]. split; [lia|]. split; [done|]. split; [done|]. split; [done|].
    split; [by rewrite alter_insert_eq|].
    split; [|by intros ? [= <-]]. split; [done|]. split; [done|]. split; [done|]. simpl.
    split; [intros _; by exists c, s|by eexists].
Qed.

Lemma mapM_addData_layers (fs : list Feature) (w w' : World) (lids : list positive) :
  mapM addData fs w = (inr lids, w') ->
  (lastId w <= lastId w')%positive /\
  mapInstanceRef w' = mapInstanceRef w /\
  selectedArea w' = selectedArea w /\
  (forall id, (id < lastId w)%positive -> paths w' !! id = paths w !! id) /\
  NoDup lids /\
  Forall (fun lid => (lastId w <= lid < lastId w')%positive) lids /\
  Forall2 (fun lid f =>
             exists l, paths w' !! lid = Some l /\ freshLayer (selectedArea w) f l /\
                       forall label, _label l = Some label ->
                                     (lastId w <= label_id label)%positive)
    lids fs.
Proof.
  revert w w' lids. induction fs as [|f fs IH]; intros w w' lids; simpl.
  - intros [= <- <-]. split; [lia|]. repeat split; try done; constructor.
  - unfold bind at 1.
    destruct (addData_layer f w)
      as [(e & w1 & -> & _)
         |(w1 & l & -> & Hlt & _ & Hmap & Hsel & _ & Hpaths & Hfresh & Hlab)];
      [discriminate|].
    unfold bind at 1.
    destruct (mapM addData fs w1) as [[e|rest] w2] eqn:Hrest; [discriminate|].
    unfold ret. intros [= <- <-].
    destruct (IH _ _ _ Hrest) as (Hle & Hmap' & Hsel' & Hold & Hnd & Hrange & Hall).
    split; [lia|]. split; [congruence|]. split; [congruence|]. split; [|split; [|split]].
    + intros id Hid. rewrite Hold by lia. rewrite Hpaths.
      apply lookup_insert_ne. lia.
    + constructor; [|done]. intros Hin.
      rewrite Forall_forall in Hrange. apply Hrange in Hin. lia.
    + constructor; [lia|]. eapply Forall_impl; [exact Hrange|]. simpl. lia.
    + constructor.
      * exists l. split; [|split; [done|]].
        -- rewrite Hold by lia. rewrite Hpaths. apply lookup_insert_eq.
        -- intros label Hl. apply Hlab in Hl. lia.
      * eapply Forall2_impl; [exact Hall|]. simpl.
        intros lid f' (l' & Hl' & Hf' & Hlab'). exists l'.
        split; [done|]. split; [by rewrite <- Hsel|].
        intros label Hl. apply Hlab' in Hl. lia.
Qed.

(** Taking the labels of the old group off the map. *)
Lemma removeLabel_run (lid : positive) (w : World) (m : LMap) :
  mapInstanceRef w = Some m ->
  exists m1,
    removeLabel lid w = (inr tt, set_mapInstanceRef (Some m1) w) /\
    onMap m1 = onMap m ∖ list_to_set (labelIds (paths w) [lid]) /\
    view m1 = view m /\ openPopup m1 = openPopup m.
Proof.
  intros Hm. unfold removeLabel, bind, get, onMapInstance, modify, ret, labelIds.
  rewrite Hm. simpl.
  assert (Hsame : w = set_mapInstanceRef (Some m) w).
  { destruct w; simpl in *. by subst. }
  destruct (paths w !! lid) as [l|]; simpl.
  - destruct (_label l) as [label|]; simpl.
    + unfold hasLayer. case_bool_decide as Hon; simpl.
      * rewrite Hm. simpl. eexists. split; [reflexivity|]. simpl.
        split; [set_solver|done].
      * exists m. split; [by rewrite <- Hsame|]. split; [set_solver|done].
    + exists m. split; [by rewrite <- Hsame|]. split; [set_solver|done].
  - exists m. split; [by rewrite <- Hsame|]. split; [set_solver|done].
Qed.

Lemma forEach_removeLabel_run (lids : list positive) (w : World) (m : LMap) :
  mapInstanceRef w = Some m ->
  exists m1,
    forEach lids removeLabel w = (inr tt, set_mapInstanceRef (Some m1) w) /\
    onMap m1 = onMap m ∖ list_to_set (labelIds (paths w) lids) /\
    view m1 = view m /\ openPopup m1 = openPopup m.
Proof.
  revert w m. induction lids as [|lid lids IH]; intros w m Hm; cbn [forEach].
  - exists m. split; [|split; [set_solver|done]].
    unfold ret. f_equal. destruct w; simpl in *. by subst.
  - unfold bind.
    destruct (removeLabel_run lid w m Hm) as (m1 & -> & Hon1 & Hv1 & Hp1).
    destruct (IH (set_mapInstanceRef (Some m1) w) m1 eq_refl)
      as (m2 & -> & Hon2 & Hv2 & Hp2).
    exists m2. split; [reflexivity|].
    change (paths (set_mapInstanceRef (Some m1) w)) with (paths w) in Hon2.
    split; [|split; congruence].
    rewrite Hon2, Hon1, (labelIds_cons _ lid lids), list_to_set_app_L.
    generalize (list_to_set (labelIds (paths w) [lid]) : gset positive).
    generalize (list_to_set (labelIds (paths w) lids) : gset positive).
    generalize (onMap m). clear. intros X A B. set_solver.
Qed.

(** X4: what the render effect makes.  Without a map, or before the
    dataset has arrived, the effect does nothing.  Otherwise, when it
    runs to its end, the group it stores has one layer per Polygon or
    MultiPolygon feature of the dataset, in the dataset's order and each
    under a stamp of its own (Point features are not rendered); every
    layer carries its feature, the style that [style] gives the feature
    under the current selection, no popup, and a label exactly when the
    feature has a non-empty [NAME].  The selection is unchanged, the view
    is unchanged, and on the map the labels of the previous group are
    gone and nothing is added: in a world whose stamps in use are below
    the next stamp, every label of the new group is off the map, the
    selected area's included. *)
Theorem renderEffect_layers (w : World) :
  ((mapInstanceRef w = None \/ curacaoGeoJSON w = None) ->
     renderEffect w = (inr tt, w)) /\
  (forall w' m features,
     mapInstanceRef w = Some m -> curacaoGeoJSON w = Some features ->
     renderEffect w = (inr tt, w') ->
     exists lids m',
       geoJsonLayerRef w' = Some lids /\ NoDup lids /\
       Forall2 (fun lid f =>
                  exists l, paths w' !! lid = Some l /\
                            freshLayer (selectedArea w) f l)
         lids (List.filter (fun f => isPolygonType (geometry f)) features) /\
       selectedArea w' = selectedArea w /\
       mapInstanceRef w' = Some m' /\
       onMap m' = onMap m ∖ list_to_set
                    (labelIds (paths w) (default [] (geoJsonLayerRef w))) /\
       view m' = view m /\
       ((forall id, id ∈ onMap m -> (id < lastId w)%positive) ->
        forall lid l, lid ∈ lids -> paths w' !! lid = Some l -> labelHidden w' l)).
Proof.
  split.
  { unfold renderEffect, bind, get. intros [Hm|Hd].
    - by rewrite Hm.
    - rewrite Hd. by destruct (mapInstanceRef w). }
  intros w' m features Hm Hdata.
  unfold renderEffect, bind at 1, get. rewrite Hm, Hdata.
  unfold bind at 1.
  set (clean := match geoJsonLayerRef w with Some _ => _ | None => _ end).
  assert (Hclean : exists m1,
    clean w = (inr tt, set_mapInstanceRef (Some m1) w) /\
    onMap m1 = onMap m ∖ list_to_set
                 (labelIds (paths w) (default [] (geoJsonLayerRef w))) /\
    view m1 = view m).
  { unfold clean. destruct (geoJsonLayerRef w) as [old|]; simpl.
    - unfold bind, onMapInstance, modify.
      destruct (forEach_removeLabel_run old w m Hm) as (m1 & -> & Hon & Hv & _).
      simpl. eexists. split; [reflexivity|].
      destruct (bool_decide _); simpl; by split.
    - exists m. split; [|split; [set_solver|done]].
      unfold ret. f_equal. destruct w; simpl in *. by subst. }
  destruct Hclean as (m1 & -> & Hon & Hv).
  unfold bind, modify.
  destruct (mapM addData _ _) as [[e|lids] w2] eqn:Hmap; [discriminate|].
  intros [= <-].
  destruct (mapM_addData_layers _ _ _ _ Hmap)
    as (_ & Hmap2 & Hsel & _ & Hnd & _ & Hall).
  simpl in Hmap2, Hsel, Hall.
  exists lids, m1. split; [reflexivity|]. split; [exact Hnd|]. simpl.
  split; [|split; [exact Hsel|split; [exact Hmap2|split; [exact Hon|split; [exact Hv|]]]]].
  - eapply Forall2_impl; [exact Hall|]. simpl.
    intros lid f (l & Hl & Hf & _). by exists l.
  - intros Hbelow lid l Hin Hl m' label Hm' Hlab Hshown.
    simpl in Hm', Hl. rewrite Hmap2 in Hm'. simplify_eq.
    destruct (proj1 (list_elem_of_lookup _ _) Hin) as [i Hi].
    destruct (Forall2_lookup_l _ _ _ _ _ Hall Hi) as (f & _ & l' & Hl' & _ & Hge).
    simplify_eq. apply Hge in Hlab.
    assert (label_id label ∈ onMap m) as Hold by set_solver.
    apply Hbelow in Hold. lia.
Qed.

Lemma labelPosition_degenerate (g : Geometry) :
  degenerateRing g = true -> exists e, labelPosition g = inl e.
Proof.
  destruct g as [| | | |[|[|xy [|]] rings]| |]; try discriminate; intros _.
  - by exists TypeError.
  - exists InvalidLatLng. by destruct xy.
Qed.

Lemma addData_fails (f : Feature) (props : Properties) (c : N) (s : jsstring)
  (e : exn) (w : World) :
  properties f = Some props -> NAME props = Some (c :: s) ->
  labelPosition (geometry f) = inl e ->
  exists w', addData f w = (inl e, w') /\ geoJsonLayerRef w' = geoJsonLayerRef w /\
             selectedArea w' = selectedArea w.
Proof.
  intros Hp Hn He. unfold addData, bind, stamp, get, modify. simpl.
  unfold onEachFeature. rewrite Hp, Hn. unfold bind, lift. rewrite He.
  by eexists.
Qed.

Lemma mapM_addData_fails (fs : list Feature) (f : Feature) (props : Properties)
  (c : N) (s : jsstring) (e : exn) (w : World) :
  f ∈ fs -> properties f = Some props -> NAME props = Some (c :: s) ->
  labelPosition (geometry f) = inl e ->
  exists e' w', mapM addData fs w = (inl e', w') /\
                geoJsonLayerRef w' = geoJsonLayerRef w /\
                selectedArea w' = selectedArea w.
Proof.
  intros Hin Hp Hn He. revert w. induction fs as [|f' fs IH]; intros w.
  - by apply elem_of_nil in Hin.
  - simpl. unfold bind at 1. apply elem_of_cons in Hin as [<-|Hin].
    + destruct (addData_fails f props c s e w Hp Hn He) as (w' & -> & Hg).
      by exists e, w'.
    + destruct (addData_layer f' w)
        as [(e' & w1 & -> & _ & Hg)|(w1 & l & -> & _ & _ & _ & Hs & Hg & _)].
      * by exists e', w1.
      * unfold bind at 1.
        destruct (IH Hin w1) as (e' & w2 & -> & Hg2 & Hs2).
        exists e', w2. split; [done|]. split; congruence.
Qed.

(** X5: one degenerate polygon stops the whole render.  When the
    dataset holds a Polygon feature with a non-empty [NAME] whose
    coordinates have no ring, or whose first ring is a single vertex,
    the render effect throws (the label position is [NaN], which
    [L.latLng] rejects, or the missing ring cannot be read) and the group
    reference is not updated: it still names the group of the previous
    render, or none.  The selection is unchanged. *)
Theorem renderEffect_degenerate_ring (w : World) (m : LMap)
  (features : list Feature) (f : Feature) (props : Properties)
  (c : N) (s : jsstring) :
  mapInstanceRef w = Some m -> curacaoGeoJSON w = Some features ->
  f ∈ features -> properties f = Some props -> NAME props = Some (c :: s) ->
  degenerateRing (geometry f) = true ->
  exists e w',
    renderEffect w = (inl e, w') /\
    geoJsonLayerRef w' = geoJsonLayerRef w /\
    selectedArea w' = selectedArea w.
Proof.
  intros Hm Hdata Hin Hp Hn Hdeg.
  assert (Hpoly : isPolygonType (geometry f) = true).
  { destruct (geometry f); try discriminate; reflexivity. }
  destruct (labelPosition_degenerate _ Hdeg) as [e0 He0].
  unfold renderEffect, bind at 1, get. rewrite Hm, Hdata.
  unfold bind at 1.
  set (clean := match geoJsonLayerRef w with Some _ => _ | None => _ end).
  assert (Hclean : exists m1, clean w = (inr tt, set_mapInstanceRef (Some m1) w)).
  { unfold clean. destruct (geoJsonLayerRef w) as [old|]; simpl.
    - unfold bind, onMapInstance, modify.
      destruct (forEach_removeLabel_run old w m Hm) as (m1 & -> & _).
      simpl. by eexists.
    - exists m. unfold ret. f_equal. destruct w; simpl in *. by subst. }
  destruct Hclean as (m1 & ->).
  unfold bind.
  destruct (mapM_addData_fails
              (List.filter (fun f => isPolygonType (geometry f)) features)
              f props c s e0 (set_mapInstanceRef (Some m1) w))
    as (e & w' & Hrun & Hg & Hs); [by apply elem_of_List_filter|done..|].
  rewrite Hrun. by exists e, w'.
Qed.

End RenderMore.

(** X4 (witness): the scenario rendered on the freshly mounted map. *)
Lemma renderEffect_layers_witness :
  exists lids m',
    geoJsonLayerRef rendered = Some lids /\ NoDup lids /\
    Forall2 (fun lid f =>
               exists l, paths rendered !! lid = Some l /\
                         freshLayer (selectedArea mounted) f l)
      lids (List.filter (fun f => isPolygonType (geometry f)) scenario) /\
    selectedArea rendered = selectedArea mounted /\
    mapInstanceRef rendered = Some m' /\
    onMap m' = onMap emptyMap ∖ list_to_set
                 (labelIds (paths mounted) (default [] (geoJsonLayerRef mounted))) /\
    view m' = view emptyMap /\
    ((forall id, id ∈ onMap emptyMap -> (id < lastId mounted)%positive) ->
     forall lid l, lid ∈ lids -> paths rendered !! lid = Some l ->
                   labelHidden rendered l).
Proof.
  apply (proj2 (@renderEffect_layers offline mounted) rendered emptyMap scenario).
  - vm_compute. reflexivity.
  - vm_compute. reflexivity.
  - vm_compute. reflexivity.
Defined.

(** X5 (witness): a dataset with Willemstad and a one-vertex polygon
    named "Pin". *)
Lemma renderEffect_degenerate_ring_witness :
  exists e w',
    @renderEffect offline withPin = (inl e, w') /\
    geoJsonLayerRef w' = geoJsonLayerRef withPin /\
    selectedArea w' = selectedArea withPin.
Proof.
  apply (@renderEffect_degenerate_ring offline withPin emptyMap
           [areaFeature (js "Willemstad") 150000; pinFeature]
           pinFeature (named (js "Pin")) 80%N (js "in")).
  - vm_compute. reflexivity.
  - vm_compute. reflexivity.
  - apply list_elem_of_further, list_elem_of_here.
  - reflexivity.
  - reflexivity.
  - reflexivity.
Defined.

Example renderEffect_pin :
  fst (@renderEffect offline withPin) = inl InvalidLatLng.
Proof. vm_compute. reflexivity. Qed.


(** ** Requests and popup content *)

Lemma numGt_length (n : nat) :
  numGt (numZ (Z.of_nat n)) 300 = bool_decide (300 < n)%nat.
Proof.
  unfold numGt, numZ, Qle_bool. simpl.
  case_bool_decide; destruct (Z.leb_spec (Z.of_nat n * 1) 300); simpl; lia.
Qed.

Lemma freshMarkers_length (start : positive) (cs : list ChurchFeature) :
  length (freshMarkers start cs) = length cs.
Proof.
  revert start. induction cs as [|c cs IH]; intros start; simpl; [done|].
  by rewrite IH.
Qed.

Section PopupMore.
Context `{Platform}.

(** X12: the requests of one [fetchAreaInfo].  Whatever the network
    answers, the call adds to the request log one of five runs and
    nothing else: no request (the name cannot be encoded); the primary
    search; the primary search and a summary; the primary and the
    fallback search; both searches and a summary.  So it sends at most
    three requests, the searches before the summary and the fallback
    search only after the primary one, and every request goes to
    en.wikipedia.org. *)
Theorem fetchAreaInfo_request_plan (areaName : jsstring) (w : World) :
  exists issued,
    requests (snd (fetchAreaInfo areaName w)) = requests w ++ issued /\
    plannedRequests areaName issued /\
    (length issued <= 3)%nat /\
    Forall (fun url => js "https://en.wikipedia.org/" `prefix_of` url) issued.
Proof.
  assert (Htail : forall searchData w0,
    let r := (len <- lift (searchLength searchData) ;;
              if negb (truthy len) then ret (noInformation areaName)
              else
                firstTitle <- lift (firstTitleOf searchData) ;;
                encoded <- lift (encodeURIComponent firstTitle) ;;
                summaryData <- fetchJson (summaryUrl encoded) ;;
                lift (summaryOf areaName summaryData)) w0 in
    requests (snd r) = requests w0 \/
    exists p, requests (snd r) = requests w0 ++ [summaryUrl p]).
  { intros searchData w0. unfold bind, lift, ret, fetchJson. cbv zeta.
    destruct (searchLength searchData) as [e|len]; [by left|].
    destruct (negb (truthy len)); [by left|].
    destruct (firstTitleOf searchData) as [e|firstTitle]; [by left|].
    destruct (encodeURIComponent firstTitle) as [e|encoded]; [by left|].
    right. exists encoded. by destruct (net _ _). }
  assert (Hplan : exists issued,
    requests (snd (fetchAreaInfo_try areaName w)) = requests w ++ issued /\
    plannedRequests areaName issued).
  { unfold fetchAreaInfo_try. unfold bind at 1. rewrite search_run.
    destruct (encodeURIComponent (VStr (areaName ++ spaceCuracao)))
      as [e|e1] eqn:He1.
    { exists []. split; [by rewrite app_nil_r|by left]. }
    cbv zeta. set (w1 := set_requests (requests w ++ [searchUrl e1]) w).
    assert (Hone : plannedRequests areaName [searchUrl e1]).
    { right. exists e1. split; [done|by left]. }
    destruct (net (requests w) (searchUrl e1)) as [| |body];
      [by exists [searchUrl e1]..|].
    unfold bind at 1, lift at 1.
    destruct (searchLength body) as [e|len]; [by exists [searchUrl e1]|].
    unfold bind at 1.
    destruct (negb (truthy len)).
    - rewrite search_run.
      destruct (encodeURIComponent (VStr areaName)) as [e|e2] eqn:He2;
        [by exists [searchUrl e1]|].
      cbv zeta. change (requests w1) with (requests w ++ [searchUrl e1]).
      set (w2 := set_requests ((requests w ++ [searchUrl e1]) ++ [searchUrl e2]) w1).
      assert (Htwo : plannedRequests areaName [searchUrl e1; searchUrl e2]).
      { right. exists e1. split; [done|]. right. right.
        exists e2. split; [done|by left]. }
      assert (Hw2 : requests w2 = requests w ++ [searchUrl e1; searchUrl e2]).
      { unfold w2. simpl. by rewrite <- app_assoc. }
      destruct (net (requests w ++ [searchUrl e1]) (searchUrl e2)) as [| |body2];
        [by exists [searchUrl e1; searchUrl e2]..|].
      destruct (Htail body2 w2) as [Hr|[p Hr]]; cbv zeta in Hr; rewrite Hr, Hw2.
      + by exists [searchUrl e1; searchUrl e2].
      + exists [searchUrl e1; searchUrl e2; summaryUrl p].
        split; [by rewrite <- app_assoc|].
        right. exists e1. split; [done|]. right. right.
        exists e2. split; [done|]. right. by exists p.
    - unfold ret at 1.
      destruct (Htail body w1) as [Hr|[p Hr]]; cbv zeta in Hr; rewrite Hr.
      + by exists [searchUrl e1].
      + exists [searchUrl e1; summaryUrl p].
        split; [unfold w1; simpl; by rewrite <- app_assoc|].
        right. exists e1. split; [done|]. right. left. by exists p. }
  assert (Hsnd : snd (fetchAreaInfo areaName w) = snd (fetchAreaInfo_try areaName w)).
  { unfold fetchAreaInfo, tryCatch.
    by destruct (fetchAreaInfo_try areaName w) as [[e|r] w']. }
  rewrite Hsnd.
  destruct Hplan as (issued & Hreq & Hplan).
  exists issued. split; [exact Hreq|]. split; [exact Hplan|].
  assert (Hs : forall e, js "https://en.wikipedia.org/" `prefix_of` searchUrl e).
  { intros e. eexists. unfold searchUrl.
    change (js "https://en.wikipedia.org/w/api.php?action=query&list=search&srsearch=")
      with (js "https://en.wikipedia.org/"
            ++ js "w/api.php?action=query&list=search&srsearch=").
    rewrite <- app_assoc. reflexivity. }
  assert (Hp : forall e, js "https://en.wikipedia.org/" `prefix_of` summaryUrl e).
  { intros e. eexists. unfold summaryUrl.
    change (js "https://en.wikipedia.org/api/rest_v1/page/summary/")
      with (js "https://en.wikipedia.org/" ++ js "api/rest_v1/page/summary/").
    rewrite <- app_assoc. reflexivity. }
  destruct Hplan as [->|(e1 & _ & [->|[(p & ->)|(e2 & _ & [->|(p & ->)])]])];
    (split; [simpl; lia|]); repeat constructor; auto.
Qed.

Lemma truncateExtract_string (s : jsstring) :
  truncateExtract (VStr s)
  = inr (VStr (if bool_decide (300 < length s)%nat
               then take 300 s ++ js "..." else s)).
Proof.
  unfold truncateExtract, getProp.
  rewrite bool_decide_eq_true_2 by reflexivity.
  cbn [ToNumber]. rewrite numGt_length. by case_bool_decide.
Qed.

Lemma truncateExtract_bound (x : value) (s' : jsstring) :
  truncateExtract x = inr (VStr s') -> (length s' <= 303)%nat.
Proof.
  destruct x as [| |b|n|s|elems|props].
  1-4,6-7: unfold truncateExtract; simpl; repeat case_match; discriminate.
  rewrite truncateExtract_string. intros [= <-].
  case_bool_decide; [|lia].
  rewrite length_app, length_take.
  change (length (js "...")) with 3%nat. lia.
Qed.

(** What [createPopupContent] makes of the record the fetcher returned. *)
Lemma createPopupContent_run (props : Properties) (w : World) :
  exists info w',
    fetchAreaInfo (strOr (NAME props) Unknown) w = (inr info, w') /\
    requests w `prefix_of` requests w' /\
    mapInstanceRef w' = mapInstanceRef w /\
    churchesData w' = churchesData w /\
    snd (createPopupContent props w) = w' /\
    forall content,
      fst (createPopupContent props w) = inr content ->
      popup_areaName content = strOr (NAME props) Unknown /\
      popup_title content = title info /\
      truncateExtract (extract info) = inr (popup_extract content) /\
      popup_churchCount content
      = (let n := length (List.filter (inArea (strOr (NAME props) Unknown))
                            (churchesData w)) in
         if bool_decide (n = 0%nat) then None else Some n) /\
      (truthy (thumbnail info) = true -> popup_imageUrl content = thumbnail info) /\
      (truthy (thumbnail info) = false ->
       exists enc,
         encodeURIComponent (VStr (strOr (NAME props) Unknown)) = inr enc /\
         popup_imageUrl content
         = VStr (js "https://source.unsplash.com/300x150/?curacao," ++ enc)).
Proof.
  destruct (fetchAreaInfo_returns (strOr (NAME props) Unknown) w)
    as (info & issued & Hrun).
  exists info, (set_requests (requests w ++ issued) w).
  split; [exact Hrun|]. split; [by exists issued|]. split; [done|]. split; [done|].
  unfold createPopupContent, bind, lift, get, ret. rewrite Hrun.
  destruct (truthy (thumbnail info)) eqn:Hth.
  - destruct (truncateExtract (extract info)) as [e|tx]; simpl;
      (split; [reflexivity|]); intros content; [discriminate|].
    intros [= <-]. simpl. repeat split; try done.
    by destruct (List.filter _ _).
  - destruct (encodeURIComponent _) as [e|enc]; simpl;
      [split; [reflexivity|]; intros content; discriminate|].
    destruct (truncateExtract (extract info)) as [e|tx]; simpl;
      (split; [reflexivity|]); intros content; [discriminate|].
    intros [= <-]. simpl. repeat split; try done.
    + by destruct (List.filter _ _).
    + intros _. by exists enc.
Qed.

(** X13: the popup with the network down.  When the area name can be
    encoded, alone and followed by " Curaçao", and the first request
    fails, in the network or in the parsing of its body,
    [createPopupContent] still returns a content after that one request:
    its title is the area name, its text is "Information not
    available." and its image is the fallback picture URL ending in the
    encoded name. *)
Theorem createPopupContent_offline (props : Properties) (w : World)
  (e1 e2 : jsstring) :
  encodeURIComponent (VStr (strOr (NAME props) (js "Unknown") ++ spaceCuracao))
    = inr e1 ->
  failed (net (requests w) (searchUrl e1)) ->
  encodeURIComponent (VStr (strOr (NAME props) (js "Unknown"))) = inr e2 ->
  exists content,
    createPopupContent props w
    = (inr content, set_requests (requests w ++ [searchUrl e1]) w) /\
    popup_title content = VStr (strOr (NAME props) (js "Unknown")) /\
    popup_extract content = VStr (js "Information not available.") /\
    popup_imageUrl content
    = VStr (js "https://source.unsplash.com/300x150/?curacao," ++ e2).
Proof.
  intros He1 Hfail He2.
  assert (Hfetch : fetchAreaInfo (strOr (NAME props) Unknown) w
                   = (inr (notAvailable (strOr (NAME props) Unknown)),
                      set_requests (requests w ++ [searchUrl e1]) w)).
  { unfold fetchAreaInfo, tryCatch, fetchAreaInfo_try, bind at 1.
    rewrite search_run. fold Unknown in He1. rewrite He1. cbv zeta.
    destruct Hfail as [-> | ->]; reflexivity. }
  unfold createPopupContent, bind, lift, get, ret. rewrite Hfetch.
  fold Unknown in He2. cbn [notAvailable thumbnail truthy extract title].
  rewrite He2. eexists. split; [reflexivity|]. by repeat split.
Qed.

(** X14: the popup text is cut at 300 code units.  When
    [createPopupContent] returns, it has run [fetchAreaInfo] on the
    feature's name and changed the world no further; the title it shows
    is the fetched one; a fetched extract that is a string is shown whole
    when it has at most 300 code units and as its first 300 code units
    followed by "..." otherwise; so a text shown never has more than 303
    code units. *)
Theorem createPopupContent_truncates (props : Properties) (w w' : World)
  (content : PopupContent) :
  createPopupContent props w = (inr content, w') ->
  exists info,
    fetchAreaInfo (strOr (NAME props) (js "Unknown")) w = (inr info, w') /\
    popup_title content = title info /\
    (forall s, extract info = VStr s ->
       popup_extract content
       = VStr (if bool_decide (300 < length s)%nat
               then take 300 s ++ js "..." else s)) /\
    (forall s', popup_extract content = VStr s' -> (length s' <= 303)%nat).
Proof.
  intros Hrun.
  destruct (createPopupContent_run props w)
    as (info & w1 & Hfetch & _ & _ & _ & Hsnd & Hfields).
  rewrite Hrun in Hsnd, Hfields. simpl in Hsnd, Hfields. subst w1.
  destruct (Hfields content eq_refl) as (_ & Htitle & Htrunc & _).
  exists info. split; [exact Hfetch|]. split; [exact Htitle|]. split.
  - intros s Hs. rewrite Hs, truncateExtract_string in Htrunc. congruence.
  - intros s' Hs'. rewrite Hs' in Htrunc. by eapply truncateExtract_bound.
Qed.

(** X15: the number on the popup's church button.  With the map
    mounted, the church count [createPopupContent] puts in the popup is
    the number of markers [showChurchesForArea] tracks when it is called
    with the popup's area name in the world the popup was built in; the
    popup has no church button exactly when that call shows no marker. *)
Theorem popup_count_matches_overlay (props : Properties) (w w' : World)
  (m : LMap) (content : PopupContent) :
  mapInstanceRef w = Some m ->
  createPopupContent props w = (inr content, w') ->
  length (churchMarkersRef
            (snd (showChurchesForArea (popup_areaName content) w')))
  = default 0%nat (popup_churchCount content) /\
  (popup_churchCount content = None <->
   churchMarkersRef (snd (showChurchesForArea (popup_areaName content) w')) = []).
Proof.
  intros Hm Hrun.
  destruct (createPopupContent_run props w)
    as (info & w1 & _ & _ & Hmap & Hdata & Hsnd & Hfields).
  rewrite Hrun in Hsnd, Hfields. simpl in Hsnd, Hfields. subst w1.
  destruct (Hfields content eq_refl) as (Hname & _ & _ & Hcount & _).
  rewrite Hm in Hmap.
  rewrite (showChurchesForArea_run _ _ _ Hmap). simpl.
  rewrite addAll_tracked. simpl. rewrite Hname, Hdata, Hcount.
  clear Hcount Hfields Hrun.
  set (cs := List.filter _ _). cbv zeta. clearbody cs.
  split.
  - rewrite freshMarkers_length. case_bool_decide as Hn; simpl; lia.
  - case_bool_decide as Hn.
    + apply length_zero_iff_nil in Hn. by rewrite Hn.
    + split; [discriminate|]. intros Hnil. exfalso. apply Hn.
      by rewrite <- (freshMarkers_length (lastId w')), Hnil.
Qed.

End PopupMore.

(** X13 (witness): "Soto" with the network down. *)
Lemma createPopupContent_offline_witness :
  exists content,
    @createPopupContent offline (named (js "Soto")) initialWorld
    = (inr content, set_requests [Example.primaryUrl (js "Soto")] initialWorld) /\
    popup_title content = VStr (js "Soto") /\
    popup_extract content = VStr (js "Information not available.") /\
    popup_imageUrl content
    = VStr (js "https://source.unsplash.com/300x150/?curacao,Soto").
Proof.
  apply (@createPopupContent_offline offline (named (js "Soto")) initialWorld
           (concat (List.map Example.encodeUnit (js "Soto" ++ spaceCuracao)))
           (js "Soto")).
  - vm_compute. reflexivity.
  - left. vm_compute. reflexivity.
  - vm_compute. reflexivity.
Defined.

(** X14 (witness): an extract of 301 code units is shown as 300
    followed by "...". *)
Lemma createPopupContent_truncates_witness :
  exists content,
    fst (@createPopupContent longExtract (named (js "Soto")) initialWorld)
      = inr content /\
    popup_extract content = VStr (replicate 300 97%N ++ js "...").
Proof.
  assert (Hrun : exists content,
    @createPopupContent longExtract (named (js "Soto")) initialWorld
    = (inr content,
       snd (@createPopupContent longExtract (named (js "Soto")) initialWorld))).
  { vm_compute. eexists. reflexivity. }
  destruct Hrun as [content Hrun].
  destruct (@createPopupContent_truncates longExtract (named (js "Soto"))
              initialWorld _ content Hrun) as (info & Hfetch & _ & Hcut & _).
  exists content. split; [by rewrite Hrun|].
  vm_compute in Hfetch. injection Hfetch as Hinfo.
  rewrite (Hcut (replicate 301 97%N)); [reflexivity|].
  rewrite <- Hinfo. reflexivity.
Defined.

(** X15 (witness): the scenario's church is in "Punda"; the popup of an
    area named "punda" counts one church and the overlay shows one
    marker. *)
Lemma popup_count_matches_overlay_witness :
  exists content,
    fst (@createPopupContent offline (named (js "punda")) mounted) = inr content /\
    popup_churchCount content = Some 1%nat /\
    length (churchMarkersRef
              (snd (@showChurchesForArea offline (popup_areaName content)
                      (snd (@createPopupContent offline (named (js "punda"))
                              mounted)))))
    = 1%nat.
Proof.
  assert (Hrun : exists content,
    @createPopupContent offline (named (js "punda")) mounted
    = (inr content, snd (@createPopupContent offline (named (js "punda")) mounted)) /\
    popup_churchCount content = Some 1%nat).
  { vm_compute. eexists. split; reflexivity. }
  destruct Hrun as (content & Hrun & Hcount).
  destruct (@popup_count_matches_overlay offline (named (js "punda")) mounted _
              emptyMap content eq_refl Hrun) as [Hlen _].
  exists content. split; [by rewrite Hrun|]. split; [exact Hcount|].
  rewrite Hlen, Hcount. reflexivity.
Defined.


(** ** Selecting by click and from the list *)

Lemma findIn_last (ps : gmap positive PathLayer) (a : jsstring)
  (lids : list positive) (acc : option positive) :
  (forall lid l, lid ∈ lids -> ps !! lid = Some l ->
                 is_Some (properties (feature l))) ->
  findIn ps a lids acc
  = inr (from_option Some acc (last (List.filter (carriesName ps a) lids))).
Proof.
  revert acc. induction lids as [|lid lids IH]; intros acc Hhave; [done|].
  assert (Hrest : forall lid' l', lid' ∈ lids -> ps !! lid' = Some l' ->
            is_Some (properties (feature l'))).
  { intros lid' l' Hin' Hl'. apply (Hhave lid' l'); [set_solver|done]. }
  assert (Hc : carriesName ps a lid
               = match ps !! lid with
                 | Some l => bool_decide (nameOf l = Some a)
                 | None => false
                 end) by reflexivity.
  cbn [findIn List.filter]. rewrite Hc.
  destruct (ps !! lid) as [l|] eqn:Hl; [|by apply IH].
  destruct (Hhave lid l ltac:(set_solver) Hl) as [props Hp]. rewrite Hp.
  assert (Hname : nameOf l = NAME props) by (unfold nameOf; by rewrite Hp).
  rewrite Hname. rewrite (IH _ Hrest).
  destruct (bool_decide (NAME props = Some a)); [|done].
  rewrite last_cons. by destruct (last _).
Qed.

Lemma findIn_throws (ps : gmap positive PathLayer) (a : jsstring)
  (lids : list positive) (acc : option positive) (lid : positive) (l : PathLayer) :
  lid ∈ lids -> ps !! lid = Some l -> properties (feature l) = None ->
  findIn ps a lids acc = inl TypeError.
Proof.
  revert acc. induction lids as [|x lids IH]; intros acc Hin Hl Hp.
  - by apply elem_of_nil in Hin.
  - cbn [findIn]. apply elem_of_cons in Hin as [<-|Hin].
    + by rewrite Hl, Hp.
    + destruct (ps !! x) as [lx|]; [|by apply IH].
      destruct (properties (feature lx)); [by apply IH|done].
Qed.

Lemma mergeStyle_fill (patch base : PathStyle) :
  fillColor patch = None -> opacity patch = None ->
  fillColor (mergeStyle patch base) = fillColor base /\
  opacity (mergeStyle patch base) = opacity base.
Proof. intros Hf Ho. unfold mergeStyle. simpl. by rewrite Hf, Ho. Qed.

Section SelectionMore.
Context `{Platform}.

(** The selection is recorded first and nothing after it touches it. *)
Lemma selectArea_selectedArea (a : jsstring) (layer : option positive) (w : World) :
  selectedArea (snd (selectArea a layer w)) = Some a.
Proof.
  rewrite selectArea_blocks. set (w0 := set_selectedArea (Some a) w).
  pose proof (PopupOnly_zoomAndPopup layer w0) as [Psel _ _ _ _].
  destruct (zoomAndPopup layer w0 w0) as [[e|[]] w1]; simpl in *; [done|].
  pose proof (StyleOnly_restyleAll a w1) as [Ssel _ _ _ _ _]. congruence.
Qed.

(** The world a completed pass leaves: each layer of the group visited
    once, after the zoom-and-popup block. *)
Lemma selectArea_paths (b : jsstring) (layer : option positive) (w w' : World)
  (lids : list positive) :
  geoJsonLayerRef w = Some lids ->
  selectArea b layer w = (inr tt, w') ->
  forall lid l, lid ∈ lids -> paths w !! lid = Some l ->
    exists l1, sameButPopup l l1 /\ paths w' !! lid = Some (restyle b l1).
Proof.
  intros Hgroup Hrun lid l Hin Hl.
  rewrite selectArea_blocks in Hrun.
  set (w0 := set_selectedArea (Some b) w) in *.
  pose proof (PopupOnly_zoomAndPopup layer w0) as [_ Pgr _ _ Ppaths].
  destruct (zoomAndPopup layer w0 w0) as [[e|[]] w1]; [discriminate|].
  simpl in Pgr, Ppaths. rewrite Hgroup in Pgr.
  rewrite restyleAll_run, Pgr in Hrun.
  destruct (forEach_restyleLayer b lids w1) as (visited & _ & Hsnd & Hall & _).
  rewrite Hrun in Hsnd, Hall. simpl in Hsnd, Hall.
  rewrite (Hall eq_refl) in Hsnd.
  specialize (Ppaths lid). change (paths w0) with (paths w) in Ppaths.
  rewrite Hl in Ppaths. inversion Ppaths as [? l1 Hsame Hx Hl1|]; subst.
  exists l1. split; [done|].
  rewrite restyledAll_paths, decide_True by done. by rewrite <- Hl1.
Qed.

(** X6: the restyling pass agrees with the style function.  After
    [selectArea] has returned, whatever area was selected before, every
    layer of the group that was styled by [style] and whose feature has a
    non-empty [NAME] carries exactly the options [style] gives its feature
    under the new selection: the pass leaves a named polygon as a new
    render would. *)
Theorem selectArea_restyle_matches_style (b : jsstring) (layer : option positive)
  (w w' : World) (lids : list positive) (lid : positive) (l : PathLayer)
  (selected : option jsstring) (c : N) (s : jsstring) :
  geoJsonLayerRef w = Some lids ->
  selectArea b layer w = (inr tt, w') ->
  lid ∈ lids -> paths w !! lid = Some l ->
  options l = style selected (feature l) ->
  nameOf l = Some (c :: s) ->
  exists l',
    paths w' !! lid = Some l' /\ feature l' = feature l /\
    options l' = style (Some b) (feature l).
Proof.
  intros Hgroup Hrun Hin Hl Hopt Hname.
  destruct (selectArea_paths b layer w w' lids Hgroup Hrun lid l Hin Hl)
    as (l1 & (Hf & _ & Ho) & Hl').
  exists (restyle b l1). split; [exact Hl'|]. split; [exact Hf|].
  unfold restyle, matches, nameOf. simpl. rewrite Ho, Hopt, Hf.
  unfold nameOf in Hname. unfold style.
  destruct (properties (feature l)) as [props|]; [|discriminate].
  simpl in Hname. rewrite Hname. simpl.
  unfold mergeStyle. repeat case_bool_decide; simplify_eq; reflexivity.
Qed.

(** X7: a selection never changes a fill colour.  Whatever [selectArea]
    is called with and however it ends, every stored layer is still
    stored with the feature, the fill colour and the stroke opacity it
    had.  For a layer styled by [style], that fill colour is the colour
    of the list entry's swatch: [getAreaColor] of the name under which
    the loader lists the feature. *)
Theorem selectArea_keeps_fill_colour (areaName : jsstring)
  (layer : option positive) (w : World) (lid : positive) (l : PathLayer) :
  paths w !! lid = Some l ->
  exists l',
    paths (snd (selectArea areaName layer w)) !! lid = Some l' /\
    feature l' = feature l /\
    fillColor (options l') = fillColor (options l) /\
    opacity (options l') = opacity (options l) /\
    forall (selected : option jsstring) (area : AreaInfo),
      options l = style selected (feature l) ->
      toAreaInfo (feature l) = inr area ->
      fillColor (options l') = Some (Color.getAreaColor (name area)).
Proof.
  intros Hl.
  assert (Hkeep : exists l',
    paths (snd (selectArea areaName layer w)) !! lid = Some l' /\
    feature l' = feature l /\
    fillColor (options l') = fillColor (options l) /\
    opacity (options l') = opacity (options l)).
  { rewrite selectArea_blocks. set (w0 := set_selectedArea (Some areaName) w).
    pose proof (PopupOnly_zoomAndPopup layer w0) as [_ _ _ _ Ppaths].
    specialize (Ppaths lid). change (paths w0) with (paths w) in Ppaths.
    rewrite Hl in Ppaths.
    destruct (zoomAndPopup layer w0 w0) as [[e|[]] w1]; simpl in Ppaths;
      inversion Ppaths as [? l1 (Hf & _ & Ho) Hx Hl1|]; subst; symmetry in Hl1.
    { exists l1. simpl. by rewrite Ho. }
    rewrite restyleAll_run.
    destruct (geoJsonLayerRef w1) as [lids|]; [|exists l1; simpl; by rewrite Ho].
    destruct (forEach_restyleLayer areaName lids w1) as (visited & _ & -> & _).
    rewrite restyledAll_paths, Hl1.
    destruct (decide (lid ∈ visited)); simpl; eexists; (split; [reflexivity|]);
      [|by rewrite Ho].
    split; [done|]. rewrite <- Ho. unfold restyle, withOptions. simpl.
    destruct (matches areaName l1); by apply mergeStyle_fill. }
  destruct Hkeep as (l' & Hl' & Hf & Hfill & Hop).
  exists l'. split; [exact Hl'|]. split; [exact Hf|].
  split; [exact Hfill|]. split; [exact Hop|].
  intros selected area Hopt Harea. rewrite Hfill, Hopt.
  unfold toAreaInfo in Harea. unfold style.
  destruct (properties (feature l)) as [props|]; [|discriminate].
  by simplify_eq.
Qed.


(** X9: a click on a polygon selects the name the list shows.  For a
    stored layer whose feature has a properties object, the click
    handler leaves as selected area the name of the record the loader
    makes for that feature, however the handler ends, so the list
    entries highlighted afterwards are exactly those of that name.  A
    click on a layer whose feature has no properties object does
    nothing. *)
Theorem zoomToFeature_selects_listed_name (lid : positive) (l : PathLayer)
  (w : World) :
  paths w !! lid = Some l ->
  match toAreaInfo (feature l) with
  | inr area =>
      selectedArea (snd (zoomToFeature lid w)) = Some (name area) /\
      (forall other : AreaInfo,
         isHighlighted (snd (zoomToFeature lid w)) other = true
         <-> name other = name area)
  | inl _ => zoomToFeature lid w = (inr tt, w)
  end.
Proof.
  intros Hl. unfold zoomToFeature, toAreaInfo, bind, get. rewrite Hl.
  destruct (properties (feature l)) as [props|]; [|reflexivity].
  simpl. pose proof (selectArea_selectedArea (strOr (NAME props) Unknown)
                       (Some lid) w) as Hsel.
  split; [exact Hsel|]. intros other. unfold isHighlighted. rewrite Hsel.
  rewrite bool_decide_eq_true. split; [by intros [= ->]|by intros ->].
Qed.

(** X10: a name that cannot be URI-encoded.  With the map mounted, a
    click on a stored layer whose area name [encodeURIComponent] rejects,
    alone and followed by " Curaçao" (as it does a name with a lone
    surrogate), is rejected with that error.  By then the name is
    recorded as selected and the view is fitted to the layer; no request
    was sent, no popup is bound or opened, and the restyling pass has not
    run: every layer keeps the options it had. *)
Theorem zoomToFeature_unencodable_name (lid : positive) (w : World) (m : LMap)
  (l : PathLayer) (props : Properties) (e1 e2 : exn) :
  mapInstanceRef w = Some m ->
  paths w !! lid = Some l -> properties (feature l) = Some props ->
  encodeURIComponent (VStr (strOr (NAME props) (js "Unknown") ++ spaceCuracao))
    = inl e1 ->
  encodeURIComponent (VStr (strOr (NAME props) (js "Unknown"))) = inl e2 ->
  zoomToFeature lid w
  = (inl e2,
     set_mapInstanceRef
       (Some (setView (FitBounds (geometry (feature l))) m))
       (set_selectedArea (Some (strOr (NAME props) (js "Unknown"))) w)).
Proof.
  intros Hm Hl Hp He1 He2.
  unfold zoomToFeature, bind at 1, get. rewrite Hl, Hp.
  rewrite selectArea_blocks. set (a := strOr (NAME props) Unknown).
  fold Unknown in He1, He2. fold a in He1, He2.
  set (w0 := set_selectedArea (Some a) w).
  unfold zoomAndPopup.
  change (mapInstanceRef w0) with (mapInstanceRef w).
  change (paths w0) with (paths w). rewrite Hm, Hl, Hp.
  unfold bind at 1, onMapInstance at 1, modify at 1.
  change (mapInstanceRef w0) with (mapInstanceRef w). rewrite Hm.
  cbn [fmap option_fmap option_map].
  set (w1 := set_mapInstanceRef _ w0).
  assert (Hfetch : fetchAreaInfo a w1 = (inr (notAvailable a), w1)).
  { unfold fetchAreaInfo, tryCatch, fetchAreaInfo_try, bind at 1.
    rewrite search_run, He1. reflexivity. }
  unfold bind at 1. unfold createPopupContent, bind at 1. fold a.
  rewrite Hfetch. cbn [notAvailable thumbnail truthy].
  unfold bind, lift. rewrite He2. reflexivity.
Qed.

(** X11: [findAreaLayer] returns the last match.  Without a group it
    finds nothing.  With a group whose stored layers all have a
    properties object it returns, leaving the world alone, the last
    layer of the group whose feature's [NAME] is the given name, or
    nothing when there is none; a click on the list entry of that name
    is then [selectArea] called with that layer.  When some stored layer
    of the group has a feature without properties object,
    [findAreaLayer] throws a type error and a click on a list entry ends
    there, before anything is selected. *)
Theorem findAreaLayer_last_match (areaName : jsstring) (w : World) :
  (geoJsonLayerRef w = None -> findAreaLayer areaName w = (inr None, w)) /\
  (forall lids,
     geoJsonLayerRef w = Some lids ->
     (forall lid l, lid ∈ lids -> paths w !! lid = Some l ->
                    is_Some (properties (feature l))) ->
     let found := last (List.filter (carriesName (paths w) areaName) lids) in
     findAreaLayer areaName w = (inr found, w) /\
     (forall area : AreaInfo,
        name area = areaName ->
        areaListClick area w = selectArea areaName found w)) /\
  (forall lids lid l,
     geoJsonLayerRef w = Some lids ->
     lid ∈ lids -> paths w !! lid = Some l -> properties (feature l) = None ->
     findAreaLayer areaName w = (inl TypeError, w) /\
     (forall area : AreaInfo,
        name area = areaName -> areaListClick area w = (inl TypeError, w))).
Proof.
  split; [|split].
  - intros Hg. unfold findAreaLayer, bind, get. by rewrite Hg.
  - intros lids Hg Hhave found.
    assert (Hfind : findAreaLayer areaName w = (inr found, w)).
    { unfold findAreaLayer, bind, get, lift. rewrite Hg.
      rewrite (findIn_last _ _ _ _ Hhave). unfold found.
      by destruct (last _). }
    split; [exact Hfind|]. intros area <-.
    unfold areaListClick, bind. by rewrite Hfind.
  - intros lids lid l Hg Hin Hl Hp.
    assert (Hfind : findAreaLayer areaName w = (inl TypeError, w)).
    { unfold findAreaLayer, bind, get, lift. rewrite Hg.
      by rewrite (findIn_throws _ _ _ _ _ _ Hin Hl Hp). }
    split; [exact Hfind|]. intros area <-.
    unfold areaListClick, bind. by rewrite Hfind.
Qed.

End SelectionMore.

(** X6 (witness): nothing is selected in the rendered scenario; after
    Bandabou is chosen from the list its layer carries what [style]
    gives it as the selected area. *)
Lemma selectArea_restyle_matches_style_witness :
  exists l',
    paths (snd (@selectArea offline (js "Bandabou") None rendered)) !! 3%positive
      = Some l' /\
    feature l' = feature bandabouLayer /\
    options l' = style (Some (js "Bandabou")) (feature bandabouLayer).
Proof.
  apply (@selectArea_restyle_matches_style offline (js "Bandabou") None rendered
           (snd (@selectArea offline (js "Bandabou") None rendered))
           [1%positive; 3%positive] 3%positive
           bandabouLayer None 66%N (js "andabou")).
  - vm_compute. reflexivity.
  - vm_compute. reflexivity.
  - apply list_elem_of_further, list_elem_of_here.
  - vm_compute. reflexivity.
  - vm_compute. reflexivity.
  - vm_compute. reflexivity.
Defined.

(** X7 (witness): selecting Bandabou by a click leaves Willemstad's
    polygon with the colour of Willemstad's swatch. *)
Lemma selectArea_keeps_fill_colour_witness :
  exists l',
    paths (snd (@selectArea offline (js "Bandabou") (Some 3%positive) rendered))
      !! 1%positive = Some l' /\
    fillColor (options l') = Some (Color.getAreaColor (js "Willemstad")).
Proof.
  destruct (@selectArea_keeps_fill_colour offline (js "Bandabou")
              (Some 3%positive) rendered 1%positive willemstadLayer)
    as (l' & Hl' & _ & _ & _ & Hswatch).
  - vm_compute. reflexivity.
  - exists l'. split; [exact Hl'|].
    apply (Hswatch None
             {| name := js "Willemstad"; population := numZ 150000;
                households := numZ 0; meanIncome := numZ 0 |}).
    + reflexivity.
    + vm_compute. reflexivity.
Defined.


(** X9 (witness): a click on layer 3 of the rendered scenario selects
    "Bandabou". *)
Lemma zoomToFeature_selects_listed_name_witness :
  selectedArea (snd (@zoomToFeature offline 3%positive rendered))
    = Some (js "Bandabou").
Proof.
  exact (proj1 (@zoomToFeature_selects_listed_name offline 3%positive
                  bandabouLayer rendered ltac:(vm_compute; reflexivity))).
Defined.

(** X10 (witness): the polygon's name is a lone high surrogate. *)
Lemma zoomToFeature_unencodable_name_witness :
  @zoomToFeature offline 1%positive surrogateRendered
  = (inl URIError,
     set_mapInstanceRef
       (Some (setView (FitBounds (geometry (feature surrogateLayer))) emptyMap))
       (set_selectedArea (Some loneSurrogate) surrogateRendered)).
Proof.
  apply (@zoomToFeature_unencodable_name offline 1%positive surrogateRendered
           emptyMap surrogateLayer (areaProperties loneSurrogate 1)
           URIError URIError).
  - vm_compute. reflexivity.
  - vm_compute. reflexivity.
  - reflexivity.
  - vm_compute. reflexivity.
  - vm_compute. reflexivity.
Defined.

(** X11 (witness): in the rendered scenario the layer named Bandabou is
    layer 3. *)
Lemma findAreaLayer_last_match_witness :
  findAreaLayer (js "Bandabou") rendered = (inr (Some 3%positive), rendered).
Proof.
  refine (proj1 (proj1 (proj2 (@findAreaLayer_last_match offline
                                  (js "Bandabou") rendered))
                   [1%positive; 3%positive] _ _)).
  - vm_compute. reflexivity.
  - intros lid l Hin.
    repeat (apply elem_of_cons in Hin as [->|Hin]);
      [| |by apply elem_of_nil in Hin];
      vm_compute; intros; simplify_eq/=; eauto.
Defined.


(** ** The overlay's entry point and the hover handlers *)

Lemma openPopup_removeAll (ids : list positive) (m : LMap) :
  openPopup (removeAll ids m) = openPopup m.
Proof.
  revert m. induction ids as [|id ids IH]; intros m; [done|].
  unfold removeAll in *. simpl. by rewrite IH.
Qed.

Lemma style_reset (selected : option jsstring) (f : Feature) :
  mergeStyle (style selected f) noStyle = style selected f.
Proof. unfold style. by destruct (properties f). Qed.

Section HoverProps.
Context `{Platform}.

(** X16: the popup button's entry point.  Without a map
    [window.showChurchesForArea] does nothing.  With the map mounted it
    returns normally, the map then has no open popup and the view it
    had, the markers tracked are those of the churches of the data whose
    area is the given name up to case, in the data's order, the same
    churches [showChurchesForArea] itself would show, and the layers,
    the selection and the request log are untouched. *)
Theorem window_showChurchesForArea_closes_popup (areaName : jsstring) (w : World) :
  (mapInstanceRef w = None ->
     window_showChurchesForArea areaName w = (inr tt, w)) /\
  (forall m,
     mapInstanceRef w = Some m ->
     exists w' m',
       window_showChurchesForArea areaName w = (inr tt, w') /\
       mapInstanceRef w' = Some m' /\
       openPopup m' = None /\ view m' = view m /\
       marker_church <$> churchMarkersRef w'
         = List.filter (inArea areaName) (churchesData w) /\
       marker_church <$> churchMarkersRef w'
         = marker_church <$>
             churchMarkersRef (snd (showChurchesForArea areaName w)) /\
       paths w' = paths w /\ selectedArea w' = selectedArea w /\
       requests w' = requests w).
Proof.
  split.
  - intros Hm. unfold window_showChurchesForArea, bind, onMapInstance, modify.
    rewrite Hm. simpl.
    assert (Hsame : set_mapInstanceRef None w = w)
      by (destruct w; simpl in *; by subst).
    rewrite Hsame. by apply overlay_without_map.
  - intros m Hm. unfold window_showChurchesForArea, bind, onMapInstance, modify.
    rewrite Hm. cbn [fmap option_fmap option_map].
    set (w0 := set_mapInstanceRef (Some (setOpenPopup None m)) w).
    rewrite (showChurchesForArea_run areaName w0 _ eq_refl).
    rewrite (showChurchesForArea_run areaName w _ Hm).
    set (cs := List.filter (inArea areaName) (churchesData w0)).
    set (w1 := set_churchMarkersRef [] _).
    destruct (addAll_map cs w1 _ eq_refl) as (m' & Hm' & _ & Hv & Hp).
    destruct (addAll_others cs w1) as (_ & Hsel & Hpaths & _ & Hreq).
    exists (addAll cs w1), m'. split; [reflexivity|]. split; [exact Hm'|].
    split; [by rewrite Hp, openPopup_removeAll|].
    split; [by rewrite Hv, view_removeAll|].
    assert (Htr : forall cs u,
      marker_church <$> churchMarkersRef (addAll cs (set_churchMarkersRef [] u))
      = cs).
    { intros cs' u. rewrite addAll_tracked. apply freshMarkers_church. }
    split; [apply Htr|]. split; [|done].
    cbn [snd]. unfold w1, cs. by rewrite !Htr.
Qed.

Lemma highlightFeature_run (lid : positive) (w : World) (l : PathLayer)
  (props : Properties) :
  paths w !! lid = Some l -> properties (feature l) = Some props ->
  highlightFeature lid w
  = (inr tt,
     set_mapInstanceRef
       (match _label l with
        | Some label => addLayer (label_id label) <$> mapInstanceRef w
        | None => mapInstanceRef w
        end)
       (set_paths (alter (withOptions (mergeStyle highlightPatch)) lid (paths w)) w)).
Proof.
  intros Hl Hp. unfold highlightFeature, bind, get, setStyle, modify.
  rewrite Hl, Hp. simpl.
  destruct (_label l) as [label|], (mapInstanceRef w) as [m|] eqn:Hm;
    unfold onMapInstance, modify, ret; simpl; rewrite ?Hm; try reflexivity;
    f_equal; destruct w; simpl in *; by subst.
Qed.

(** X17: hovering a polygon.  The [mouseover] handler does nothing for
    a handle that names no layer and for a layer whose feature has no
    properties object.  Otherwise it returns normally and changes two
    things only: the hovered layer gets the stroke of the Selected style
    (weight 3, accent colour, fill opacity 0.9) and an empty dash
    pattern, keeping its fill colour, its stroke opacity, its feature,
    its label and its popup; and its label, if it has one, is on the map
    afterwards.  The selection, the other layers, the group, the lists,
    the church markers, the request log, the view and the open popup are
    as before: hovering never selects. *)
Theorem highlightFeature_effect (lid : positive) (w : World) :
  (paths w !! lid = None -> highlightFeature lid w = (inr tt, w)) /\
  (forall l, paths w !! lid = Some l -> properties (feature l) = None ->
             highlightFeature lid w = (inr tt, w)) /\
  (forall l props,
     paths w !! lid = Some l -> properties (feature l) = Some props ->
     exists w' l',
       highlightFeature lid w = (inr tt, w') /\
       HoverOnly lid w w' /\
       paths w' !! lid = Some l' /\
       sameButStyle l l' /\
       selectedStyle l' /\
       dashArray (options l') = Some [] /\
       fillColor (options l') = fillColor (options l) /\
       opacity (options l') = opacity (options l) /\
       option_Forall2 (fun m m' => showing (onMap m ∪ labelOf l) m m')
         (mapInstanceRef w) (mapInstanceRef w')).
Proof.
  split; [|split].
  - intros Hl. unfold highlightFeature, bind, get. by rewrite Hl.
  - intros l Hl Hp. unfold highlightFeature, bind, get. by rewrite Hl, Hp.
  - intros l props Hl Hp. rewrite (highlightFeature_run _ _ _ _ Hl Hp).
    eexists _, _. split; [reflexivity|]. split; [|split].
    + split; try done. simpl. intros other Hne. by rewrite lookup_alter_ne.
    + simpl. by rewrite lookup_alter_eq, Hl.
    + split; [done|]. split; [by destruct l as [f [] lab pop]|].
      split; [by destruct l as [f [] lab pop]|]. simpl.
      split; [done|]. split; [done|].
      unfold labelOf.
      destruct (_label l) as [label|], (mapInstanceRef w) as [m|];
        simpl; constructor; repeat split; simpl; set_solver.
Qed.

Lemma resetHighlight_run (selected : option jsstring) (lid : positive)
  (w : World) (l : PathLayer) (lids : list positive) (n : jsstring) :
  geoJsonLayerRef w = Some lids ->
  paths w !! lid = Some l -> nameOf l = Some n ->
  resetHighlight selected lid w
  = (inr tt,
     set_mapInstanceRef
       (match _label l with
        | Some label =>
            if bool_decide (selected = Some n) then mapInstanceRef w
            else removeLayer (label_id label) <$> mapInstanceRef w
        | None => mapInstanceRef w
        end)
       (set_paths
          (alter (fun l => withOptions
                             (fun _ => mergeStyle (style selected (feature l)) noStyle) l)
             lid (paths w)) w)).
Proof.
  intros Hg Hl Hn. unfold resetHighlight, bind, get, resetStyle, modify.
  rewrite Hl, Hg. unfold nameOf in Hn. rewrite Hn. simpl.
  destruct (_label l) as [label|], (mapInstanceRef w) as [m|] eqn:Hm;
    try destruct (bool_decide (selected = Some n));
    unfold onMapInstance, modify, ret; simpl; rewrite ?Hm; try reflexivity;
    f_equal; destruct w; simpl in *; by subst.
Qed.

(** X18: hovering in and out.  For a layer of a rendered group that
    carries the style the render gave it and whose feature has a [NAME],
    the [mouseover] handler followed by the [mouseout] handler returns
    normally and leaves every layer, the hovered one included, exactly as
    it was; the selection, the group, the lists, the markers and the
    request log are untouched, and so are the view and the open popup.
    On the map only the layer's label can differ: it is shown when the
    area is the selected one and taken off the map otherwise. *)
Theorem hover_round_trip (selected : option jsstring) (lid : positive)
  (w : World) (l : PathLayer) (lids : list positive) (n : jsstring) :
  geoJsonLayerRef w = Some lids ->
  paths w !! lid = Some l -> nameOf l = Some n ->
  options l = style selected (feature l) ->
  exists w'',
    resetHighlight selected lid (snd (highlightFeature lid w)) = (inr tt, w'') /\
    paths w'' = paths w /\
    HoverOnly lid w w'' /\
    option_Forall2
      (fun m m'' =>
         showing (if bool_decide (selected = Some n)
                  then onMap m ∪ labelOf l else onMap m ∖ labelOf l) m m'')
      (mapInstanceRef w) (mapInstanceRef w'').
Proof.
  intros Hg Hl Hn Hopt.
  assert (exists props, properties (feature l) = Some props) as [props Hp].
  { unfold nameOf in Hn. destruct (properties (feature l)); [by eexists|done]. }
  rewrite (highlightFeature_run _ _ _ _ Hl Hp). cbn [snd].
  set (w' := set_mapInstanceRef _ _).
  assert (Hl' : paths w' !! lid
                = Some (withOptions (mergeStyle highlightPatch) l)).
  { simpl. by rewrite lookup_alter_eq, Hl. }
  rewrite (resetHighlight_run selected lid w' _ lids n Hg Hl' Hn).
  eexists. split; [reflexivity|].
  assert (Hpaths :
    alter (fun l => withOptions
                      (fun _ => mergeStyle (style selected (feature l)) noStyle) l)
      lid (paths w') = paths w).
  { simpl. rewrite alter_alter_eq. apply alter_id. intros x Hx.
    rewrite Hl in Hx. simplify_eq. simpl. unfold withOptions. simpl.
    rewrite style_reset, <- Hopt. by destruct x. }
  split; [exact Hpaths|]. split.
  - split; try done. simpl. intros other Hne.
    by rewrite alter_alter_eq, lookup_alter_ne.
  - cbn [mapInstanceRef set_mapInstanceRef set_paths withOptions _label w'].
    unfold labelOf.
    destruct (_label l) as [label|], (mapInstanceRef w) as [m|];
      try case_bool_decide; simpl; constructor; repeat split; simpl; set_solver.
Qed.

End HoverProps.

(** X18 (witness): hovering over Bandabou in the rendered scenario, where
    nothing is selected, and moving out again: the layers are as
    rendered. *)
Lemma hover_round_trip_witness :
  exists w'',
    resetHighlight None 3%positive (snd (highlightFeature 3%positive rendered))
      = (inr tt, w'') /\
    paths w'' = paths rendered /\
    HoverOnly 3%positive rendered w''.
Proof.
  destruct (hover_round_trip None 3%positive rendered bandabouLayer
              [1%positive; 3%positive] (js "Bandabou"))
    as (w'' & Hrun & Hpaths & Hframe & _).
  - vm_compute. reflexivity.
  - vm_compute. reflexivity.
  - reflexivity.
  - reflexivity.
  - exists w''. split; [exact Hrun|]. split; [exact Hpaths|exact Hframe].
Defined.

(** Hovering over Bandabou shows its label, marker 4. *)
Example highlightFeature_bandabou :
  onMap <$> mapInstanceRef (snd (highlightFeature 3%positive rendered))
  = Some {[4%positive]}.
Proof. vm_compute. reflexivity. Qed.


(** ** What every reachable world satisfies *)

Lemma sameButLook_refl (l : PathLayer) : sameButLook l l.
Proof. done. Qed.

Lemma Keeps_refl (w : World) : Keeps w w.
Proof.
  split; try done.
  - intros lid. by destruct (paths w !! lid); constructor.
  - intros m' id Hm Hid. left. by exists m'.
Qed.

Lemma Keeps_trans (a b c : World) : Keeps a b -> Keeps b c -> Keeps a c.
Proof.
  intros [a1 a2 a3 a4 a5 a6] [b1 b2 b3 b4 b5 b6]. split; try congruence.
  - intros lid. specialize (a5 lid). specialize (b5 lid).
    inversion a5 as [x y Hxy Hx Hy|Hx Hy]; inversion b5 as [y' z Hyz Hy' Hz|Hy' Hz];
      try congruence; constructor.
    assert (y' = y) as -> by congruence.
    destruct Hxy, Hyz. split; congruence.
  - intros m'' id Hm'' Hid.
    destruct (b6 m'' id Hm'' Hid) as [(m' & Hm' & Hid')|(lid & l' & label & Hl' & Hlab & Hlid)].
    + by apply (a6 m' id).
    + right. specialize (a5 lid). rewrite Hl' in a5.
      inversion a5 as [l ? [_ Hsame] Hx Hy|]; subst.
      exists lid, l, label. split; [done|]. split; [congruence|done].
Qed.

(** A world that differs in fields the invariant does not read. *)
Lemma Keeps_fields (w w' : World) :
  markers w' = markers w -> churchMarkersRef w' = churchMarkersRef w ->
  lastId w' = lastId w -> geoJsonLayerRef w' = geoJsonLayerRef w ->
  paths w' = paths w -> mapInstanceRef w' = mapInstanceRef w ->
  Keeps w w'.
Proof.
  intros Hmk Htr Hid Hg Hp Hm. split; try done.
  - intros lid. rewrite Hp. by destruct (paths w !! lid); constructor.
  - intros m' id Hm' Hin. left. exists m'. by rewrite <- Hm.
Qed.

Lemma Keeps_Sound (w w' : World) : Keeps w w' -> Sound w -> Sound w'.
Proof.
  intros [Kmk Ktr Kid Kg Kp Km] [[I1 I2 I3 I4] Slay Slab Sgr].
  assert (Hback : forall lid l', paths w' !! lid = Some l' ->
            exists l, paths w !! lid = Some l /\ sameButLook l l').
  { intros lid l' Hl'. specialize (Kp lid). rewrite Hl' in Kp.
    inversion Kp as [l ? Hsame Hx Hy|]; subst. by exists l. }
  split; [split|..].
  - intros id mk. rewrite Kmk. apply I1.
  - intros mk. rewrite Ktr, Kmk. apply I2.
  - intros id church (m' & mk & Hm' & Hid & Hmk & Hch). rewrite Ktr.
    rewrite Kmk in Hmk.
    destruct (Km m' id Hm' Hid) as [(m & Hm & Hin)|(lid & l & label & Hl & Hlab & <-)].
    + apply (I3 id church). by exists m, mk.
    + destruct (Slab lid l label Hl Hlab) as (_ & _ & Hnone). congruence.
  - intros id. rewrite Kmk, Kid. apply I4.
  - intros lid l' Hl'. destruct (Hback _ _ Hl') as (l & Hl & _).
    rewrite Kid. by eapply Slay.
  - intros lid l' label Hl' Hlab. destruct (Hback _ _ Hl') as (l & Hl & _ & Hsame).
    rewrite Kid, Kmk. eapply Slab; [exact Hl|congruence].
  - intros lids lid Hg Hin. rewrite Kg in Hg.
    destruct (Sgr lids lid Hg Hin) as (l & Hl & Hnamed).
    specialize (Kp lid). rewrite Hl in Kp.
    inversion Kp as [? l' [Hf Hlab] Hx Hy|]; subst.
    exists l'. split; [done|]. intros c s Hn. rewrite Hlab.
    apply (Hnamed c s). unfold nameOf in *. by rewrite <- Hf.
Qed.

Lemma Sound_Rendered (w : World) (lids : list positive) :
  Sound w -> geoJsonLayerRef w = Some lids -> Rendered w lids.
Proof.
  intros [_ _ Slab Sgr] Hg. split; [exact Hg|..].
  - intros lid Hin. destruct (Sgr lids lid Hg Hin) as (l & -> & _). by eexists.
  - intros lid1 lid2 l1 l2 label1 label2 _ _ Hl1 Hl2 Hb1 Hb2 Hid.
    destruct (Slab _ _ _ Hl1 Hb1) as (H1 & _).
    destruct (Slab _ _ _ Hl2 Hb2) as (H2 & _).
    apply Pos.succ_inj. congruence.
  - intros lid l c s Hin Hl Hn.
    destruct (Sgr lids lid Hg Hin) as (l' & Hl' & Hnamed).
    simplify_eq. by eapply Hnamed.
Qed.

Lemma Sound_initial : Sound initialWorld.
Proof.
  split.
  - by apply ChurchInv_no_markers.
  - intros lid l. simpl. by rewrite lookup_empty.
  - intros lid l label. simpl. by rewrite lookup_empty.
  - intros lids lid. simpl. discriminate.
Qed.

Lemma Keeps_map (f : LMap -> LMap) (w : World) :
  (forall m, onMap (f m) ⊆ onMap m) ->
  Keeps w (set_mapInstanceRef (f <$> mapInstanceRef w) w).
Proof.
  intros Hsub. split; try done.
  - intros lid. simpl. by destruct (paths w !! lid); constructor.
  - simpl. intros m' id Hm' Hid. left.
    destruct (mapInstanceRef w) as [m|]; [|discriminate].
    simpl in Hm'. simplify_eq. exists m. split; [done|]. by apply Hsub.
Qed.

Lemma Keeps_label (lid : positive) (l : PathLayer) (label : Label) (w : World) :
  paths w !! lid = Some l -> _label l = Some label ->
  Keeps w (set_mapInstanceRef (addLayer (label_id label) <$> mapInstanceRef w) w).
Proof.
  intros Hl Hlab. split; try done.
  - intros lid'. simpl. by destruct (paths w !! lid'); constructor.
  - simpl. intros m' id Hm' Hid.
    destruct (mapInstanceRef w) as [m|]; [|discriminate].
    simpl in Hm'. simplify_eq. simpl in Hid.
    apply elem_of_union in Hid as [Hid|Hid].
    + right. apply elem_of_singleton in Hid. subst. by exists lid, l, label.
    + left. by exists m.
Qed.

Lemma Keeps_alter (g : PathLayer -> PathLayer) (lid : positive) (w : World) :
  (forall l, sameButLook l (g l)) ->
  Keeps w (set_paths (alter g lid (paths w)) w).
Proof.
  intros Hg. split; try done.
  - simpl. intros lid'. destruct (decide (lid = lid')) as [<-|Hne].
    + rewrite lookup_alter_eq. destruct (paths w !! lid); constructor. apply Hg.
    + rewrite lookup_alter_ne by done. by destruct (paths w !! lid'); constructor.
  - intros m' id Hm' Hid. left. by exists m'.
Qed.

Lemma Keeps_restyleOne (a : jsstring) (lid : positive) (w : World) :
  Keeps w (restyleOne a lid w).
Proof.
  unfold restyleOne. destruct (paths w !! lid) as [l|] eqn:Hl; [|apply Keeps_refl].
  split; try done; simpl.
  - intros lid'. destruct (decide (lid = lid')) as [<-|Hne].
    + rewrite lookup_alter_eq, Hl. by constructor.
    + rewrite lookup_alter_ne by done. by destruct (paths w !! lid'); constructor.
  - intros m' id Hm' Hid.
    destruct (mapInstanceRef w) as [m|]; [|discriminate].
    simpl in Hm'. simplify_eq. apply onMap_relabel in Hid.
    destruct (_label l) as [label|] eqn:Hlab; [|left; by exists m].
    destruct (matches a l).
    + destruct Hid as [->|Hid]; [right; by exists lid, l, label|left; by exists m].
    + destruct Hid as [_ Hid]. left. by exists m.
Qed.

Lemma Keeps_restyledAll (a : jsstring) (lids : list positive) (w : World) :
  Keeps w (restyledAll a lids w).
Proof.
  induction lids as [|lid lids IH] using rev_ind; [apply Keeps_refl|].
  rewrite restyledAll_snoc. eapply Keeps_trans; [exact IH|].
  apply Keeps_restyleOne.
Qed.

Section HandlersKeep.
Context `{Platform}.

Lemma Keeps_loadGeoJSON (response : option (list Feature)) (w : World) :
  Keeps w (snd (loadGeoJSON response w)) /\
  Keeps w (snd (loadGeoJSON_basic response w)).
Proof.
  unfold loadGeoJSON, loadGeoJSON_basic, tryCatch, bind, modify, lift, ret, throw.
  destruct response as [features|]; simpl; [|split; apply Keeps_refl].
  split.
  - destruct (mapE toAreaInfo _) as [e|areaList]; [by apply Keeps_fields|].
    destruct (mapE toChurchFeature _) as [e|churchList]; by apply Keeps_fields.
  - destruct (mapE toAreaInfo _) as [e|areaList]; by apply Keeps_fields.
Qed.

Lemma Keeps_initMap (w : World) : Keeps w (snd (initMap w)).
Proof.
  unfold initMap, bind, get, modify, ret.
  destruct (mapInstanceRef w) as [m|] eqn:Hm; [apply Keeps_refl|]. simpl.
  split; try done.
  - intros lid. simpl. by destruct (paths w !! lid); constructor.
  - simpl. intros m' id [= <-] Hid. simpl in Hid. by apply elem_of_empty in Hid.
Qed.

Lemma Keeps_searchEffect (w : World) : Keeps w (snd (searchEffect w)).
Proof. rewrite searchEffect_run. by apply Keeps_fields. Qed.

Lemma Keeps_restyleAll (a : jsstring) (w : World) :
  Keeps w (snd (restyleAll a w)).
Proof.
  rewrite restyleAll_run. destruct (geoJsonLayerRef w) as [lids|];
    [|apply Keeps_refl].
  destruct (forEach_restyleLayer a lids w) as (visited & _ & -> & _).
  apply Keeps_restyledAll.
Qed.

Lemma Keeps_zoomAndPopup (layer : option positive) (w : World) :
  Keeps w (snd (zoomAndPopup layer w w)).
Proof.
  unfold zoomAndPopup.
  destruct layer as [lid|]; [|apply Keeps_refl].
  destruct (mapInstanceRef w) as [m|] eqn:Hm; [|apply Keeps_refl].
  destruct (paths w !! lid) as [l|] eqn:Hl; [|apply Keeps_refl].
  unfold bind, onMapInstance, modify. rewrite Hm. simpl.
  set (w1 := set_mapInstanceRef _ w).
  assert (K1 : Keeps w w1).
  { split; try done.
    - intros lid'. simpl. by destruct (paths w !! lid'); constructor.
    - simpl. intros m' id [= <-] Hid. left. by exists m. }
  destruct (properties (feature l)) as [props|]; simpl; [|exact K1].
  destruct (createPopupContent_requests props w1) as (issued & Hsnd).
  destruct (createPopupContent props w1) as [[e|content] w2]; simpl in Hsnd;
    subst w2; simpl.
  - eapply Keeps_trans; [exact K1|]. by apply Keeps_fields.
  - eapply Keeps_trans; [exact K1|].
    set (w2 := set_requests (requests w1 ++ issued) w1).
    eapply Keeps_trans; [by apply (Keeps_fields w1 w2)|].
    unfold bindPopup, modify, get.
    eapply Keeps_trans; [apply (Keeps_alter (withPopup content) lid w2); done|].
    set (w3 := set_paths _ w2).
    destruct (bool_decide _); simpl; [|apply Keeps_refl].
    apply (Keeps_map (setOpenPopup (Some lid)) w3). done.
Qed.

Lemma Keeps_selectArea (a : jsstring) (layer : option positive) (w : World) :
  Keeps w (snd (selectArea a layer w)).
Proof.
  rewrite selectArea_blocks. set (w0 := set_selectedArea (Some a) w).
  assert (K0 : Keeps w w0) by by apply Keeps_fields.
  pose proof (Keeps_zoomAndPopup layer w0) as K1.
  destruct (zoomAndPopup layer w0 w0) as [[e|[]] w1]; simpl in K1.
  - by eapply Keeps_trans.
  - eapply Keeps_trans; [exact K0|]. eapply Keeps_trans; [exact K1|].
    apply Keeps_restyleAll.
Qed.

Lemma Keeps_areaListClick (area : AreaInfo) (w : World) :
  Keeps w (snd (areaListClick area w)).
Proof.
  unfold areaListClick, bind.
  assert (Hfind : snd (findAreaLayer (name area) w) = w).
  { unfold findAreaLayer, bind, get, lift, ret.
    by destruct (geoJsonLayerRef w). }
  destruct (findAreaLayer (name area) w) as [[e|layer] w1]; simpl in Hfind; subst w1.
  - apply Keeps_refl.
  - apply Keeps_selectArea.
Qed.

Lemma Keeps_zoomToFeature (lid : positive) (w : World) :
  Keeps w (snd (zoomToFeature lid w)).
Proof.
  unfold zoomToFeature, bind, get.
  destruct (paths w !! lid) as [l|]; [|apply Keeps_refl].
  destruct (properties (feature l)); [apply Keeps_selectArea|apply Keeps_refl].
Qed.

Lemma Keeps_highlightFeature (lid : positive) (w : World) :
  Keeps w (snd (highlightFeature lid w)).
Proof.
  destruct (paths w !! lid) as [l|] eqn:Hl.
  - destruct (properties (feature l)) as [props|] eqn:Hp.
    + rewrite (highlightFeature_run _ _ _ _ Hl Hp). simpl.
      set (w1 := set_paths _ w).
      assert (K1 : Keeps w w1) by (by apply Keeps_alter).
      eapply Keeps_trans; [exact K1|].
      destruct (_label l) as [label|] eqn:Hlab.
      * apply (Keeps_label lid (withOptions (mergeStyle highlightPatch) l) label w1);
          [|done]. unfold w1. simpl. by rewrite lookup_alter_eq, Hl.
      * by apply Keeps_fields.
    + unfold highlightFeature, bind, get. rewrite Hl, Hp. apply Keeps_refl.
  - unfold highlightFeature, bind, get. rewrite Hl. apply Keeps_refl.
Qed.

Lemma Keeps_resetHighlight (selected : option jsstring) (lid : positive)
  (w : World) :
  Keeps w (snd (resetHighlight selected lid w)).
Proof.
  unfold resetHighlight, bind, get.
  destruct (paths w !! lid) as [l|] eqn:Hl; [|apply Keeps_refl].
  set (reset := match geoJsonLayerRef w with Some _ => _ | None => _ end).
  assert (Hreset : exists w1, reset w = (inr tt, w1) /\ Keeps w w1 /\
                              mapInstanceRef w1 = mapInstanceRef w).
  { unfold reset. destruct (geoJsonLayerRef w).
    - unfold resetStyle, modify. eexists. split; [reflexivity|]. split; [|done].
      by apply Keeps_alter.
    - exists w. split; [done|]. split; [apply Keeps_refl|done]. }
  destruct Hreset as (w1 & -> & K1 & Hm1).
  eapply Keeps_trans; [exact K1|].
  destruct (_label l) as [label|]; [|apply Keeps_refl].
  destruct (mapInstanceRef w) as [m|]; [|apply Keeps_refl].
  destruct (negb _); [|apply Keeps_refl].
  unfold onMapInstance, modify. simpl.
  apply (Keeps_map (removeLayer (label_id label)) w1).
  intros m0. simpl. set_solver.
Qed.

Lemma Keeps_churchMarkerClick (marker : Marker) (w : World) :
  Keeps w (snd (churchMarkerClick marker w)).
Proof.
  unfold churchMarkerClick, bind, get.
  destruct (mapInstanceRef w) as [m|]; [|apply Keeps_refl].
  destruct (church_coordinates (marker_church marker)) as [lng lat].
  unfold onMapInstance, modify. simpl.
  by apply (Keeps_map (setView (SetView lat lng 16)) w).
Qed.

End HandlersKeep.

Lemma Grown_refl (w : World) : Grown w w.
Proof. split; try done; try lia. intros id l Hl. by left. Qed.

Lemma Grown_trans (a b c : World) : Grown a b -> Grown b c -> Grown a c.
Proof.
  intros [a1 a2 a3 a4 a5 a6 a7] [b1 b2 b3 b4 b5 b6 b7]. split; try congruence.
  - lia.
  - intros id Hid. rewrite b6 by lia. by apply a6.
  - intros id l Hl. destruct (b7 id l Hl) as [Hb|[Hrange Hlab]].
    + destruct (a7 id l Hb) as [Ha|[Hrange Hlab]]; [by left|].
      right. split; [lia|]. intros label Hl'.
      destruct (Hlab label Hl') as [-> ?]. split; [done|lia].
    + right. split; [lia|done].
Qed.

Lemma Grown_Sound (w w' : World) : Grown w w' -> Sound w -> Sound w'.
Proof.
  intros [Gmk Gtr Gmap Gg Gid Gold Gp] [[I1 I2 I3 I4] Slay Slab Sgr].
  split; [split|..].
  - intros id mk. rewrite Gmk. apply I1.
  - intros mk. rewrite Gtr, Gmk. apply I2.
  - intros id church (m' & mk & Hm' & Hid & Hmk & Hch). rewrite Gtr.
    apply (I3 id church). exists m', mk.
    split; [congruence|]. split; [done|]. split; [congruence|done].
  - intros id Hid. rewrite Gmk in Hid. apply I4 in Hid. lia.
  - intros lid l Hl. destruct (Gp lid l Hl) as [Hold|[Hrange _]]; [|lia].
    apply Slay in Hold. lia.
  - intros lid l label Hl Hlab. rewrite Gmk.
    destruct (Gp lid l Hl) as [Hold|[Hrange Hnew]].
    + destruct (Slab lid l label Hold Hlab) as (H1 & H2 & H3).
      split; [done|]. split; [lia|done].
    + destruct (Hnew label Hlab) as [-> Hlt]. split; [done|]. split; [done|].
      destruct (markers w !! Pos.succ lid) eqn:Hmk; [|done].
      assert ((Pos.succ lid < lastId w)%positive) by (apply I4; by eexists).
      lia.
  - intros lids lid Hg Hin. rewrite Gg in Hg.
    destruct (Sgr lids lid Hg Hin) as (l & Hl & Hnamed).
    exists l. split; [|done]. rewrite Gold; [done|]. by eapply Slay.
Qed.

Section RenderSound.
Context `{Platform}.

Lemma Grown_addData (f : Feature) (w : World) : Grown w (snd (addData f w)).
Proof.
  unfold addData, bind, stamp, get, modify. simpl.
  set (w1 := set_paths _ _).
  destruct (onEachFeature_frame f w1)
    as [(e & -> & He)|[(-> & Hname)|(label & c & s & -> & Hid & Hname)]]; simpl.
  - split; try done; simpl; [lia| |].
    + intros id Hid. apply lookup_insert_ne. lia.
    + intros id l. destruct (decide (lastId w = id)) as [<-|Hne].
      * rewrite lookup_insert_eq. intros [= <-]. right. split; [lia|]. done.
      * rewrite lookup_insert_ne by done. by left.
  - split; try done; simpl; [lia| |].
    + intros id Hid. rewrite alter_insert_eq. apply lookup_insert_ne. lia.
    + intros id l. rewrite alter_insert_eq.
      destruct (decide (lastId w = id)) as [<-|Hne].
      * rewrite lookup_insert_eq. intros [= <-]. right. split; [lia|]. done.
      * rewrite lookup_insert_ne by done. by left.
  - split; try done; simpl; [lia| |].
    + intros id Hid'. rewrite alter_insert_eq. apply lookup_insert_ne. lia.
    + intros id l. rewrite alter_insert_eq.
      destruct (decide (lastId w = id)) as [<-|Hne].
      * rewrite lookup_insert_eq. intros [= <-]. right. split; [lia|].
        simpl. intros ? [= <-]. simpl in Hid. split; [done|lia].
      * rewrite lookup_insert_ne by done. by left.
Qed.

Lemma Grown_mapM_addData (fs : list Feature) (w : World) :
  Grown w (snd (mapM addData fs w)).
Proof.
  revert w. induction fs as [|f fs IH]; intros w; simpl; [apply Grown_refl|].
  unfold bind at 1. pose proof (Grown_addData f w) as G1.
  destruct (addData f w) as [[e|lid] w1]; simpl in G1; [exact G1|].
  unfold bind at 1. pose proof (IH w1) as G2.
  destruct (mapM addData fs w1) as [[e|rest] w2]; simpl in G2;
    by eapply Grown_trans.
Qed.

Lemma renderEffect_Sound (w : World) : Sound w -> Sound (snd (renderEffect w)).
Proof.
  intros Hs. unfold renderEffect, bind at 1, get.
  destruct (mapInstanceRef w) as [m|] eqn:Hm; [|exact Hs].
  destruct (curacaoGeoJSON w) as [features|] eqn:Hdata; [|exact Hs].
  unfold bind at 1.
  set (clean := match geoJsonLayerRef w with Some _ => _ | None => _ end).
  assert (Hclean : exists w1, clean w = (inr tt, w1) /\ Keeps w w1).
  { unfold clean. destruct (geoJsonLayerRef w) as [old|]; simpl.
    - unfold bind, onMapInstance, modify.
      destruct (forEach_removeLabel_run old w m Hm) as (m1 & -> & Hon & _).
      eexists. split; [reflexivity|]. simpl.
      eapply Keeps_trans with (set_mapInstanceRef (Some m1) w).
      + split; try done.
        * intros lid. simpl. by destruct (paths w !! lid); constructor.
        * simpl. intros m' id [= <-] Hid. left. exists m. split; [done|].
          rewrite Hon in Hid. set_solver.
      + split; try done.
        * intros lid. simpl. by destruct (paths w !! lid); constructor.
        * simpl. intros m' id [= <-] Hid. left. exists m1. split; [done|].
          by destruct (bool_decide _).
    - exists w. split; [done|apply Keeps_refl]. }
  destruct Hclean as (w1 & -> & K1).
  pose proof (Keeps_Sound _ _ K1 Hs) as Hs1.
  unfold bind, modify.
  pose proof (Grown_mapM_addData
                (List.filter (fun f => isPolygonType (geometry f)) features) w1) as G.
  destruct (mapM addData _ w1) as [[e|lids] w2] eqn:Hmap; simpl in G.
  - by eapply Grown_Sound.
  - pose proof (Grown_Sound _ _ G Hs1) as [Hc Hlay Hlab Hgr]. simpl.
    destruct (mapM_addData_ok _ _ _ _ Hmap) as (_ & _ & _ & Hlids).
    split; try done.
    + destruct Hc as [I1 I2 I3 I4]. by split.
    + simpl. intros lids' lid [= <-] Hin.
      destruct (Hlids lid Hin) as (_ & l & Hl & _ & Hnamed). by exists l.
Qed.

Lemma window_showChurchesForArea_Sound (areaName : jsstring) (w : World) :
  Sound w -> Sound (snd (window_showChurchesForArea areaName w)).
Proof.
  intros Hs. unfold window_showChurchesForArea, bind, onMapInstance, modify.
  destruct (mapInstanceRef w) as [m|] eqn:Hm; cbn [fmap option_fmap option_map].
  - set (w0 := set_mapInstanceRef (Some (setOpenPopup None m)) w).
    assert (K0 : Keeps w w0).
    { split; try done.
      - intros lid. simpl. by destruct (paths w !! lid); constructor.
      - simpl. intros m' id [= <-] Hid. left. by exists m. }
    pose proof (Keeps_Sound _ _ K0 Hs) as [Hc Hlay Hlab Hgr].
    destruct (showChurchesForArea_world areaName w0 _ eq_refl Hc)
      as (w' & m' & Hrun & _ & _ & _ & _ & _ & Hold & Hc').
    rewrite Hrun. simpl.
    rewrite (showChurchesForArea_run areaName w0 _ eq_refl) in Hrun.
    injection Hrun as <-.
    match goal with
    | |- Sound (addAll ?cs0 ?w10) =>
        destruct (addAll_others cs0 w10) as (_ & _ & Hpaths & Hg & _);
        destruct (addAll_lastId cs0 w10) as [Hle _]
    end.
    simpl in Hpaths, Hg, Hle.
    split; [exact Hc'|..].
    + intros lid l. rewrite Hpaths. intros Hl. apply Hlay in Hl. simpl in Hl. lia.
    + intros lid l label. rewrite Hpaths. intros Hl Hb.
      destruct (Hlab lid l label Hl Hb) as (H1 & H2 & H3). simpl in H2, H3.
      split; [done|]. split; [lia|]. by rewrite Hold.
    + intros lids lid. rewrite Hg, Hpaths. apply Hgr.
  - assert (Hsame : set_mapInstanceRef None w = w)
      by (destruct w; simpl in *; by subst).
    rewrite Hsame.
    destruct (overlay_without_map areaName w Hm) as [-> _]. exact Hs.
Qed.

Lemma reachable_is_Sound (w : World) : reachable w -> Sound w.
Proof.
  unfold reachable. revert w.
  apply (rtc_ind_r (fun w => Sound w) initialWorld); [apply Sound_initial|].
  intros w1 w2 Hreach Hstep IH.
  destruct Hstep.
  - eapply Keeps_Sound; [apply Keeps_loadGeoJSON|done].
  - eapply Keeps_Sound; [apply Keeps_loadGeoJSON|done].
  - eapply Keeps_Sound; [apply Keeps_initMap|done].
  - by apply renderEffect_Sound.
  - eapply Keeps_Sound; [|exact IH]. by apply Keeps_fields.
  - eapply Keeps_Sound; [apply Keeps_searchEffect|done].
  - eapply Keeps_Sound; [apply Keeps_areaListClick|done].
  - eapply Keeps_Sound; [apply Keeps_zoomToFeature|done].
  - eapply Keeps_Sound; [apply Keeps_highlightFeature|done].
  - eapply Keeps_Sound; [apply Keeps_resetHighlight|done].
  - by apply window_showChurchesForArea_Sound.
  - eapply Keeps_Sound; [apply Keeps_churchMarkerClick|done].
Qed.

(** X19: in every world the mounted component reaches from its initial
    state by running its effects and event handlers (either loader on any
    response, the map initialisation, the render effect, typing in the
    search box, the search effect, a click in the area list, a click on a
    polygon, the pointer entering or leaving a polygon, the popup's
    button, a click on a church marker), each from start to end and
    whatever its outcome, the church invariant holds (a marker is
    stored under its own stamp, every tracked marker is stored, every
    church marker shown on the map is tracked, and every stamp in use is
    below the next one) and a layer group the ref holds is rendered: its
    layers are stored, two of them never share a label, and a layer whose
    feature has a non-empty [NAME] has a label. *)
Theorem reachable_invariants (w : World) :
  reachable w ->
  ChurchInv w /\
  (forall lids, geoJsonLayerRef w = Some lids -> Rendered w lids).
Proof.
  intros Hreach. pose proof (reachable_is_Sound w Hreach) as Hs.
  split; [apply Hs|]. intros lids Hg. by apply Sound_Rendered.
Qed.

End RenderSound.

Lemma reachable_invariants_witness :
  ChurchInv rendered /\ Rendered rendered [1%positive; 3%positive].
Proof.
  assert (Hreach : @reachable offline rendered).
  { unfold reachable, rendered, mounted.
    apply rtc_l with (snd (@loadGeoJSON offline (Some scenario) initialWorld));
      [apply h_load|].
    generalize (snd (@loadGeoJSON offline (Some scenario) initialWorld)).
    intros w1.
    apply rtc_l with (snd (initMap w1)); [apply h_init|].
    generalize (snd (initMap w1)). intros w2.
    apply rtc_once. apply h_render. }
  destruct (@reachable_invariants offline rendered Hreach) as (Hc & Hr).
  split; [exact Hc|]. apply Hr. vm_compute. reflexivity.
Defined.

(** ** A layer without properties *)

Section PassStops.
Context `{Platform}.

Lemma forEach_restyleLayer_stops (a : jsstring) (pre post : list positive)
  (lid : positive) (l : PathLayer) (w : World) :
  (forall x lx, x ∈ pre -> paths w !! x = Some lx ->
                is_Some (properties (feature lx))) ->
  paths w !! lid = Some l -> properties (feature l) = None ->
  forEach (pre ++ lid :: post) (restyleLayer a) w
  = (inl TypeError, restyledAll a pre w).
Proof.
  revert w. induction pre as [|x pre IH]; intros w Hhave Hl Hp.
  - simpl. unfold bind.
    destruct (restyleLayer_cases a lid w) as [Hok|[-> _]]; [|done].
    exfalso. unfold restyleLayer, bind, get in Hok. by rewrite Hl, Hp in Hok.
  - simpl. unfold bind at 1.
    destruct (restyleLayer_cases a x w) as [->|[_ (lx & Hlx & Hpx)]].
    + assert (Hx : x <> lid).
      { intros ->. destruct (Hhave lid l) as [p Hp']; [set_solver|done|congruence]. }
      apply IH.
      * intros y ly Hin Hly.
        pose proof (so_paths _ _ (StyleOnly_restyleOne a x w) y) as Hsame.
        rewrite Hly in Hsame. inversion Hsame as [l0 ? (Hf & _) Hl0|]; subst.
        rewrite Hf. eapply (Hhave y); [set_solver|done].
      * rewrite restyleOne_paths, decide_False by done. exact Hl.
      * done.
    + destruct (Hhave x lx) as [p Hp']; [set_solver|done|congruence].
Qed.

(** X20: the restyling pass of a selection stops at the first layer of
    the group whose feature has no properties object: [selectArea] called
    without a layer then ends in a [TypeError], with the name recorded as
    the selection and only the layers before that one restyled; every
    other layer, a polygon of the selected area after it included, looks
    as it did. *)
Theorem selectArea_stops_at_bare_layer (areaName : jsstring) (w : World)
  (pre post : list positive) (lid : positive) (l : PathLayer) :
  geoJsonLayerRef w = Some (pre ++ lid :: post) ->
  (forall x lx, x ∈ pre -> paths w !! x = Some lx ->
                is_Some (properties (feature lx))) ->
  paths w !! lid = Some l -> properties (feature l) = None ->
  selectArea areaName None w
  = (inl TypeError, restyledAll areaName pre (set_selectedArea (Some areaName) w)) /\
  forall x, x ∉ pre ->
    paths (snd (selectArea areaName None w)) !! x = paths w !! x.
Proof.
  intros Hg Hhave Hl Hp.
  assert (Hrun : selectArea areaName None w
    = (inl TypeError, restyledAll areaName pre (set_selectedArea (Some areaName) w))).
  { change (selectArea areaName None w)
      with (restyleAll areaName (set_selectedArea (Some areaName) w)).
    rewrite restyleAll_run.
    change (geoJsonLayerRef (set_selectedArea (Some areaName) w))
      with (geoJsonLayerRef w). rewrite Hg.
    by apply forEach_restyleLayer_stops with l. }
  split; [exact Hrun|]. intros x Hx. rewrite Hrun. simpl.
  rewrite restyledAll_paths. by rewrite decide_False.
Qed.

End PassStops.

Lemma selectArea_stops_at_bare_layer_witness :
  @selectArea offline (js "Bandabou") None bareRendered
  = (inl TypeError,
     restyledAll (js "Bandabou") [1%positive]
       (set_selectedArea (Some (js "Bandabou")) bareRendered)) /\
  forall x, x ∉ [1%positive] ->
    paths (snd (@selectArea offline (js "Bandabou") None bareRendered)) !! x
    = paths bareRendered !! x.
Proof.
  apply (@selectArea_stops_at_bare_layer offline (js "Bandabou") bareRendered
           [1%positive] [4%positive] 3%positive
           {| feature := bareFeature; options := noStyle;
              _label := None; _popup := None |}).
  - vm_compute. reflexivity.
  - intros x lx Hin. apply list_elem_of_singleton in Hin. subst x.
    vm_compute. intros [= <-]. by eexists.
  - vm_compute. reflexivity.
  - reflexivity.
Defined.

(** Bandabou is selected and its polygon, which comes after the bare
    one, still has the default stroke. *)
Example selectArea_bare_run :
  let w' := snd (@selectArea offline (js "Bandabou") None bareRendered) in
  selectedArea w' = Some (js "Bandabou") /\
  (weight ∘ options <$> paths w' !! 4%positive) = Some (Some 1).
Proof. vm_compute. done. Qed.
